(** * Order attribute groups (src/app/admin/orders/[page]/attribute_group.tsx)

    A shallow embedding of the attribute-group editor of the order page:
    the document model ([AttributeItem], [AttributeInstance],
    [AttributeGroup]), the load-time parse of [data.data], the edit handlers
    that run inside immer's [produce], the [hasChanges] comparison and the
    save protocol, together with the part of [JSON.stringify] and
    [JSON.parse] these rely on.

    The component state is a record; a handler is a function from the state
    of the render it was created in to the next state and the toasts it
    raises.  What the environment decides is an argument: the answer of
    [confirm] and [prompt], the id [generateId()] returns, the outcome of
    [actions.updateRecord].  A recipe passed to [produce] is a function on
    the draft, the snapshot it started from staying as it was.  Row and
    field indices are the indices of [Array.prototype.map], natural
    numbers. *)

From Stdlib Require Import String Ascii ZArith NArith List Bool Lia.
From Stdlib Require Import DecimalFacts DecimalPos DecimalN.
From stdpp Require Import base list.

Import ListNotations.
Local Open Scope string_scope.
Local Open Scope list_scope.

(** ** JavaScript values

    The values an [any]-typed slot of the document can hold once it has been
    through JSON: [null], booleans, numbers, strings, arrays and plain
    objects.  Numbers are the integers up to [Number.MAX_SAFE_INTEGER] in
    absolute value ([safe_integer], part of [well_formed] below), each of
    which is a double whose text is its decimal digits; fractions,
    exponents and larger numbers are outside the model.  A string is a sequence of code units below 256; an object is
    the list of its own properties in enumeration order.  A property that is
    absent and a property holding [undefined] are not told apart: both read
    as [None]. *)

#[local] Unset Elimination Schemes.
Inductive jsval : Type :=
| JNull
| JBool (b : bool)
| JNum (n : Z)
| JStr (s : string)
| JArr (elems : list jsval)
| JObj (props : list (string * jsval)).
#[local] Set Elimination Schemes.

(** [Number.MAX_SAFE_INTEGER], 2^53 - 1. *)
Definition max_safe_integer : N := 9007199254740991.

Definition safe_integer (n : Z) : bool := (Z.abs_N n <=? max_safe_integer)%N.

Definition dquote : ascii := "034"%char.
Definition backslash : ascii := "092"%char.

(** *** Own properties of an object

    [OrdinaryOwnPropertyKeys]: array-index keys first, in ascending numeric
    order, then the other string keys in creation order.  [define_property]
    is [CreateDataProperty] on such a list: an existing key keeps its place
    and takes the new value. *)

Fixpoint read_uint (s : string) : Decimal.uint * string :=
  match s with
  | String c r =>
      let push (d : Decimal.uint -> Decimal.uint) :=
        let '(u, r') := read_uint r in (d u, r') in
      if Ascii.eqb c "0" then push Decimal.D0
      else if Ascii.eqb c "1" then push Decimal.D1
      else if Ascii.eqb c "2" then push Decimal.D2
      else if Ascii.eqb c "3" then push Decimal.D3
      else if Ascii.eqb c "4" then push Decimal.D4
      else if Ascii.eqb c "5" then push Decimal.D5
      else if Ascii.eqb c "6" then push Decimal.D6
      else if Ascii.eqb c "7" then push Decimal.D7
      else if Ascii.eqb c "8" then push Decimal.D8
      else if Ascii.eqb c "9" then push Decimal.D9
      else (Decimal.Nil, s)
  | EmptyString => (Decimal.Nil, s)
  end.

(** A digit string in canonical form: not empty, no leading zero unless it
    is the single digit 0. *)
Definition canonical_uint (u : Decimal.uint) : bool :=
  match u with
  | Decimal.Nil => false
  | Decimal.D0 Decimal.Nil => true
  | Decimal.D0 _ => false
  | _ => true
  end.

Definition array_index (k : string) : option N :=
  match read_uint k with
  | (u, EmptyString) =>
      if canonical_uint u && (N.of_uint u <=? 4294967294)%N
      then Some (N.of_uint u) else None
  | _ => None
  end.

Definition key_precedes (k k' : string) : bool :=
  match array_index k, array_index k' with
  | Some a, Some b => (a <? b)%N
  | Some _, None => true
  | None, _ => false
  end.

Fixpoint define_property {A : Type} (k : string) (v : A) (o : list (string * A))
  : list (string * A) :=
  match o with
  | [] => [(k, v)]
  | (k', v') :: o' =>
      if String.eqb k k' then (k, v) :: o'
      else if key_precedes k k' then (k, v) :: (k', v') :: o'
      else (k', v') :: define_property k v o'
  end.

Definition own_properties {A : Type} (members : list (string * A)) : list (string * A) :=
  fold_left (fun o kv => define_property (fst kv) (snd kv) o) members [].

(** [o.k], [None] standing for [undefined]. *)
Fixpoint get_property {A : Type} (k : string) (o : list (string * A)) : option A :=
  match o with
  | [] => None
  | (k', v) :: o' => if String.eqb k k' then Some v else get_property k o'
  end.

(** ** JSON.stringify

    The writers take the text that follows as an argument, so that the
    output is built front to back. *)

Definition hex_digit (n : N) : ascii :=
  ascii_of_N (if (n <? 10)%N then 48 + n else 87 + n)%N.

(** [QuoteJSONString], one code unit. *)
Definition quote_char (c : ascii) (k : string) : string :=
  let n := N_of_ascii c in
  if (n =? 8)%N then String backslash (String "b" k)
  else if (n =? 9)%N then String backslash (String "t" k)
  else if (n =? 10)%N then String backslash (String "n" k)
  else if (n =? 12)%N then String backslash (String "f" k)
  else if (n =? 13)%N then String backslash (String "r" k)
  else if (n =? 34)%N then String backslash (String dquote k)
  else if (n =? 92)%N then String backslash (String backslash k)
  else if (n <? 32)%N then
    String backslash (String "u" (String "0" (String "0"
      (String (hex_digit (n / 16)) (String (hex_digit (n mod 16)) k)))))
  else String c k.

Fixpoint write_chars (s : string) (k : string) : string :=
  match s with
  | EmptyString => k
  | String c s' => quote_char c (write_chars s' k)
  end.

Definition write_string (s : string) (k : string) : string :=
  String dquote (write_chars s (String dquote k)).

Fixpoint write_uint (u : Decimal.uint) (k : string) : string :=
  match u with
  | Decimal.Nil => k
  | Decimal.D0 u' => String "0" (write_uint u' k)
  | Decimal.D1 u' => String "1" (write_uint u' k)
  | Decimal.D2 u' => String "2" (write_uint u' k)
  | Decimal.D3 u' => String "3" (write_uint u' k)
  | Decimal.D4 u' => String "4" (write_uint u' k)
  | Decimal.D5 u' => String "5" (write_uint u' k)
  | Decimal.D6 u' => String "6" (write_uint u' k)
  | Decimal.D7 u' => String "7" (write_uint u' k)
  | Decimal.D8 u' => String "8" (write_uint u' k)
  | Decimal.D9 u' => String "9" (write_uint u' k)
  end.

Definition write_number (n : Z) (k : string) : string :=
  match n with
  | Z0 => String "0" k
  | Zpos p => write_uint (Pos.to_uint p) k
  | Zneg p => String "-" (write_uint (Pos.to_uint p) k)
  end.

Definition sep (first : bool) (k : string) : string :=
  if first then k else String "," k.

Fixpoint write_value (v : jsval) (k : string) : string :=
  match v with
  | JNull => "null" ++ k
  | JBool true => "true" ++ k
  | JBool false => "false" ++ k
  | JNum n => write_number n k
  | JStr s => write_string s k
  | JArr vs =>
      String "["
        ((fix elems (first : bool) (vs : list jsval) : string :=
            match vs with
            | [] => String "]" k
            | v :: vs' => sep first (write_value v (elems false vs'))
            end) true vs)
  | JObj ps =>
      String "{"
        ((fix members (first : bool) (ps : list (string * jsval)) : string :=
            match ps with
            | [] => String "}" k
            | (key, v) :: ps' =>
                sep first (write_string key (String ":" (write_value v (members false ps'))))
            end) true ps)
  end.

Fixpoint write_elems (first : bool) (vs : list jsval) (k : string) : string :=
  match vs with
  | [] => String "]" k
  | v :: vs' => sep first (write_value v (write_elems false vs' k))
  end.

Fixpoint write_members (first : bool) (ps : list (string * jsval)) (k : string) : string :=
  match ps with
  | [] => String "}" k
  | (key, v) :: ps' =>
      sep first (write_string key (String ":" (write_value v (write_members false ps' k))))
  end.

Definition JSON_stringify (v : jsval) : string := write_value v "".

(** ** JSON.parse

    Reading a text has three outcomes: the value; the [SyntaxError] of a
    text that is not JSON; and [outside], for a text that leaves the part
    of JSON the values above cover before any error is met (a fraction or
    an exponent, an integer beyond [max_safe_integer], a [\u] escape from
    0100 on).  Of a text that is [outside] the model says nothing: it may
    be JSON or not. *)
Inductive reading (A : Type) : Type :=
| read (a : A)
| throws
| outside.
Arguments read {A} a.
Arguments throws {A}.
Arguments outside {A}.

Definition is_ws (c : ascii) : bool :=
  Ascii.eqb c " " || Ascii.eqb c "009" || Ascii.eqb c "010" || Ascii.eqb c "013".

Fixpoint skip_ws (s : string) : string :=
  match s with
  | String c r => if is_ws c then skip_ws r else s
  | EmptyString => s
  end.

Fixpoint strip_prefix (p s : string) : option string :=
  match p, s with
  | EmptyString, _ => Some s
  | String a p', String b s' => if Ascii.eqb a b then strip_prefix p' s' else None
  | String _ _, EmptyString => None
  end.

Definition hex_value (c : ascii) : option N :=
  let n := N_of_ascii c in
  if (48 <=? n)%N && (n <=? 57)%N then Some (n - 48)%N
  else if (97 <=? n)%N && (n <=? 102)%N then Some (n - 87)%N
  else if (65 <=? n)%N && (n <=? 70)%N then Some (n - 55)%N
  else None.

(** The four hex digits of a [\u] escape: anything else than four hex
    digits is an error, and a code unit from 256 on is outside the model. *)
Definition unicode_escape (a b c d : ascii) : reading ascii :=
  match hex_value a, hex_value b, hex_value c, hex_value d with
  | Some x, Some y, Some z, Some w =>
      if (x =? 0)%N && (y =? 0)%N then read (ascii_of_N (16 * z + w)) else outside
  | _, _, _, _ => throws
  end.

(** The characters of a string literal after its opening quote, up to and
    including the closing quote. *)
Fixpoint parse_chars (s : string) : reading (string * string) :=
  match s with
  | EmptyString => throws
  | String c r =>
      if Ascii.eqb c dquote then read (EmptyString, r)
      else if Ascii.eqb c backslash then
        match r with
        | String e r1 =>
            let lit (x : ascii) (rest : string) :=
              match parse_chars rest with
              | read (str, r') => read (String x str, r')
              | throws => throws
              | outside => outside
              end in
            if Ascii.eqb e dquote then lit dquote r1
            else if Ascii.eqb e backslash then lit backslash r1
            else if Ascii.eqb e "/" then lit "/"%char r1
            else if Ascii.eqb e "b" then lit "008"%char r1
            else if Ascii.eqb e "f" then lit "012"%char r1
            else if Ascii.eqb e "n" then lit "010"%char r1
            else if Ascii.eqb e "r" then lit "013"%char r1
            else if Ascii.eqb e "t" then lit "009"%char r1
            else if Ascii.eqb e "u" then
              match r1 with
              | String h1 (String h2 (String h3 (String h4 r2))) =>
                  match unicode_escape h1 h2 h3 h4 with
                  | read x => lit x r2
                  | throws => throws
                  | outside => outside
                  end
              | _ => throws
              end
            else throws
        | EmptyString => throws
        end
      else if (N_of_ascii c <? 32)%N then throws
      else
        match parse_chars r with
        | read (str, r') => read (String c str, r')
        | throws => throws
        | outside => outside
        end
  end.

Definition frac_or_exp (s : string) : bool :=
  match s with
  | String c _ => Ascii.eqb c "." || Ascii.eqb c "e" || Ascii.eqb c "E"
  | EmptyString => false
  end.

(** The digits of a number: no digit, or a leading zero before another
    digit, is an error; a fraction or an exponent after the digits, or an
    integer no double holds exactly, is outside the model. *)
Definition parse_digits (s : string) : reading (N * string) :=
  let '(u, r) := read_uint s in
  if canonical_uint u then
    if frac_or_exp r then outside
    else if (N.of_uint u <=? max_safe_integer)%N then read (N.of_uint u, r)
    else outside
  else throws.

Definition parse_number (s : string) : reading (jsval * string) :=
  match s with
  | String c r =>
      if Ascii.eqb c "-" then
        match parse_digits r with
        | read (n, r') => read (JNum (- Z.of_N n), r')
        | throws => throws
        | outside => outside
        end
      else
        match parse_digits s with
        | read (n, r') => read (JNum (Z.of_N n), r')
        | throws => throws
        | outside => outside
        end
  | EmptyString => throws
  end.

(** The recursion is on [fuel], which the length of the text bounds; a
    text that needed more would be [outside]. *)
Fixpoint parse_value (fuel : nat) (s : string) {struct fuel} : reading (jsval * string) :=
  match fuel with
  | O => outside
  | S fuel' =>
      match skip_ws s with
      | EmptyString => throws
      | String c r =>
          if Ascii.eqb c "[" then
            match skip_ws r with
            | String c' r' =>
                if Ascii.eqb c' "]" then read (JArr [], r')
                else
                  match parse_elements fuel' r with
                  | read (vs, r'') => read (JArr vs, r'')
                  | throws => throws
                  | outside => outside
                  end
            | EmptyString => throws
            end
          else if Ascii.eqb c "{" then
            match skip_ws r with
            | String c' r' =>
                if Ascii.eqb c' "}" then read (JObj [], r')
                else
                  match parse_members fuel' r with
                  | read (ps, r'') => read (JObj (own_properties ps), r'')
                  | throws => throws
                  | outside => outside
                  end
            | EmptyString => throws
            end
          else if Ascii.eqb c dquote then
            match parse_chars r with
            | read (str, r') => read (JStr str, r')
            | throws => throws
            | outside => outside
            end
          else if Ascii.eqb c "n" then
            match strip_prefix "ull" r with
            | Some r' => read (JNull, r')
            | None => throws
            end
          else if Ascii.eqb c "t" then
            match strip_prefix "rue" r with
            | Some r' => read (JBool true, r')
            | None => throws
            end
          else if Ascii.eqb c "f" then
            match strip_prefix "alse" r with
            | Some r' => read (JBool false, r')
            | None => throws
            end
          else parse_number (String c r)
      end
  end
with parse_elements (fuel : nat) (s : string) {struct fuel} : reading (list jsval * string) :=
  match fuel with
  | O => outside
  | S fuel' =>
      match parse_value fuel' s with
      | read (v, r) =>
          match skip_ws r with
          | String c r' =>
              if Ascii.eqb c "," then
                match parse_elements fuel' r' with
                | read (vs, r'') => read (v :: vs, r'')
                | throws => throws
                | outside => outside
                end
              else if Ascii.eqb c "]" then read ([v], r')
              else throws
          | EmptyString => throws
          end
      | throws => throws
      | outside => outside
      end
  end
with parse_members (fuel : nat) (s : string) {struct fuel}
  : reading (list (string * jsval) * string) :=
  match fuel with
  | O => outside
  | S fuel' =>
      match skip_ws s with
      | String q r0 =>
          if Ascii.eqb q dquote then
            match parse_chars r0 with
            | read (key, r1) =>
                match skip_ws r1 with
                | String c r2 =>
                    if Ascii.eqb c ":" then
                      match parse_value fuel' r2 with
                      | read (v, r3) =>
                          match skip_ws r3 with
                          | String d r4 =>
                              if Ascii.eqb d "," then
                                match parse_members fuel' r4 with
                                | read (ps, r5) => read ((key, v) :: ps, r5)
                                | throws => throws
                                | outside => outside
                                end
                              else if Ascii.eqb d "}" then read ([(key, v)], r4)
                              else throws
                          | EmptyString => throws
                          end
                      | throws => throws
                      | outside => outside
                      end
                    else throws
                | EmptyString => throws
                end
            | throws => throws
            | outside => outside
            end
          else throws
      | EmptyString => throws
      end
  end.

(** [JSON.parse text] *)
Definition JSON_parse (text : string) : reading jsval :=
  match parse_value (S (String.length text)) text with
  | read (v, r) =>
      match skip_ws r with
      | EmptyString => read v
      | String _ _ => throws
      end
  | throws => throws
  | outside => outside
  end.

(** ** The document model *)

Record AttributeItem : Type := {
  item_id : string;
  item_title : string;
  item_value : option jsval (* value?: any *)
}.

Record AttributeInstance : Type := {
  attr_id : string;
  attr_title : string;
  children : list (list AttributeItem) (* rows of fields *)
}.

Record AttributeGroup : Type := {
  group_id : string;
  group_title : string;
  attributes : list AttributeInstance
}.

(** A typed record seen as the JavaScript object it is, its properties in
    the order in which the object literals of the component write them:
    [{id, title, value}] for a field ([handleAddAttributeRow]),
    [{title, id, children}] for an instance
    ([handleSelectAttributeForGroup]) and [{id, title, attributes}] for a
    group ([handleAddGroup], the migration of Effect 1).  A field without
    [value] has no such property. *)
Definition js_of_item (f : AttributeItem) : jsval :=
  JObj ([("id", JStr (item_id f)); ("title", JStr (item_title f))]
          ++ match item_value f with Some v => [("value", v)] | None => [] end).

Definition js_of_row (row : list AttributeItem) : jsval :=
  JArr (map js_of_item row).

Definition js_of_instance (a : AttributeInstance) : jsval :=
  JObj [("title", JStr (attr_title a)); ("id", JStr (attr_id a));
        ("children", JArr (map js_of_row (children a)))].

Definition js_of_group (g : AttributeGroup) : jsval :=
  JObj [("id", JStr (group_id g)); ("title", JStr (group_title g));
        ("attributes", JArr (map js_of_instance (attributes g)))].

Definition js_of_groups (d : list AttributeGroup) : jsval :=
  JArr (map js_of_group d).

(** The other direction: a parsed value read as a typed record.  A record
    stands for its object property for property, so a value is read only
    when it is such an object: the properties of the interface and no
    other, in the order above, the ids and titles strings.  Any other
    value has no typed record that is the same value, and is not read. *)
Fixpoint traverse {A B : Type} (f : A -> option B) (l : list A) : option (list B) :=
  match l with
  | [] => Some []
  | x :: l' =>
      match f x, traverse f l' with
      | Some y, Some ys => Some (y :: ys)
      | _, _ => None
      end
  end.

Definition item_of_js (v : jsval) : option AttributeItem :=
  match v with
  | JObj [(k1, JStr i); (k2, JStr t)] =>
      if String.eqb k1 "id" && String.eqb k2 "title"
      then Some {| item_id := i; item_title := t; item_value := None |}
      else None
  | JObj [(k1, JStr i); (k2, JStr t); (k3, x)] =>
      if String.eqb k1 "id" && String.eqb k2 "title" && String.eqb k3 "value"
      then Some {| item_id := i; item_title := t; item_value := Some x |}
      else None
  | _ => None
  end.

Definition row_of_js (v : jsval) : option (list AttributeItem) :=
  match v with
  | JArr fs => traverse item_of_js fs
  | _ => None
  end.

Definition instance_of_js (v : jsval) : option AttributeInstance :=
  match v with
  | JObj [(k1, JStr t); (k2, JStr i); (k3, JArr rows)] =>
      if String.eqb k1 "title" && String.eqb k2 "id" && String.eqb k3 "children"
      then
        match traverse row_of_js rows with
        | Some rs => Some {| attr_id := i; attr_title := t; children := rs |}
        | None => None
        end
      else None
  | _ => None
  end.

Definition group_of_js (v : jsval) : option AttributeGroup :=
  match v with
  | JObj [(k1, JStr i); (k2, JStr t); (k3, JArr attrs)] =>
      if String.eqb k1 "id" && String.eqb k2 "title" && String.eqb k3 "attributes"
      then
        match traverse instance_of_js attrs with
        | Some l => Some {| group_id := i; group_title := t; attributes := l |}
        | None => None
        end
      else None
  | _ => None
  end.

Definition groups_of_js (vs : list jsval) : option (list AttributeGroup) :=
  traverse group_of_js vs.

(** The attribute definitions of the store ([state.attributeState.data]). *)
Record FieldDefinition : Type := {
  field_id : string;
  field_title : string;
  field_type : string
}.

Record AttributeDefinition : Type := {
  def_id : string;
  def_title : string;
  def_mapto : option string;
  def_children : option (list FieldDefinition)
}.

Inductive Toast : Type :=
| toast_error (msg : string)
| toast_info (msg : string)
| toast_success (msg : string).

(** The component state: the document being edited, the id of the active
    tab, and the baseline of the last load or save. *)
Record State : Type := {
  groupSelected : list AttributeGroup;
  activeGroupId : option string;
  savedGroupData : list AttributeGroup
}.

Definition set_groupSelected (gs : list AttributeGroup) (st : State) : State :=
  {| groupSelected := gs; activeGroupId := activeGroupId st;
     savedGroupData := savedGroupData st |}.

Definition set_activeGroupId (a : option string) (st : State) : State :=
  {| groupSelected := groupSelected st; activeGroupId := a;
     savedGroupData := savedGroupData st |}.

Definition set_savedGroupData (gs : list AttributeGroup) (st : State) : State :=
  {| groupSelected := groupSelected st; activeGroupId := activeGroupId st;
     savedGroupData := gs |}.

(** ** Helpers of the handlers *)

(** [!activeGroupId], for a [string | null]. *)
Definition falsy (a : option string) : bool :=
  match a with
  | None => true
  | Some s => String.eqb s ""
  end.

(** Truthiness of a value. *)
Definition truthy (v : jsval) : bool :=
  match v with
  | JNull => false
  | JBool b => b
  | JNum n => negb (n =? 0)%Z
  | JStr s => negb (String.eqb s "")
  | JArr _ | JObj _ => true
  end.

(** [v?.k]: [undefined] on [null], and on the values that have no such
    property. *)
Definition opt_prop (k : string) (v : jsval) : option jsval :=
  match v with
  | JObj ps => get_property k ps
  | _ => None
  end.

(** [a === b].  Arrays and objects are compared by identity in JavaScript;
    the values met here come out of [JSON.parse] or of a fresh literal, so
    two of them are never the same object. *)
Definition strict_equals (a b : option jsval) : bool :=
  match a, b with
  | None, None => true
  | Some JNull, Some JNull => true
  | Some (JBool x), Some (JBool y) => Bool.eqb x y
  | Some (JNum x), Some (JNum y) => (x =? y)%Z
  | Some (JStr x), Some (JStr y) => String.eqb x y
  | _, _ => false
  end.

(** [l.findIndex(p)]; [None] is [-1]. *)
Fixpoint findIndex {A : Type} (p : A -> bool) (l : list A) : option nat :=
  match l with
  | [] => None
  | x :: l' => if p x then Some 0 else option_map S (findIndex p l')
  end.

(** [l.splice(i, 1)] and [l.splice(i, 0, x)] for an index [i >= 0]. *)
Definition splice_out {A : Type} (i : nat) (l : list A) : list A :=
  take i l ++ drop (S i) l.

Definition splice_in {A : Type} (i : nat) (x : A) (l : list A) : list A :=
  take i l ++ x :: drop i l.

(** [const x = l.find(p); if (x) { ... x is mutated ... }] inside [produce]:
    the first match is replaced by what the body makes of it, and the body
    may raise notices. *)
Fixpoint update_first {A : Type} (p : A -> bool) (f : A -> A * list Toast) (l : list A)
  : list A * list Toast :=
  match l with
  | [] => ([], [])
  | x :: l' =>
      if p x then let '(y, t) := f x in (y :: l', t)
      else let '(l'', t) := update_first p f l' in (x :: l'', t)
  end.

(** [if (l[i]) { ... l[i] is mutated ... }] for an array of objects. *)
Fixpoint update_at {A : Type} (i : nat) (f : A -> A * list Toast) (l : list A) {struct l}
  : list A * list Toast :=
  match l, i with
  | [], _ => ([], [])
  | x :: l', O => let '(y, t) := f x in (y :: l', t)
  | x :: l', S i' => let '(l'', t) := update_at i' f l' in (x :: l'', t)
  end.

Definition is_ws_trim (c : ascii) : bool :=
  let n := N_of_ascii c in
  ((9 <=? n) && (n <=? 13) || (n =? 32) || (n =? 160))%N.

Fixpoint trimStart (s : string) : string :=
  match s with
  | String c r => if is_ws_trim c then trimStart r else s
  | EmptyString => s
  end.

Fixpoint rev_string (s acc : string) : string :=
  match s with
  | String c r => rev_string r (String c acc)
  | EmptyString => acc
  end.

(** [s.trim()] *)
Definition trim (s : string) : string :=
  rev_string (trimStart (rev_string (trimStart s) "")) "".

Definition has_group_id (gid : string) (g : AttributeGroup) : bool :=
  String.eqb (group_id g) gid.

Definition has_attr_id (aid : string) (a : AttributeInstance) : bool :=
  String.eqb (attr_id a) aid.

Definition set_attributes (l : list AttributeInstance) (g : AttributeGroup) : AttributeGroup :=
  {| group_id := group_id g; group_title := group_title g; attributes := l |}.

Definition set_children (rows : list (list AttributeItem)) (a : AttributeInstance)
  : AttributeInstance :=
  {| attr_id := attr_id a; attr_title := attr_title a; children := rows |}.

Definition set_value (v : option jsval) (f : AttributeItem) : AttributeItem :=
  {| item_id := item_id f; item_title := item_title f; item_value := v |}.

Definition set_title (t : string) (g : AttributeGroup) : AttributeGroup :=
  {| group_id := group_id g; group_title := t; attributes := attributes g |}.

(** [setGroupSelected(produce(recipe))] *)
Definition produce (recipe : list AttributeGroup -> list AttributeGroup * list Toast)
  (st : State) : State * list Toast :=
  let '(gs, t) := recipe (groupSelected st) in (set_groupSelected gs st, t).

(** The two lookups every row and field handler starts with. *)
Definition in_attribute (gid aid : string)
  (body : AttributeInstance -> AttributeInstance * list Toast)
  (draft : list AttributeGroup) : list AttributeGroup * list Toast :=
  update_first (has_group_id gid)
    (fun group =>
       let '(l, t) := update_first (has_attr_id aid) body (attributes group) in
       (set_attributes l group, t))
    draft.

Definition in_field (gid aid : string) (rowIndex fieldIndex : nat)
  (body : AttributeItem -> AttributeItem * list Toast)
  (draft : list AttributeGroup) : list AttributeGroup * list Toast :=
  in_attribute gid aid
    (fun attribute =>
       let '(rows, t) := update_at rowIndex (update_at fieldIndex body) (children attribute) in
       (set_children rows attribute, t))
    draft.

(** ** Effect 1: parse [data.data]

    [raw] is [data?.data]; [generated] is what [generateId()] returns when
    it is called.  The result is [parsedGroups], as the JavaScript values
    that both [setGroupSelected] and [setSavedGroupData] receive, with the
    toasts raised; there is none for a text that is [outside]. *)
Definition parse_data (raw : option string) (generated : string)
  : option (list jsval * list Toast) :=
  match raw with
  | None => Some ([], [])
  | Some text =>
      if String.eqb text "" then Some ([], [])
      else
        match JSON_parse text with
        | throws => Some ([], [toast_error "Failed to load order attributes."])
        | outside => None
        | read (JArr (first :: rest)) =>
            match opt_prop "attributes" first with
            | Some _ => Some (first :: rest, [])
            | None =>
                Some ([JObj [("id", JStr generated); ("title", JStr "Default Group");
                             ("attributes", JArr (first :: rest))]], [])
            end
        | read _ => Some ([], [])
        end
  end.

(** Effect 1 as a whole: [setGroupSelected(parsedGroups)] and
    [setSavedGroupData(parsedGroups)], the same array for both.  The state
    holds typed records, so there is a state after the effect only when
    [parsedGroups] is, value for value, an array of groups
    ([groups_of_js]); the component does not check this, and of a load
    that stores anything else the model says nothing. *)
Definition effect_parse (raw : option string) (generated : string) (st : State)
  : option (State * list Toast) :=
  match parse_data raw generated with
  | Some (parsedGroups, t) =>
      match groups_of_js parsedGroups with
      | Some gs => Some (set_savedGroupData gs (set_groupSelected gs st), t)
      | None => None
      end
  | None => None
  end.

(** Effect 2: keep [activeGroupId] in step with the groups. *)
Definition sync_active (st : State) : State :=
  match groupSelected st with
  | g :: _ =>
      if falsy (activeGroupId st) then set_activeGroupId (Some (group_id g)) st else st
  | [] =>
      if negb (falsy (activeGroupId st)) then set_activeGroupId None st else st
  end.

(** A handler, then the effects of the render that follows it. *)
Definition settled (h : State -> State * list Toast) (st : State) : State * list Toast :=
  let '(st', t) := h st in (sync_active st', t).

Definition activeGroup (st : State) : option AttributeGroup :=
  match activeGroupId st with
  | Some gid => find (has_group_id gid) (groupSelected st)
  | None => None
  end.

Definition atts (memoriez : list AttributeDefinition) : list AttributeDefinition :=
  List.filter (fun item => match def_mapto item with
                      | Some m => String.eqb m "order"
                      | None => false
                      end) memoriez.

(** Both states are arrays here, so the [Array.isArray] guards of the
    source always take their first branch. *)
Definition hasChanges (st : State) : bool :=
  negb (String.eqb (JSON_stringify (js_of_groups (groupSelected st)))
                   (JSON_stringify (js_of_groups (savedGroupData st)))).

(** ** saveAttributeMeta

    The function runs up to its [await], and resumes when
    [actions.updateRecord] settles; [groupSelected] is the value the closure
    captured when the function was called. *)
Inductive Response : Type :=
| rejected               (* the call throws *)
| resolved (res : jsval).

Inductive SaveCall : Type :=
| save_returns (t : list Toast)
| save_awaits (orderId : jsval) (orderData : string) (captured : list AttributeGroup).

Definition saveAttributeMeta_call (data_id : option jsval) (st : State) : SaveCall :=
  if negb (hasChanges st) then save_returns []
  else
    match data_id with
    | Some orderId =>
        if truthy orderId
        then save_awaits orderId (JSON_stringify (js_of_groups (groupSelected st)))
               (groupSelected st)
        else save_returns [toast_error "Order ID is missing."]
    | None => save_returns [toast_error "Order ID is missing."]
    end.

(** Reading [res.success] of [null] throws inside the [try], which ends in
    the [catch] like a rejected call. *)
Definition saveAttributeMeta_resume (captured : list AttributeGroup) (r : Response)
  (st : State) : State * list Toast :=
  match r with
  | rejected => (st, [toast_error "An error occurred while saving."])
  | resolved JNull => (st, [toast_error "An error occurred while saving."])
  | resolved res =>
      if strict_equals (opt_prop "success" res) (Some (JStr "success"))
      then (set_savedGroupData captured st, [toast_success "Order attributes updated successfully"])
      else (st, [toast_error "Failed to update order attributes."])
  end.

(** A save with nothing happening between the call and its answer. *)
Definition saveAttributeMeta (data_id : option jsval) (r : Response) (st : State)
  : State * list Toast :=
  match saveAttributeMeta_call data_id st with
  | save_returns t => (st, t)
  | save_awaits _ _ captured => saveAttributeMeta_resume captured r st
  end.

(** ** The edit handlers *)

Definition handleAddGroup (generated groupName : string) (st : State) : State * list Toast :=
  if String.eqb (trim groupName) "" then (st, [toast_error "Group name cannot be empty."])
  else
    let newGroup := {| group_id := generated; group_title := trim groupName; attributes := [] |} in
    let '(st', t) := produce (fun draft => (draft ++ [newGroup], [])) st in
    (set_activeGroupId (Some (group_id newGroup)) st', t).

Definition handleSelectAttributeForGroup (attributeDefinition : AttributeDefinition)
  (st : State) : State * list Toast :=
  if falsy (activeGroupId st) then (st, [])
  else
    let gid := default "" (activeGroupId st) in
    let newAttributeInstance :=
      {| attr_title := def_title attributeDefinition;
         attr_id := def_id attributeDefinition;
         children := [] |} in
    produce
      (update_first (has_group_id gid)
         (fun group =>
            if negb (existsb (has_attr_id (attr_id newAttributeInstance)) (attributes group))
            then (set_attributes (attributes group ++ [newAttributeInstance]) group, [])
            else (group,
                  [toast_info ("Attribute " ++ String dquote (attr_title newAttributeInstance
                     ++ String dquote " already added to this group."))])))
      st.

Definition newRow (fields : list FieldDefinition) : list AttributeItem :=
  map (fun child =>
         {| item_id := field_id child;
            item_title := field_title child;
            item_value := Some (if String.eqb (field_type child) "checkbox"
                                then JArr [] else JStr "") |})
      fields.

Definition handleAddAttributeRow (atts : list AttributeDefinition) (attributeId : string)
  (st : State) : State * list Toast :=
  if falsy (activeGroupId st) then (st, [])
  else
    let gid := default "" (activeGroupId st) in
    match find (fun att => String.eqb (def_id att) attributeId) atts with
    | Some {| def_children := Some fields |} =>
        produce
          (in_attribute gid attributeId
             (fun attribute =>
                (set_children (children attribute ++ [newRow fields]) attribute, [])))
          st
    | _ => (st, [toast_error "Attribute definition not found or has no fields."])
    end.

(** [JSON.parse(JSON.stringify(row))], read back as a row; [None] stands for
    an exception, which [produce] answers by dropping the draft.  The text
    of a row of well-formed values is always read to the row itself. *)
Definition deep_copy (row : list AttributeItem) : option (list AttributeItem) :=
  match JSON_parse (JSON_stringify (js_of_row row)) with
  | read v => row_of_js v
  | _ => None
  end.

Definition handleDuplicateAttributeRow (attributeId : string) (rowIndex : nat)
  (st : State) : State * list Toast :=
  if falsy (activeGroupId st) then (st, [])
  else
    let gid := default "" (activeGroupId st) in
    produce
      (in_attribute gid attributeId
         (fun attribute =>
            match children attribute !! rowIndex with
            | Some row =>
                match deep_copy row with
                | Some rowToDuplicate =>
                    (set_children (splice_in (rowIndex + 1) rowToDuplicate (children attribute))
                       attribute, [])
                | None => (attribute, [])
                end
            | None => (attribute, [])
            end))
      st.

Definition handleDeleteAttributeRow (confirmed : bool) (attributeId : string) (rowIndex : nat)
  (st : State) : State * list Toast :=
  if falsy (activeGroupId st) then (st, [])
  else if negb confirmed then (st, [])
  else
    let gid := default "" (activeGroupId st) in
    produce
      (in_attribute gid attributeId
         (fun attribute => (set_children (splice_out rowIndex (children attribute)) attribute, [])))
      st.

Definition handleDeleteAttributeInstance (confirmed : bool) (attributeId : string)
  (st : State) : State * list Toast :=
  if falsy (activeGroupId st) then (st, [])
  else if negb confirmed then (st, [])
  else
    let gid := default "" (activeGroupId st) in
    produce
      (update_first (has_group_id gid)
         (fun group =>
            (set_attributes
               (List.filter (fun attr => negb (has_attr_id attributeId attr)) (attributes group))
               group, [])))
      st.

Definition handleUpdateFieldValue (attributeId : string) (rowIndex fieldIndex : nat)
  (newValue : option jsval) (st : State) : State * list Toast :=
  if falsy (activeGroupId st) then (st, [])
  else
    let gid := default "" (activeGroupId st) in
    produce
      (in_field gid attributeId rowIndex fieldIndex (fun field => (set_value newValue field, [])))
      st.

(** The body of [handleUpdateCheckboxValue] on the field it has found. *)
Definition update_checkbox (selectedMetaItem : jsval) (add : bool) (field : AttributeItem)
  : AttributeItem * list Toast :=
  let value :=
    match item_value field with
    | Some (JArr vs) => vs
    | _ => []             (* Initialize if not an array *)
    end in
  let existingIndex :=
    findIndex (fun v => strict_equals (opt_prop "id" v) (opt_prop "id" selectedMetaItem)) value in
  if add then
    match existingIndex with
    | None => (set_value (Some (JArr (value ++ [selectedMetaItem]))) field, [])
    | Some _ => (set_value (Some (JArr value)) field, [toast_error "Already selected."])
    end
  else
    match existingIndex with
    | Some i => (set_value (Some (JArr (splice_out i value))) field, [])
    | None => (set_value (Some (JArr value)) field, [toast_error "Item not found to remove."])
    end.

Definition handleUpdateCheckboxValue (attributeId : string) (rowIndex fieldIndex : nat)
  (selectedMetaItem : jsval) (add : bool) (st : State) : State * list Toast :=
  if falsy (activeGroupId st) then (st, [])
  else
    let gid := default "" (activeGroupId st) in
    produce
      (in_field gid attributeId rowIndex fieldIndex (update_checkbox selectedMetaItem add))
      st.

Definition handleDeleteCheckboxSingleValue (confirmed : bool) (attributeId : string)
  (rowIndex fieldIndex : nat) (valueToRemove : jsval) (st : State) : State * list Toast :=
  if falsy (activeGroupId st) then (st, [])
  else if negb confirmed then (st, [])
  else handleUpdateCheckboxValue attributeId rowIndex fieldIndex valueToRemove false st.

Definition handleDeleteGroup (confirmed : bool) (groupId : string) (st : State)
  : State * list Toast :=
  if negb confirmed then (st, [])
  else
    let '(st', t) :=
      produce
        (fun draft =>
           match findIndex (has_group_id groupId) draft with
           | Some index => (splice_out index draft, [])
           | None => (draft, [])
           end)
        st in
    (* Active first group if available: [groupSelected] is the array of the
       render the handler was created in. *)
    match groupSelected st with
    | g :: _ => (set_activeGroupId (Some (group_id g)) st', t)
    | [] => (st', t)
    end.

(** The double-click handler of a tab: [prompt], then the rename. *)
Definition renameGroup (groupId : string) (newName : option string) (st : State)
  : State * list Toast :=
  if falsy newName then (st, [])
  else
    produce
      (update_first (has_group_id groupId)
         (fun g => (set_title (trim (default "" newName)) g, [])))
      st.

(** ** Well-formed values

    A number is a safe integer.  A list of properties is the property list
    of an object when defining its members one after the other gives the
    list back: no key twice, array-index keys first and ascending. *)
Fixpoint well_formed (v : jsval) : Prop :=
  match v with
  | JNum n => safe_integer n = true
  | JArr vs =>
      (fix all (vs : list jsval) : Prop :=
         match vs with
         | [] => True
         | v :: vs' => well_formed v /\ all vs'
         end) vs
  | JObj ps =>
      own_properties ps = ps /\
      (fix all (ps : list (string * jsval)) : Prop :=
         match ps with
         | [] => True
         | (_, v) :: ps' => well_formed v /\ all ps'
         end) ps
  | _ => True
  end.

Definition well_formed_item (f : AttributeItem) : Prop :=
  match item_value f with
  | Some v => well_formed v
  | None => True
  end.

Definition well_formed_group (g : AttributeGroup) : Prop :=
  Forall (fun a => Forall (Forall well_formed_item) (children a)) (attributes g).

(** Every [any]-typed slot of the document holds a well-formed value. *)
Definition well_formed_doc (d : list AttributeGroup) : Prop :=
  Forall well_formed_group d.

(** ** The handlers as events

    One constructor per user action that reaches the document or the active
    tab; [run] is the handler followed by the effects of the next render. *)
Inductive Op : Type :=
| createGroup (generated groupName : string)
| renameGroupTo (groupId : string) (newName : option string)
| deleteGroup (confirmed : bool) (groupId : string)
| activateGroup (groupId : string)                       (* onValueChange of the tabs *)
| selectAttributeForGroup (attributeDefinition : AttributeDefinition)
| addRow (attributeId : string)
| duplicateRow (attributeId : string) (rowIndex : nat)
| deleteRow (confirmed : bool) (attributeId : string) (rowIndex : nat)
| deleteAttributeInstance (confirmed : bool) (attributeId : string)
| setFieldValue (attributeId : string) (rowIndex fieldIndex : nat) (value : option jsval)
| addCheckboxValue (attributeId : string) (rowIndex fieldIndex : nat) (item : jsval)
| removeCheckboxValue (confirmed : bool) (attributeId : string) (rowIndex fieldIndex : nat)
    (item : jsval).

Definition handler (memoriez : list AttributeDefinition) (op : Op)
  : State -> State * list Toast :=
  match op with
  | createGroup generated groupName => handleAddGroup generated groupName
  | renameGroupTo groupId newName => renameGroup groupId newName
  | deleteGroup confirmed groupId => handleDeleteGroup confirmed groupId
  | activateGroup groupId => fun st => (set_activeGroupId (Some groupId) st, [])
  | selectAttributeForGroup def => handleSelectAttributeForGroup def
  | addRow attributeId => handleAddAttributeRow (atts memoriez) attributeId
  | duplicateRow attributeId rowIndex => handleDuplicateAttributeRow attributeId rowIndex
  | deleteRow confirmed attributeId rowIndex =>
      handleDeleteAttributeRow confirmed attributeId rowIndex
  | deleteAttributeInstance confirmed attributeId =>
      handleDeleteAttributeInstance confirmed attributeId
  | setFieldValue attributeId rowIndex fieldIndex value =>
      handleUpdateFieldValue attributeId rowIndex fieldIndex value
  | addCheckboxValue attributeId rowIndex fieldIndex item =>
      handleUpdateCheckboxValue attributeId rowIndex fieldIndex item true
  | removeCheckboxValue confirmed attributeId rowIndex fieldIndex item =>
      handleDeleteCheckboxSingleValue confirmed attributeId rowIndex fieldIndex item
  end.

Definition run (memoriez : list AttributeDefinition) (op : Op) (st : State)
  : State * list Toast :=
  settled (handler memoriez op) st.

(** ** What the properties observe *)

Definition attribute_at (gid aid : string) (d : list AttributeGroup)
  : option AttributeInstance :=
  match find (has_group_id gid) d with
  | Some group => find (has_attr_id aid) (attributes group)
  | None => None
  end.

Definition rows_at (gid aid : string) (d : list AttributeGroup)
  : option (list (list AttributeItem)) :=
  option_map children (attribute_at gid aid d).

Definition row_at (gid aid : string) (rowIndex : nat) (d : list AttributeGroup)
  : option (list AttributeItem) :=
  match rows_at gid aid d with
  | Some rows => rows !! rowIndex
  | None => None
  end.

Definition field_at (gid aid : string) (rowIndex fieldIndex : nat) (d : list AttributeGroup)
  : option AttributeItem :=
  match row_at gid aid rowIndex d with
  | Some row => row !! fieldIndex
  | None => None
  end.

(** [v?.id === w?.id], the test of [handleUpdateCheckboxValue]. *)
Definition same_id (v w : jsval) : bool :=
  strict_equals (opt_prop "id" v) (opt_prop "id" w).

(** No two entries of the array have the same id. *)
Fixpoint distinct_ids (vs : list jsval) : Prop :=
  match vs with
  | [] => True
  | v :: vs' => Forall (fun w => same_id v w = false) vs' /\ distinct_ids vs'
  end.

Definition duplicate_free (value : option jsval) : Prop :=
  match value with
  | Some (JArr vs) => distinct_ids vs
  | _ => True
  end.

Definition checkbox_unique (f : AttributeItem) : Prop := duplicate_free (item_value f).

Definition all_fields (P : AttributeItem -> Prop) (d : list AttributeGroup) : Prop :=
  Forall (fun g => Forall (fun a => Forall (Forall P) (children a)) (attributes g)) d.


(** The document invariant behind the checkbox arrays: every stored value
    is a well-formed value, and no array value holds two entries with the
    same id. *)
Definition checkbox_invariant (d : list AttributeGroup) : Prop :=
  all_fields (fun f => well_formed_item f /\ checkbox_unique f) d.

(** What an operation is handed: well-formed values, and for
    [setFieldValue] no array with two entries of the same id.  The
    component hands it a string or a single object ([op_of_event]). *)
Definition admissible (op : Op) : Prop :=
  match op with
  | setFieldValue _ _ _ value =>
      match value with Some v => well_formed v | None => True end /\ duplicate_free value
  | addCheckboxValue _ _ _ item => well_formed item
  | _ => True
  end.

(** An entry for a checkbox array. *)
Definition red_entry : jsval :=
  JObj [("id", JNum 1); ("title", JStr "color"); ("value", JStr "red")].

(** [v] has an own property [k]. *)
Definition has_key (k : string) (v : jsval) : Prop :=
  exists ps, v = JObj ps /\ In k (map fst ps).

(** The save did not succeed: the call threw, or [res.success] is not
    ["success"]. *)
Definition save_failed (r : Response) : Prop :=
  match r with
  | rejected => True
  | resolved res => strict_equals (opt_prop "success" res) (Some (JStr "success")) = false
  end.

(** ** Sample data *)

Definition sample_item : AttributeItem :=
  {| item_id := "f1"; item_title := "Size"; item_value := Some (JStr "XL") |}.

Definition sample_group : AttributeGroup :=
  {| group_id := "g1"; group_title := "Shipping";
     attributes := [ {| attr_id := "7"; attr_title := "Box"; children := [[sample_item]] |} ] |}.

Definition sample_dirty : State :=
  {| groupSelected := [sample_group]; activeGroupId := Some "g1"; savedGroupData := [] |}.

Definition other_group : AttributeGroup :=
  {| group_id := "g2"; group_title := "Billing"; attributes := [] |}.

(** Two groups, the first of them active, nothing edited since the load. *)
Definition two_groups : State :=
  {| groupSelected := [sample_group; other_group]; activeGroupId := Some "g1";
     savedGroupData := [sample_group; other_group] |}.

(** Fuel that [parse_value] needs to read a value back. *)
Fixpoint need (v : jsval) : nat :=
  match v with
  | JArr vs =>
      S ((fix sum (vs : list jsval) : nat :=
            match vs with
            | [] => 0
            | v :: vs' => S (need v + sum vs')
            end) vs)
  | JObj ps =>
      S ((fix sum (ps : list (string * jsval)) : nat :=
            match ps with
            | [] => 0
            | (_, v) :: ps' => S (need v + sum ps')
            end) ps)
  | _ => 1
  end.

Fixpoint need_elems (vs : list jsval) : nat :=
  match vs with
  | [] => 0
  | v :: vs' => S (need v + need_elems vs')
  end.

Fixpoint need_members (ps : list (string * jsval)) : nat :=
  match ps with
  | [] => 0
  | (_, v) :: ps' => S (need v + need_members ps')
  end.

(** What may follow a value in a JSON text: nothing, or one of [,], []] and
    [}]. *)
Definition delimited (k : string) : bool :=
  match k with
  | EmptyString => true
  | String c _ => Ascii.eqb c "," || Ascii.eqb c "]" || Ascii.eqb c "}"
  end.

Definition is_digit (c : ascii) : bool :=
  ((48 <=? N_of_ascii c) && (N_of_ascii c <=? 57))%N.

(** The first character of a value's text. *)
Definition value_start (c : ascii) : bool :=
  Ascii.eqb c "[" || Ascii.eqb c "{" || Ascii.eqb c dquote || Ascii.eqb c "n"
  || Ascii.eqb c "t" || Ascii.eqb c "f" || Ascii.eqb c "-" || is_digit c.

(** [v] is read back from its text, whatever follows. *)
Definition reads_back (v : jsval) : Prop :=
  well_formed v ->
  forall fuel k, need v <= fuel -> delimited k = true ->
    parse_value fuel (write_value v k) = read (v, k).

(** The text of [v] is long enough to serve as the fuel that reads it. *)
Definition fits (v : jsval) : Prop :=
  forall k, need v + String.length k <= String.length (write_value v k).

(** The array [handleUpdateCheckboxValue] works on. *)
Definition checkbox_array (f : AttributeItem) : list jsval :=
  match item_value f with
  | Some (JArr vs) => vs
  | _ => []
  end.

(** A template the sample group already has an instance of. *)
Definition box_template : AttributeDefinition :=
  {| def_id := "7"; def_title := "Box"; def_mapto := Some "order";
     def_children := Some [ {| field_id := "f1"; field_title := "Size"; field_type := "text" |} ] |}.

(** The scenario of the empty document: a group is created, a template is
    selected for it, a row is added, its first field is set, and the
    document is saved; an added row makes it dirty again. *)
Definition scenario : list Op :=
  [createGroup "group_1" "  Shipping ";
   selectAttributeForGroup box_template;
   addRow "7";
   setFieldValue "7" 0 0 (Some (JStr "XL"))].

Definition run_all (memoriez : list AttributeDefinition) (ops : list Op) (st : State) : State :=
  fold_left (fun st op => fst (run memoriez op st)) ops st.

Definition empty_state : State :=
  {| groupSelected := []; activeGroupId := None; savedGroupData := [] |}.

(** ** The rest of the component *)

(** [availableAttsForActiveGroup]: the order templates no instance of the
    active group was made from. *)
Definition availableAttsForActiveGroup (memoriez : list AttributeDefinition) (st : State)
  : list AttributeDefinition :=
  match activeGroup st with
  | None => []
  | Some group =>
      let selectedIds := map attr_id (attributes group) in
      List.filter (fun att => negb (existsb (String.eqb (def_id att)) selectedIds))
        (atts memoriez)
  end.

(** The search dialog: the list it shows and its loading flag. *)
Record SearchState : Type := {
  search : jsval;
  loading : bool
}.

(** [searchAttributeMeta] up to its [await]: [setLoading(true)] and
    [setSearch([])]. *)
Definition searchAttributeMeta_call : SearchState :=
  {| search := JArr []; loading := true |}.

(** [res.data || []] *)
Definition data_or_empty (res : jsval) : jsval :=
  match opt_prop "data" res with
  | Some data => if truthy data then data else JArr []
  | None => JArr []
  end.

(** [searchAttributeMeta] from the answer of [actions.searchAttributeMeta]
    on; the [finally] clause ends every path.  The state before does not
    enter: every path sets both the list and the flag. *)
Definition searchAttributeMeta_resume (r : Response) : SearchState * list Toast :=
  match r with
  | rejected =>
      ({| search := JArr []; loading := false |},
       [toast_error "An error occurred during search."])
  | resolved JNull =>
      ({| search := JArr []; loading := false |},
       [toast_error "An error occurred during search."])
  | resolved res =>
      if strict_equals (opt_prop "success" res) (Some (JStr "success"))
      then ({| search := data_or_empty res; loading := false |}, [])
      else ({| search := JArr []; loading := false |},
            [toast_error "Failed to search attribute values."])
  end.

(** What the dialog was opened with ([open[1]]), as far as [onSelect] reads
    it. *)
Record SearchTarget : Type := {
  target_attributeId : string;
  target_rowIndex : nat;
  target_fieldIndex : nat;
  target_fieldType : string
}.

(** A property of an object literal; one whose value is [undefined] is
    left out, as it reads the same and is not serialized. *)
Definition literal_property (k : string) (v : option jsval) : list (string * jsval) :=
  match v with
  | Some x => [(k, x)]
  | None => []
  end.

(** [{ id: item?.id, title: item?.key, value: item?.value }] *)
Definition selectedMetaItem (item : jsval) : jsval :=
  JObj (literal_property "id" (opt_prop "id" item)
          ++ literal_property "title" (opt_prop "key" item)
          ++ literal_property "value" (opt_prop "value" item)).

(** [onSelect] of a search result. *)
Definition onSelect (target : SearchTarget) (item : jsval) (st : State) : State * list Toast :=
  if String.eqb (target_fieldType target) "checkbox"
  then handleUpdateCheckboxValue (target_attributeId target) (target_rowIndex target)
         (target_fieldIndex target) (selectedMetaItem item) true st
  else handleUpdateFieldValue (target_attributeId target) (target_rowIndex target)
         (target_fieldIndex target) (Some (selectedMetaItem item)) st.

(** [fieldDefinition?.type ?? "text"] for the field at [fieldIndex] of the
    instance [attributeId], as the row renders it. *)
Definition fieldType (memoriez : list AttributeDefinition) (attributeId : string)
  (fieldIndex : nat) : string :=
  match find (fun att => String.eqb (def_id att) attributeId) (atts memoriez) with
  | Some {| def_children := Some fields |} =>
      match fields !! fieldIndex with
      | Some fieldDefinition => field_type fieldDefinition
      | None => "text"
      end
  | _ => "text"
  end.

(** What the user can do to the document through the rendered component:
    each constructor is one [onClick], [onChange], [onSelect] or
    [onDoubleClick] of the JSX, with the answers of the dialogs it opens. *)
Inductive UiEvent : Type :=
| clickCreateGroup (generated groupName : string)
| doubleClickTab (groupId : string) (answer : option string)
| clickDeleteGroup (confirmed : bool) (groupId : string)
| clickTab (groupId : string)
| clickAddAttribute (item : AttributeDefinition)
| clickAddRow (attributeId : string)
| clickDuplicateRow (attributeId : string) (rowIndex : nat)
| clickDeleteRow (confirmed : bool) (attributeId : string) (rowIndex : nat)
| clickDeleteInstance (confirmed : bool) (attributeId : string)
| changeText (attributeId : string) (rowIndex fieldIndex : nat) (text : string)
| selectResult (target : SearchTarget) (item : jsval)
| clickRemoveValue (confirmed : bool) (attributeId : string) (rowIndex fieldIndex : nat)
    (v : jsval).

Definition op_of_event (e : UiEvent) : Op :=
  match e with
  | clickCreateGroup generated groupName => createGroup generated groupName
  | doubleClickTab groupId answer => renameGroupTo groupId answer
  | clickDeleteGroup confirmed groupId => deleteGroup confirmed groupId
  | clickTab groupId => activateGroup groupId
  | clickAddAttribute item => selectAttributeForGroup item
  | clickAddRow attributeId => addRow attributeId
  | clickDuplicateRow attributeId rowIndex => duplicateRow attributeId rowIndex
  | clickDeleteRow confirmed attributeId rowIndex => deleteRow confirmed attributeId rowIndex
  | clickDeleteInstance confirmed attributeId => deleteAttributeInstance confirmed attributeId
  | changeText attributeId rowIndex fieldIndex text =>
      setFieldValue attributeId rowIndex fieldIndex (Some (JStr text))
  | selectResult target item =>
      if String.eqb (target_fieldType target) "checkbox"
      then addCheckboxValue (target_attributeId target) (target_rowIndex target)
             (target_fieldIndex target) (selectedMetaItem item)
      else setFieldValue (target_attributeId target) (target_rowIndex target)
             (target_fieldIndex target) (Some (selectedMetaItem item))
  | clickRemoveValue confirmed attributeId rowIndex fieldIndex v =>
      removeCheckboxValue confirmed attributeId rowIndex fieldIndex v
  end.

(** The search results and checkbox entries an event carries are values. *)
Definition event_values_well_formed (e : UiEvent) : Prop :=
  match e with
  | selectResult _ item => well_formed item
  | _ => True
  end.

(** A string of whitespace only, in the sense of [trim]. *)
Fixpoint blank (s : string) : bool :=
  match s with
  | EmptyString => true
  | String c r => is_ws_trim c && blank r
  end.

(** The id and title of a field, which no edit of its value touches. *)
Definition field_label (f : AttributeItem) : string * string := (item_id f, item_title f).

Definition definition_label (d : FieldDefinition) : string * string :=
  (field_id d, field_title d).

(** A row is aligned with the template of its instance when it has one
    field per field definition, with that definition's id and title, in
    order; an instance whose template cannot be resolved constrains
    nothing. *)
Definition row_aligned (memoriez : list AttributeDefinition) (attributeId : string)
  (row : list AttributeItem) : Prop :=
  match find (fun att => String.eqb (def_id att) attributeId) (atts memoriez) with
  | Some {| def_children := Some fields |} =>
      map field_label row = map definition_label fields
  | _ => True
  end.

Definition aligned (memoriez : list AttributeDefinition) (d : list AttributeGroup) : Prop :=
  Forall (fun g => Forall (fun a => Forall (row_aligned memoriez (attr_id a)) (children a))
                     (attributes g)) d.

(** The row/field handlers: those that start from [activeGroupId] and,
    apart from [handleAddAttributeRow], raise nothing when it names no
    group. *)
Definition edits_active_group (op : Op) : bool :=
  match op with
  | createGroup _ _ | renameGroupTo _ _ | deleteGroup _ _ | activateGroup _ => false
  | _ => true
  end.

Definition user_template : AttributeDefinition :=
  {| def_id := "7"; def_title := "Box"; def_mapto := Some "user";
     def_children := Some [] |}.

Definition blue_entry : jsval :=
  JObj [("id", JNum 2); ("title", JStr "color"); ("value", JStr "blue")].

(** The sample document with two checkbox entries in its field. *)
Definition two_entries : State :=
  fst (handleUpdateFieldValue "7" 0 0 (Some (JArr [red_entry; blue_entry])) two_groups).

Definition green_entry : jsval :=
  JObj [("id", JNum 3); ("title", JStr "color"); ("value", JStr "green")].

(** The active id names a group whenever there is one, and is falsy when
    there is none. *)
Definition active_names_group (st : State) : Prop :=
  match groupSelected st with
  | [] => falsy (activeGroupId st) = true
  | _ :: _ =>
      exists gid, activeGroupId st = Some gid /\ gid <> ""
                  /\ In gid (map group_id (groupSelected st))
  end.

(** The operations under which it stays so: every one but an accepted
    group deletion, with a generated id that is not empty and a tab that
    exists. *)
Definition keeps_tab (op : Op) (st : State) : Prop :=
  match op with
  | createGroup generated _ => generated <> ""
  | activateGroup groupId =>
      groupId <> "" /\ In groupId (map group_id (groupSelected st))
  | deleteGroup confirmed _ => confirmed = false
  | _ => True
  end.

(** The state the deletion of the first group leaves when it was active. *)
Definition stale_state : State := fst (run [] (deleteGroup true "g1") two_groups).

Definition color_result : jsval :=
  JObj [("id", JNum 1); ("key", JStr "color"); ("value", JStr "red");
        ("attributeId", JNum 7)].

Definition checkbox_target : SearchTarget :=
  {| target_attributeId := "7"; target_rowIndex := 0; target_fieldIndex := 0;
     target_fieldType := "checkbox" |}.

Definition lid_template : AttributeDefinition :=
  {| def_id := "8"; def_title := "Lid"; def_mapto := Some "order";
     def_children := Some [ {| field_id := "c1"; field_title := "Colors";
                               field_type := "checkbox" |} ] |}.

(** The recipe of [handleDuplicateAttributeRow] with the row itself in
    place of its copy. *)
Definition duplicate_in_place (i : nat) (attribute : AttributeInstance)
  : AttributeInstance * list Toast :=
  match children attribute !! i with
  | Some row => (set_children (splice_in (i + 1) row (children attribute)) attribute, [])
  | None => (attribute, [])
  end.

Definition found_colors : jsval :=
  JObj [("success", JStr "success"); ("data", JArr [color_result])].

(** ** Induction on values *)

Section jsval_induction.
Variable P : jsval -> Prop.
Hypothesis Hnull : P JNull.
Hypothesis Hbool : forall b, P (JBool b).
Hypothesis Hnum : forall n, P (JNum n).
Hypothesis Hstr : forall s, P (JStr s).
Hypothesis Harr : forall vs, Forall P vs -> P (JArr vs).
Hypothesis Hobj : forall ps, Forall (fun kv => P (snd kv)) ps -> P (JObj ps).

Fixpoint jsval_ind (v : jsval) : P v :=
  match v with
  | JNull => Hnull
  | JBool b => Hbool b
  | JNum n => Hnum n
  | JStr s => Hstr s
  | JArr vs =>
      Harr vs ((fix go (vs : list jsval) : Forall P vs :=
                  match vs with
                  | [] => @List.Forall_nil _ P
                  | v :: vs' => @List.Forall_cons _ P v vs' (jsval_ind v) (go vs')
                  end) vs)
  | JObj ps =>
      Hobj ps ((fix go (ps : list (string * jsval)) : Forall (fun kv => P (snd kv)) ps :=
                  match ps with
                  | [] => @List.Forall_nil _ _
                  | kv :: ps' => @List.Forall_cons _ _ kv ps' (jsval_ind (snd kv)) (go ps')
                  end) ps)
  end.
End jsval_induction.

(** * Properties *)

(** ** The writers *)

Lemma write_value_arr vs k : write_value (JArr vs) k = String "[" (write_elems true vs k).
Proof.
  cbn [write_value]. f_equal.
  match goal with
  | |- ?f true vs = _ =>
      enough (H : forall first, f first vs = write_elems first vs k) by apply H
  end.
  induction vs as [|v vs IH]; intros first; cbn [write_elems]; [reflexivity|].
  now rewrite IH.
Qed.

Lemma write_value_obj ps k : write_value (JObj ps) k = String "{" (write_members true ps k).
Proof.
  cbn [write_value]. f_equal.
  match goal with
  | |- ?f true ps = _ =>
      enough (H : forall first, f first ps = write_members first ps k) by apply H
  end.
  induction ps as [|[key v] ps IH]; intros first; cbn [write_members]; [reflexivity|].
  now rewrite IH.
Qed.

Lemma need_arr vs : need (JArr vs) = S (need_elems vs).
Proof.
  reflexivity.
Qed.

Lemma need_obj ps : need (JObj ps) = S (need_members ps).
Proof.
  reflexivity.
Qed.

Lemma well_formed_arr vs : well_formed (JArr vs) <-> Forall well_formed vs.
Proof.
  cbn [well_formed]. induction vs as [|v vs IH].
  - split; [constructor | trivial].
  - rewrite Forall_cons_iff, <- IH. reflexivity.
Qed.

Lemma well_formed_obj ps :
  well_formed (JObj ps) <->
  own_properties ps = ps /\ Forall (fun kv => well_formed (snd kv)) ps.
Proof.
  cbn [well_formed]. apply and_iff_compat_l.
  induction ps as [|[key v] ps IH].
  - split; [constructor | trivial].
  - rewrite Forall_cons_iff, <- IH. reflexivity.
Qed.

(** ** Numbers *)

Lemma read_uint_write u k :
  read_uint k = (Decimal.Nil, k) -> read_uint (write_uint u k) = (u, k).
Proof.
  intros Hk. induction u; cbn [write_uint]; [exact Hk | ..];
    cbn [read_uint]; rewrite IHu; reflexivity.
Qed.

Lemma read_uint_delimited k : delimited k = true -> read_uint k = (Decimal.Nil, k).
Proof.
  destruct k as [|c k]; [reflexivity|]. cbn [delimited]. intros H.
  apply orb_true_iff in H as [H|H]; [apply orb_true_iff in H as [H|H]|];
    apply Ascii.eqb_eq in H; subst c; reflexivity.
Qed.

Lemma frac_or_exp_delimited k : delimited k = true -> frac_or_exp k = false.
Proof.
  destruct k as [|c k]; [reflexivity|]. cbn [delimited]. intros H.
  apply orb_true_iff in H as [H|H]; [apply orb_true_iff in H as [H|H]|];
    apply Ascii.eqb_eq in H; subst c; reflexivity.
Qed.

Lemma nzhead_canonical d : Decimal.nzhead d = Decimal.Nil \/ canonical_uint (Decimal.nzhead d) = true.
Proof.
  induction d; cbn; auto.
Qed.

Lemma canonical_unorm d : canonical_uint (Decimal.unorm d) = true.
Proof.
  unfold Decimal.unorm. destruct (nzhead_canonical d) as [H|H].
  - rewrite H. reflexivity.
  - destruct (Decimal.nzhead d); try discriminate; exact H.
Qed.

Lemma canonical_to_uint p : canonical_uint (Pos.to_uint p) = true.
Proof.
  change (Pos.to_uint p) with (N.to_uint (Npos p)).
  rewrite <- (DecimalN.Unsigned.of_to (Npos p)) at 1.
  rewrite DecimalN.Unsigned.to_of. apply canonical_unorm.
Qed.

Lemma parse_digits_write p k :
  (Npos p <=? max_safe_integer)%N = true ->
  delimited k = true ->
  parse_digits (write_uint (Pos.to_uint p) k) = read (Npos p, k).
Proof.
  intros Hp Hk. unfold parse_digits.
  rewrite (read_uint_write _ _ (read_uint_delimited _ Hk)).
  rewrite canonical_to_uint, (frac_or_exp_delimited _ Hk).
  change (Pos.to_uint p) with (N.to_uint (Npos p)).
  now rewrite DecimalN.Unsigned.of_to, Hp.
Qed.

Lemma write_uint_start u k :
  canonical_uint u = true ->
  exists c r, write_uint u k = String c r /\ is_digit c = true.
Proof.
  destruct u; cbn [write_uint]; try discriminate; intros _; eauto.
Qed.

Lemma digit_not_minus c : is_digit c = true -> Ascii.eqb c "-" = false.
Proof.
  destruct c as [[] [] [] [] [] [] [] []]; (discriminate || reflexivity).
Qed.

Lemma parse_number_write n k :
  safe_integer n = true ->
  delimited k = true -> parse_number (write_number n k) = read (JNum n, k).
Proof.
  intros Hn Hk. unfold safe_integer in Hn.
  destruct n as [|p|p]; cbn [write_number Z.abs_N] in *.
  - cbn [parse_number]. change (Ascii.eqb "0" "-") with false. cbv iota.
    unfold parse_digits. cbn [read_uint]. change (Ascii.eqb "0" "0") with true. cbv iota beta.
    rewrite (read_uint_delimited _ Hk). cbn [canonical_uint].
    rewrite (frac_or_exp_delimited _ Hk). reflexivity.
  - destruct (write_uint_start (Pos.to_uint p) k (canonical_to_uint p)) as (c & r & E & Hc).
    pose proof (parse_digits_write p k Hn Hk) as Hd. rewrite E in *.
    cbn [parse_number]. rewrite (digit_not_minus _ Hc), Hd. reflexivity.
  - cbn [parse_number]. change (Ascii.eqb "-" "-") with true. cbv iota.
    rewrite (parse_digits_write p k Hn Hk). reflexivity.
Qed.

(** ** Strings *)

Lemma parse_chars_write s k :
  parse_chars (write_chars s (String dquote k)) = read (s, k).
Proof.
  induction s as [|c s IH]; [reflexivity|].
  cbn [write_chars]. revert IH. generalize (write_chars s (String dquote k)). intros x IH.
  destruct c as [[] [] [] [] [] [] [] []];
    cbv [quote_char N_of_ascii N_of_digits N.eqb N.ltb N.compare Pos.eqb Pos.compare Pos.compare_cont N.add N.mul Pos.add Pos.mul N.div N.modulo hex_digit ascii_of_N ascii_of_pos];
    cbn; rewrite IH; reflexivity.
Qed.

Lemma value_start_facts c :
  value_start c = true ->
  is_ws c = false /\ Ascii.eqb c "]" = false /\ Ascii.eqb c "}" = false.
Proof.
  destruct c as [[] [] [] [] [] [] [] []]; (discriminate || (intros _; repeat split)).
Qed.

Lemma digit_value_start c : is_digit c = true -> value_start c = true.
Proof.
  unfold value_start. intros ->. now rewrite !orb_true_r.
Qed.

Lemma write_number_start n k :
  exists c r, write_number n k = String c r /\
              (is_digit c = true \/ c = "-"%char).
Proof.
  destruct n as [|p|p]; cbn [write_number].
  - exists "0"%char, k. split; [reflexivity | now left].
  - destruct (write_uint_start (Pos.to_uint p) k (canonical_to_uint p)) as (c & r & E & Hc).
    exists c, r. auto.
  - eexists _, _. split; [reflexivity | now right].
Qed.

Lemma write_value_start v k :
  exists c r, write_value v k = String c r /\ value_start c = true.
Proof.
  destruct v as [| [] | n | s | vs | ps].
  - eexists _, _; split; reflexivity.
  - eexists _, _; split; reflexivity.
  - eexists _, _; split; reflexivity.
  - destruct (write_number_start n k) as (c & r & E & [H| ->]).
    + exists c, r. split; [exact E | now apply digit_value_start].
    + eexists _, r. split; [exact E | reflexivity].
  - eexists _, _; split; reflexivity.
  - rewrite write_value_arr. eexists _, _; split; reflexivity.
  - rewrite write_value_obj. eexists _, _; split; reflexivity.
Qed.

Lemma parse_value_number fuel c r :
  is_digit c = true \/ c = "-"%char ->
  parse_value (S fuel) (String c r) = parse_number (String c r).
Proof.
  intros [H| ->]; [|reflexivity].
  destruct c as [[] [] [] [] [] [] [] []]; (discriminate || reflexivity).
Qed.

Lemma delimited_elems vs k : delimited (write_elems false vs k) = true.
Proof. destruct vs; reflexivity. Qed.

Lemma delimited_members ps k : delimited (write_members false ps k) = true.
Proof. destruct ps as [|[] ?]; reflexivity. Qed.

Lemma skip_ws_start c r : is_ws c = false -> skip_ws (String c r) = String c r.
Proof. intros H. cbn. now rewrite H. Qed.

Lemma skip_ws_value v k : skip_ws (write_value v k) = write_value v k.
Proof.
  destruct (write_value_start v k) as (c & r & E & Hc). rewrite E.
  cbn [skip_ws]. now destruct (value_start_facts c Hc) as (-> & _).
Qed.

Lemma parse_elements_write vs :
  Forall reads_back vs -> Forall well_formed vs ->
  forall v, reads_back v -> well_formed v ->
  forall fuel k, need_elems (v :: vs) <= fuel ->
    parse_elements fuel (write_value v (write_elems false vs k)) = read (v :: vs, k).
Proof.
  induction 1 as [|v' vs Hv' Hvs IH]; intros Hwf v Hv Hwv fuel k Hfuel;
    cbn [need_elems] in Hfuel; (destruct fuel as [|fuel]; [lia|]);
    cbn [parse_elements]; rewrite (Hv Hwv) by (try apply delimited_elems; lia).
  - reflexivity.
  - inversion Hwf; subst. cbn [write_elems sep skip_ws].
    change (is_ws ",") with false. cbv iota.
    change (Ascii.eqb "," ",") with true. cbv iota.
    rewrite IH by (auto; cbn [need_elems]; lia). reflexivity.
Qed.

Lemma parse_members_write ps :
  Forall (fun kv => reads_back (snd kv)) ps -> Forall (fun kv => well_formed (snd kv)) ps ->
  forall key v, reads_back v -> well_formed v ->
  forall fuel k, need_members ((key, v) :: ps) <= fuel ->
    parse_members fuel
      (write_string key (String ":" (write_value v (write_members false ps k))))
    = read ((key, v) :: ps, k).
Proof.
  induction 1 as [|[key' v'] ps Hv' Hvs IH]; intros Hwf key v Hv Hwv fuel k Hfuel;
    cbn [need_members] in Hfuel; (destruct fuel as [|fuel]; [lia|]);
    unfold write_string; cbn [parse_members skip_ws];
    change (is_ws dquote) with false; cbv iota;
    change (Ascii.eqb dquote dquote) with true; cbv iota;
    rewrite parse_chars_write; cbn [skip_ws];
    change (is_ws ":") with false; cbv iota;
    change (Ascii.eqb ":" ":") with true; cbv iota;
    rewrite (Hv Hwv) by (try apply delimited_members; lia).
  - reflexivity.
  - inversion Hwf; subst. cbn [write_members sep skip_ws].
    change (is_ws ",") with false. cbv iota.
    change (Ascii.eqb "," ",") with true. cbv iota.
    fold (write_string key' (String ":" (write_value v' (write_members false ps k)))).
    rewrite IH by (auto; cbn [need_members]; lia). reflexivity.
Qed.

Lemma parse_value_write v : reads_back v.
Proof.
  induction v as [| b | n | s | vs IH | ps IH] using jsval_ind;
    intros Hwf fuel k Hfuel Hk.
  - destruct fuel as [|fuel]; [cbn in Hfuel; lia|]. reflexivity.
  - destruct fuel as [|fuel]; [cbn in Hfuel; lia|]. destruct b; reflexivity.
  - destruct fuel as [|fuel]; [cbn in Hfuel; lia|].
    cbn [write_value].
    destruct (write_number_start n k) as (c & r & E & Hc).
    pose proof (parse_number_write n k Hwf Hk) as Hn. rewrite E in *.
    now rewrite parse_value_number.
  - destruct fuel as [|fuel]; [cbn in Hfuel; lia|].
    cbn [write_value]. unfold write_string. cbn [parse_value skip_ws].
    change (is_ws dquote) with false. cbv iota.
    change (Ascii.eqb dquote "[") with false. change (Ascii.eqb dquote "{") with false.
    change (Ascii.eqb dquote dquote) with true. cbv iota.
    now rewrite parse_chars_write.
  - rewrite need_arr in Hfuel. destruct fuel as [|fuel]; [lia|].
    rewrite write_value_arr. apply well_formed_arr in Hwf.
    destruct vs as [|v vs]; [reflexivity|].
    inversion IH; subst. inversion Hwf; subst.
    cbn [write_elems sep].
    pose proof (parse_elements_write vs ltac:(assumption) ltac:(assumption) v
                  ltac:(assumption) ltac:(assumption) fuel k ltac:(lia)) as Hp.
    destruct (write_value_start v (write_elems false vs k)) as (c & r & E & Hc).
    rewrite E in *. destruct (value_start_facts c Hc) as (Hws & Hb & _).
    cbn [parse_value skip_ws]. change (is_ws "[") with false. cbv iota.
    change (Ascii.eqb "[" "[") with true. cbv iota.
    rewrite (skip_ws_start _ _ Hws), Hb, Hp. reflexivity.
  - rewrite need_obj in Hfuel. destruct fuel as [|fuel]; [lia|].
    rewrite write_value_obj. apply well_formed_obj in Hwf as [Hown Hwf].
    destruct ps as [|[key v] ps]; [reflexivity|].
    inversion IH; subst. inversion Hwf; subst.
    cbn [write_members sep].
    pose proof (parse_members_write ps ltac:(assumption) ltac:(assumption) key v
                  ltac:(assumption) ltac:(assumption) fuel k ltac:(lia)) as Hp.
    unfold write_string in *.
    cbn [parse_value skip_ws]. change (is_ws "{") with false. cbv iota.
    change (Ascii.eqb "{" "[") with false. change (Ascii.eqb "{" "{") with true. cbv iota.
    change (is_ws dquote) with false. cbv iota.
    change (Ascii.eqb dquote "}") with false. cbv iota.
    rewrite Hp, Hown. reflexivity.
Qed.

(** ** The text is long enough to serve as fuel *)

Lemma length_quote_char c k : String.length k < String.length (quote_char c k).
Proof.
  unfold quote_char.
  repeat match goal with
         | |- context [if ?b then _ else _] => destruct b
         end; cbn [String.length]; lia.
Qed.

Lemma length_write_chars s k : String.length k <= String.length (write_chars s k).
Proof.
  induction s as [|c s IH]; cbn [write_chars]; [lia|].
  pose proof (length_quote_char c (write_chars s k)). lia.
Qed.

Lemma length_write_string s k : String.length k + 2 <= String.length (write_string s k).
Proof.
  unfold write_string. cbn [String.length].
  pose proof (length_write_chars s (String dquote k)) as H. cbn [String.length] in H. lia.
Qed.

Lemma length_write_uint u k : String.length k <= String.length (write_uint u k).
Proof.
  induction u; cbn [write_uint String.length]; lia.
Qed.

Lemma length_write_number n k : String.length k < String.length (write_number n k).
Proof.
  destruct n as [|p|p]; cbn [write_number String.length].
  - lia.
  - destruct (write_uint_start (Pos.to_uint p) k (canonical_to_uint p)) as (c & r & E & _).
    pose proof (canonical_to_uint p) as Hc.
    destruct (Pos.to_uint p) as [|u|u|u|u|u|u|u|u|u|u]; try discriminate;
      cbn [write_uint String.length]; pose proof (length_write_uint u k); lia.
  - pose proof (length_write_uint (Pos.to_uint p) k). lia.
Qed.

Lemma length_sep first k : String.length k <= String.length (sep first k).
Proof. destruct first; cbn [sep String.length]; lia. Qed.

Lemma length_write_elems vs :
  Forall fits vs ->
  forall (first : bool) k,
    need_elems vs + String.length k + (if first then 0 else 1)
    <= String.length (write_elems first vs k).
Proof.
  induction 1 as [|v vs Hv _ IH]; intros first k; cbn [write_elems need_elems String.length].
  - destruct first; lia.
  - pose proof (Hv (write_elems false vs k)). pose proof (IH false k) as IH'.
    cbv iota in IH'. destruct first; cbn [sep String.length]; lia.
Qed.

Lemma length_write_members ps :
  Forall (fun kv => fits (snd kv)) ps ->
  forall (first : bool) k,
    need_members ps + String.length k + (if first then 0 else 1)
    <= String.length (write_members first ps k).
Proof.
  induction 1 as [|[key v] ps Hv _ IH]; intros first k;
    cbn [write_members need_members String.length].
  - destruct first; lia.
  - pose proof (length_sep first
        (write_string key (String ":" (write_value v (write_members false ps k))))).
    pose proof (length_write_string key
        (String ":" (write_value v (write_members false ps k)))) as Hs.
    cbn [String.length] in Hs.
    pose proof (Hv (write_members false ps k)) as Hv'. cbn [snd] in Hv'.
    pose proof (IH false k) as IH'. cbv iota in IH'.
    destruct first; cbn [sep String.length] in *; lia.
Qed.

Lemma length_write_value v : fits v.
Proof.
  induction v as [| b | n | s | vs IH | ps IH] using jsval_ind; intros k.
  - cbn. lia.
  - destruct b; cbn; lia.
  - cbn [need write_value]. pose proof (length_write_number n k). lia.
  - cbn [need write_value]. pose proof (length_write_string s k). lia.
  - rewrite need_arr, write_value_arr. cbn [String.length].
    pose proof (length_write_elems vs IH true k) as H. cbv iota in H. lia.
  - rewrite need_obj, write_value_obj. cbn [String.length].
    pose proof (length_write_members ps IH true k) as H. cbv iota in H. lia.
Qed.

(** ** JSON.parse after JSON.stringify *)

Lemma JSON_parse_stringify v : well_formed v -> JSON_parse (JSON_stringify v) = read v.
Proof.
  intros Hwf. unfold JSON_parse, JSON_stringify.
  rewrite (parse_value_write v Hwf); [reflexivity | | reflexivity].
  pose proof (length_write_value v "") as H. cbn [String.length] in H. lia.
Qed.

Lemma JSON_stringify_inj v w :
  well_formed v -> well_formed w -> JSON_stringify v = JSON_stringify w -> v = w.
Proof.
  intros Hv Hw E. apply JSON_parse_stringify in Hv, Hw. congruence.
Qed.

(** ** The document as values *)

Lemma traverse_map {A B : Type} (f : A -> option B) (g : B -> A) (l : list B) :
  Forall (fun x => f (g x) = Some x) l -> traverse f (map g l) = Some l.
Proof.
  induction 1 as [|x l Hx _ IH]; cbn [map traverse]; [reflexivity|].
  now rewrite Hx, IH.
Qed.

Lemma item_of_js_of_item f : item_of_js (js_of_item f) = Some f.
Proof. destruct f as [i t [v|]]; reflexivity. Qed.

Lemma row_of_js_of_row row : row_of_js (js_of_row row) = Some row.
Proof.
  unfold row_of_js, js_of_row. apply traverse_map.
  apply Forall_forall. intros f _. apply item_of_js_of_item.
Qed.

Lemma instance_of_js_of_instance a : instance_of_js (js_of_instance a) = Some a.
Proof.
  destruct a as [i t rows]. unfold js_of_instance, instance_of_js.
  cbn [get_property String.eqb Ascii.eqb Bool.eqb attr_id attr_title children].
  rewrite (traverse_map row_of_js js_of_row); [reflexivity|].
  apply Forall_forall. intros r _. apply row_of_js_of_row.
Qed.

Lemma group_of_js_of_group g : group_of_js (js_of_group g) = Some g.
Proof.
  destruct g as [i t attrs]. unfold js_of_group, group_of_js.
  cbn [get_property String.eqb Ascii.eqb Bool.eqb group_id group_title attributes].
  rewrite (traverse_map instance_of_js js_of_instance); [reflexivity|].
  apply Forall_forall. intros r _. apply instance_of_js_of_instance.
Qed.

Lemma groups_of_js_of_groups d : groups_of_js (map js_of_group d) = Some d.
Proof.
  apply traverse_map, Forall_forall. intros g _. apply group_of_js_of_group.
Qed.








Lemma well_formed_js_of_item f : well_formed_item f -> well_formed (js_of_item f).
Proof.
  destruct f as [i t [v|]]; unfold well_formed_item, js_of_item; cbn; intuition.
Qed.

Lemma well_formed_js_of_row row :
  Forall well_formed_item row -> well_formed (js_of_row row).
Proof.
  intros H. apply well_formed_arr, Forall_map.
  eapply Forall_impl; [exact H|]. apply well_formed_js_of_item.
Qed.

Lemma well_formed_js_of_instance a :
  Forall (Forall well_formed_item) (children a) -> well_formed (js_of_instance a).
Proof.
  intros H. apply well_formed_obj. split; [reflexivity|].
  repeat constructor. cbn [snd]. apply well_formed_arr, Forall_map.
  eapply Forall_impl; [exact H|]. apply well_formed_js_of_row.
Qed.

Lemma well_formed_js_of_group g : well_formed_group g -> well_formed (js_of_group g).
Proof.
  intros H. apply well_formed_obj. split; [reflexivity|].
  repeat constructor. cbn [snd]. apply well_formed_arr, Forall_map.
  eapply Forall_impl; [exact H|]. apply well_formed_js_of_instance.
Qed.

Lemma well_formed_js_of_groups d : well_formed_doc d -> well_formed (js_of_groups d).
Proof.
  intros H. apply well_formed_arr, Forall_map.
  eapply Forall_impl; [exact H|]. apply well_formed_js_of_group.
Qed.

Lemma deep_copy_id row : Forall well_formed_item row -> deep_copy row = Some row.
Proof.
  intros H. unfold deep_copy.
  rewrite JSON_parse_stringify by now apply well_formed_js_of_row.
  apply row_of_js_of_row.
Qed.

Lemma map_inj_on {A B : Type} (f : A -> B) (g : B -> option A) (l l' : list A) :
  (forall x, g (f x) = Some x) -> map f l = map f l' -> l = l'.
Proof.
  intros Hg. revert l'. induction l as [|x l IH]; intros [|y l'] E; try discriminate.
  - reflexivity.
  - cbn [map] in E. injection E as Exy E. f_equal; [|now apply IH].
    apply (f_equal g) in Exy. rewrite !Hg in Exy. congruence.
Qed.

Lemma js_of_groups_inj d d' : js_of_groups d = js_of_groups d' -> d = d'.
Proof.
  unfold js_of_groups. intros E. injection E as E.
  eapply map_inj_on; [apply group_of_js_of_group | exact E].
Qed.

(** ** Dirty tracking *)

Lemma hasChanges_false_iff st :
  hasChanges st = false <->
  JSON_stringify (js_of_groups (groupSelected st))
  = JSON_stringify (js_of_groups (savedGroupData st)).
Proof.
  unfold hasChanges. rewrite negb_false_iff. apply String.eqb_eq.
Qed.

Lemma hasChanges_true_iff st :
  hasChanges st = true <->
  JSON_stringify (js_of_groups (groupSelected st))
  <> JSON_stringify (js_of_groups (savedGroupData st)).
Proof.
  unfold hasChanges. rewrite negb_true_iff. apply String.eqb_neq.
Qed.

(** C1.  The document is dirty exactly when the serialization of the current
    snapshot differs from that of the baseline: a document compared with
    itself is clean, two snapshots whose serializations differ are dirty,
    and, the serialization being injective on documents, so are any two
    different snapshots (a field value, a row, an instance or a group
    changed). *)
Theorem dirty_iff_serializations_differ :
  (forall d a,
     hasChanges {| groupSelected := d; activeGroupId := a; savedGroupData := d |} = false)
  /\ (forall st,
        hasChanges st = true <->
        JSON_stringify (js_of_groups (groupSelected st))
        <> JSON_stringify (js_of_groups (savedGroupData st)))
  /\ (forall st,
        well_formed_doc (groupSelected st) -> well_formed_doc (savedGroupData st) ->
        groupSelected st <> savedGroupData st -> hasChanges st = true).
Proof.
  split; [|split].
  - intros d a. now apply hasChanges_false_iff.
  - apply hasChanges_true_iff.
  - intros st Hc Hs Hne. apply hasChanges_true_iff. intros E. apply Hne.
    apply js_of_groups_inj.
    apply JSON_stringify_inj; auto using well_formed_js_of_groups.
Qed.

(** ** Saving *)

Lemma save_failed_resume captured r st :
  save_failed r ->
  exists msg, saveAttributeMeta_resume captured r st = (st, [toast_error msg]).
Proof.
  destruct r as [|res]; cbn [save_failed saveAttributeMeta_resume].
  - eauto.
  - intros H. destruct res; rewrite ?H; eauto.
Qed.

(** C2.  A dirty document whose save fails (the call throws, or the answer's
    [success] is not ["success"]) is left as it was: same baseline, same
    current snapshot, still dirty, an error notice, and a second save sends
    the same payload.  The state is left alone also when edits were made
    while the call was in flight. *)
Theorem failed_save_keeps_document data_id r st :
  hasChanges st = true -> save_failed r ->
  (exists msg, saveAttributeMeta data_id r st = (st, [toast_error msg]))
  /\ hasChanges (fst (saveAttributeMeta data_id r st)) = true
  /\ saveAttributeMeta_call data_id (fst (saveAttributeMeta data_id r st))
     = saveAttributeMeta_call data_id st
  /\ (forall captured now, fst (saveAttributeMeta_resume captured r now) = now).
Proof.
  intros Hdirty Hfail.
  assert (H : exists msg, saveAttributeMeta data_id r st = (st, [toast_error msg])).
  { unfold saveAttributeMeta, saveAttributeMeta_call. rewrite Hdirty. cbn [negb].
    destruct data_id as [orderId|]; [destruct (truthy orderId)|]; eauto.
    now apply save_failed_resume. }
  split; [exact H|]. destruct H as [msg ->]. cbn [fst]. repeat split; auto.
  intros captured now. destruct (save_failed_resume captured r now Hfail) as [m ->].
  reflexivity.
Qed.

Lemma failed_save_keeps_document_witness :
  hasChanges sample_dirty = true
  /\ save_failed rejected
  /\ hasChanges (fst (saveAttributeMeta (Some (JNum 12)) rejected sample_dirty)) = true.
Proof.
  split; [reflexivity | split; [exact I |]].
  apply (failed_save_keeps_document (Some (JNum 12)) rejected sample_dirty);
    [reflexivity | exact I].
Defined.

(** C4.  When the answer's [success] is ["success"], the baseline becomes
    the snapshot the call captured, the one whose serialization was sent,
    whatever the state is by then; with no edit in between the document is
    clean. *)
Theorem successful_save_rebaselines data_id orderId res st :
  hasChanges st = true ->
  data_id = Some orderId -> truthy orderId = true ->
  strict_equals (opt_prop "success" res) (Some (JStr "success")) = true ->
  saveAttributeMeta_call data_id st
  = save_awaits orderId (JSON_stringify (js_of_groups (groupSelected st))) (groupSelected st)
  /\ (forall now,
        saveAttributeMeta_resume (groupSelected st) (resolved res) now
        = (set_savedGroupData (groupSelected st) now,
           [toast_success "Order attributes updated successfully"]))
  /\ savedGroupData (fst (saveAttributeMeta data_id (resolved res) st)) = groupSelected st
  /\ groupSelected (fst (saveAttributeMeta data_id (resolved res) st)) = groupSelected st
  /\ hasChanges (fst (saveAttributeMeta data_id (resolved res) st)) = false.
Proof.
  intros Hdirty -> Hid Hok.
  assert (Hcall : saveAttributeMeta_call (Some orderId) st
                  = save_awaits orderId (JSON_stringify (js_of_groups (groupSelected st)))
                      (groupSelected st)).
  { unfold saveAttributeMeta_call. now rewrite Hdirty, Hid. }
  assert (Hres : forall now,
             saveAttributeMeta_resume (groupSelected st) (resolved res) now
             = (set_savedGroupData (groupSelected st) now,
                [toast_success "Order attributes updated successfully"])).
  { intros now. cbn [saveAttributeMeta_resume]. rewrite Hok.
    destruct res; try reflexivity. discriminate Hok. }
  unfold saveAttributeMeta. rewrite Hcall, Hres. cbn [fst].
  repeat split; auto. now apply hasChanges_false_iff.
Qed.

Lemma successful_save_rebaselines_witness :
  hasChanges
    (fst (saveAttributeMeta (Some (JNum 12))
            (resolved (JObj [("success", JStr "success")])) sample_dirty)) = false.
Proof.
  apply (successful_save_rebaselines (Some (JNum 12)) (JNum 12)
           (JObj [("success", JStr "success")]) sample_dirty);
    reflexivity.
Defined.

(** ** Loading *)

Lemma get_property_in {A : Type} k (ps : list (string * A)) :
  In k (map fst ps) <-> exists v, get_property k ps = Some v.
Proof.
  induction ps as [|[k' v'] ps IH]; cbn [map fst In get_property].
  - split; [tauto | intros [v H]; discriminate].
  - destruct (String.eqb_spec k k') as [->|Hne].
    + split; eauto.
    + rewrite IH. split; [intros [E|H]; [congruence | exact H] | auto].
Qed.

Lemma opt_prop_has_key k v : has_key k v <-> exists x, opt_prop k v = Some x.
Proof.
  unfold has_key. split.
  - intros (ps & -> & Hin). now apply get_property_in.
  - intros [x H]. destruct v; try discriminate. eexists. split; [reflexivity|].
    apply get_property_in. eauto.
Qed.

Lemma opt_prop_lacks_key k v : ~ has_key k v <-> opt_prop k v = None.
Proof.
  rewrite opt_prop_has_key. destruct (opt_prop k v) as [x|].
  - split; [intros H; destruct H; eauto | discriminate].
  - split; [reflexivity | intros _ [x H]; discriminate].
Qed.

(** C5.  The parse of the stored text, case by case: nothing or the empty
    text gives no group; a text that is not JSON gives no group and the
    notice that loading failed, and nothing else raises a notice; a value
    that is not an array, or the empty array, gives no group; a non-empty
    array whose first element has an [attributes] property is taken as it
    is; any other non-empty array becomes the [attributes] of one group,
    titled "Default Group", whose id is the generated one. *)
Theorem parse_data_cases generated :
  parse_data None generated = Some ([], [])
  /\ parse_data (Some "") generated = Some ([], [])
  /\ (forall text,
        text <> "" -> JSON_parse text = throws ->
        parse_data (Some text) generated
        = Some ([], [toast_error "Failed to load order attributes."]))
  /\ (forall text v,
        JSON_parse text = read v -> (forall vs, v <> JArr vs) ->
        parse_data (Some text) generated = Some ([], []))
  /\ (forall text,
        JSON_parse text = read (JArr []) -> parse_data (Some text) generated = Some ([], []))
  /\ (forall text first rest,
        JSON_parse text = read (JArr (first :: rest)) -> has_key "attributes" first ->
        parse_data (Some text) generated = Some (first :: rest, []))
  /\ (forall text first rest,
        JSON_parse text = read (JArr (first :: rest)) -> ~ has_key "attributes" first ->
        parse_data (Some text) generated
        = Some ([JObj [("id", JStr generated); ("title", JStr "Default Group");
                       ("attributes", JArr (first :: rest))]], []))
  /\ (forall raw parsedGroups t,
        parse_data raw generated = Some (parsedGroups, t) -> t <> [] ->
        parsedGroups = [] /\ exists text, raw = Some text /\ JSON_parse text = throws).
Proof.
  assert (Hne : forall text v, JSON_parse text = read v -> String.eqb text "" = false).
  { intros text v H. destruct text; [discriminate H | reflexivity]. }
  repeat split.
  - intros text Hne' H. unfold parse_data.
    apply String.eqb_neq in Hne'. now rewrite Hne', H.
  - intros text v H Hv. unfold parse_data. rewrite (Hne _ _ H), H.
    destruct v as [| | | |[|first rest]|]; try reflexivity. now destruct (Hv (first :: rest)).
  - intros text H. unfold parse_data. now rewrite (Hne _ _ H), H.
  - intros text first rest H Hk. unfold parse_data. rewrite (Hne _ _ H), H.
    apply opt_prop_has_key in Hk as [x ->]. reflexivity.
  - intros text first rest H Hk. unfold parse_data. rewrite (Hne _ _ H), H.
    apply opt_prop_lacks_key in Hk as ->. reflexivity.
  - destruct raw as [text|]; unfold parse_data in *; [|congruence].
    destruct (String.eqb text ""); [congruence|].
    destruct (JSON_parse text) as [[| | | |[|first rest]|]| |]; try congruence.
    destruct (opt_prop "attributes" first); congruence.
  - destruct raw as [text|]; unfold parse_data in *; [|congruence].
    exists text. split; [reflexivity|].
    destruct (String.eqb text ""); [congruence|].
    destruct (JSON_parse text) as [[| | | |[|first rest]|]| |]; try congruence.
    destruct (opt_prop "attributes" first); congruence.
Qed.

Lemma JSON_stringify_groups_nonempty d :
  String.eqb (JSON_stringify (js_of_groups d)) "" = false.
Proof.
  unfold JSON_stringify, js_of_groups. now rewrite write_value_arr.
Qed.

Lemma parse_data_stringify d generated :
  well_formed_doc d ->
  parse_data (Some (JSON_stringify (js_of_groups d))) generated
  = Some (map js_of_group d, []).
Proof.
  intros Hwf. unfold parse_data. rewrite JSON_stringify_groups_nonempty.
  rewrite JSON_parse_stringify by now apply well_formed_js_of_groups.
  unfold js_of_groups. destruct d as [|g d]; reflexivity.
Qed.

(** C6.  A document of the current shape (the empty one included) that is
    serialized and parsed comes back as it was, with no notice and no
    generated group; read at the declared interface the parsed value is
    the document. *)
Theorem parse_stringify_roundtrip d generated :
  well_formed_doc d ->
  parse_data (Some (JSON_stringify (js_of_groups d))) generated
  = Some (map js_of_group d, [])
  /\ groups_of_js (map js_of_group d) = Some d
  /\ (forall st,
        effect_parse (Some (JSON_stringify (js_of_groups d))) generated st
        = Some (set_savedGroupData d (set_groupSelected d st), [])).
Proof.
  intros Hwf. pose proof (parse_data_stringify d generated Hwf) as H.
  split; [exact H|]. split; [apply groups_of_js_of_groups|].
  intros st. unfold effect_parse. now rewrite H, groups_of_js_of_groups.
Qed.

(** Loading what was saved: both the document and the baseline are the
    document that was serialized. *)
Lemma effect_parse_stringify d generated st :
  well_formed_doc d ->
  effect_parse (Some (JSON_stringify (js_of_groups d))) generated st
  = Some (set_savedGroupData d (set_groupSelected d st), []).
Proof.
  intros Hwf. unfold effect_parse.
  rewrite (parse_data_stringify d generated Hwf). now rewrite groups_of_js_of_groups.
Qed.

(** Whatever was loaded, the document is clean after the load. *)
Lemma effect_parse_clean raw generated st st' t :
  effect_parse raw generated st = Some (st', t) -> hasChanges st' = false.
Proof.
  unfold effect_parse. destruct (parse_data raw generated) as [[parsedGroups t']|];
    [|discriminate].
  destruct (groups_of_js parsedGroups) as [gs|]; [|discriminate].
  intros [= <- <-]. now apply hasChanges_false_iff.
Qed.

Lemma parse_stringify_roundtrip_witness :
  well_formed_doc [sample_group]
  /\ parse_data (Some (JSON_stringify (js_of_groups [sample_group]))) "fresh"
     = Some (map js_of_group [sample_group], []).
Proof.
  assert (Hwf : well_formed_doc [sample_group]).
  { repeat constructor. }
  split; [exact Hwf|].
  apply (parse_stringify_roundtrip [sample_group] "fresh" Hwf).
Defined.

(** ** Effect 2 *)

Lemma sync_active_idem st : sync_active (sync_active st) = sync_active st.
Proof.
  destruct st as [gs a s]. unfold sync_active.
  cbn [groupSelected activeGroupId]. destruct gs as [|g gs].
  - destruct (falsy a) eqn:E; cbn [negb]; cbn; [now rewrite E | reflexivity].
  - destruct (falsy a) eqn:E; cbn; [|now rewrite E].
    destruct (String.eqb (group_id g) ""); reflexivity.
Qed.

(** ** Lookups and in-place updates *)

Lemma find_split {A : Type} (p : A -> bool) (l : list A) x :
  find p l = Some x ->
  exists pre post, l = pre ++ x :: post /\ Forall (fun y => p y = false) pre /\ p x = true.
Proof.
  induction l as [|y l IH]; cbn [find]; [discriminate|].
  destruct (p y) eqn:E.
  - intros [= ->]. exists [], l. repeat split; [constructor | exact E].
  - intros H. destruct (IH H) as (pre & post & -> & Hpre & Hx).
    exists (y :: pre), post. repeat split; [constructor; assumption | exact Hx].
Qed.

Lemma find_first {A : Type} (p : A -> bool) pre x post :
  Forall (fun y => p y = false) pre -> p x = true -> find p (pre ++ x :: post) = Some x.
Proof.
  induction 1 as [|y pre Hy _ IH]; intros Hx; cbn [app find].
  - now rewrite Hx.
  - rewrite Hy. now apply IH.
Qed.

Lemma update_first_split {A : Type} (p : A -> bool) f pre (x : A) post :
  Forall (fun y => p y = false) pre -> p x = true ->
  update_first p f (pre ++ x :: post) = (pre ++ fst (f x) :: post, snd (f x)).
Proof.
  induction 1 as [|y pre Hy _ IH]; intros Hx; cbn [app update_first].
  - rewrite Hx. now destruct (f x).
  - rewrite Hy, (IH Hx). reflexivity.
Qed.

Lemma update_first_none {A : Type} (p : A -> bool) f (l : list A) :
  find p l = None -> update_first p f l = (l, []).
Proof.
  induction l as [|y l IH]; cbn [find update_first]; [reflexivity|].
  destruct (p y); [discriminate|]. intros H. now rewrite (IH H).
Qed.

Lemma update_first_found {A : Type} (p : A -> bool) f (l : list A) x :
  find p l = Some x ->
  snd (update_first p f l) = snd (f x)
  /\ (p (fst (f x)) = true -> find p (fst (update_first p f l)) = Some (fst (f x)))
  /\ (fst (f x) = x -> fst (update_first p f l) = l).
Proof.
  intros H. destruct (find_split p l x H) as (pre & post & -> & Hpre & Hx).
  rewrite (update_first_split p f pre x post Hpre Hx). cbn [fst snd].
  repeat split.
  - intros Hx'. now apply find_first.
  - now intros ->.
Qed.

Lemma update_at_lookup {A : Type} i f (l : list A) x :
  l !! i = Some x -> update_at i f l = (<[i := fst (f x)]> l, snd (f x)).
Proof.
  revert i. induction l as [|y l IH]; intros [|i]; cbn; try discriminate.
  - intros [= ->]. now destruct (f x).
  - intros H. now rewrite (IH i H).
Qed.

Lemma update_at_none {A : Type} i f (l : list A) :
  l !! i = None -> update_at i f l = (l, []).
Proof.
  revert i. induction l as [|y l IH]; intros [|i]; cbn; try discriminate; try reflexivity.
  intros H. now rewrite (IH i H).
Qed.

Lemma update_first_Forall {A : Type} (Q : A -> Prop) p f (l : list A) :
  Forall Q l -> (forall x, Q x -> Q (fst (f x))) -> Forall Q (fst (update_first p f l)).
Proof.
  intros Hl Hf. induction Hl as [|y l Hy Hl IH]; cbn [update_first]; [constructor|].
  destruct (p y).
  - specialize (Hf y Hy). destruct (f y). cbn [fst] in *. now constructor.
  - destruct (update_first p f l). cbn [fst] in *. now constructor.
Qed.

Lemma update_at_Forall {A : Type} (Q : A -> Prop) i f (l : list A) :
  Forall Q l -> (forall x, Q x -> Q (fst (f x))) -> Forall Q (fst (update_at i f l)).
Proof.
  intros Hl Hf. revert i. induction Hl as [|y l Hy Hl IH]; intros i; cbn [update_at];
    [constructor|].
  destruct i as [|i].
  - specialize (Hf y Hy). destruct (f y). cbn [fst] in *. now constructor.
  - specialize (IH i). destruct (update_at i f l). cbn [fst] in *. now constructor.
Qed.

Lemma set_attributes_same g : set_attributes (attributes g) g = g.
Proof. now destruct g. Qed.

Lemma set_children_same a : set_children (children a) a = a.
Proof. now destruct a. Qed.

Lemma set_value_same f : set_value (item_value f) f = f.
Proof. now destruct f. Qed.

Lemma has_group_id_eq gid g : has_group_id gid g = true <-> group_id g = gid.
Proof. apply String.eqb_eq. Qed.

Lemma has_attr_id_eq aid a : has_attr_id aid a = true <-> attr_id a = aid.
Proof. apply String.eqb_eq. Qed.

(** The attribute a handler works on, before and after. *)
Lemma in_attribute_found gid aid body d a :
  attribute_at gid aid d = Some a ->
  attr_id (fst (body a)) = attr_id a ->
  attribute_at gid aid (fst (in_attribute gid aid body d)) = Some (fst (body a))
  /\ snd (in_attribute gid aid body d) = snd (body a).
Proof.
  unfold attribute_at, in_attribute. intros Ha Hid.
  destruct (find (has_group_id gid) d) as [g|] eqn:Hg; [|discriminate].
  destruct (find_split _ _ _ Hg) as (pre & post & -> & Hpre & Hgid).
  rewrite (update_first_split _ _ pre g post Hpre Hgid).
  destruct (update_first_found (has_attr_id aid) body (attributes g) a Ha) as (Ht & Hf & _).
  destruct (update_first (has_attr_id aid) body (attributes g)) as [l t] eqn:E.
  cbn [fst snd] in *. split; [|exact Ht].
  rewrite find_first; [| exact Hpre | exact Hgid]. cbn [attributes set_attributes].
  apply Hf. apply has_attr_id_eq. rewrite Hid.
  destruct (find_split _ _ _ Ha) as (_ & _ & _ & _ & Hx). now apply has_attr_id_eq.
Qed.

Lemma in_attribute_same gid aid body d a :
  attribute_at gid aid d = Some a -> fst (body a) = a ->
  fst (in_attribute gid aid body d) = d.
Proof.
  unfold attribute_at, in_attribute. intros Ha Hsame.
  destruct (find (has_group_id gid) d) as [g|] eqn:Hg; [|discriminate].
  eapply update_first_found; [exact Hg|].
  destruct (update_first_found (has_attr_id aid) body (attributes g) a Ha) as (_ & _ & Hf).
  destruct (update_first (has_attr_id aid) body (attributes g)) as [l t] eqn:E.
  cbn [fst] in *. rewrite (Hf Hsame). apply set_attributes_same.
Qed.

Lemma rows_at_in_attribute gid aid body d rows :
  rows_at gid aid d = Some rows ->
  (forall a, attr_id (fst (body a)) = attr_id a) ->
  exists a, attribute_at gid aid d = Some a /\ children a = rows
            /\ rows_at gid aid (fst (in_attribute gid aid body d))
               = Some (children (fst (body a)))
            /\ snd (in_attribute gid aid body d) = snd (body a).
Proof.
  unfold rows_at. intros H Hid.
  destruct (attribute_at gid aid d) as [a|] eqn:Ha; [|discriminate].
  injection H as H. exists a.
  destruct (in_attribute_found gid aid body d a Ha (Hid a)) as (-> & Ht).
  auto.
Qed.

(** A field edit replaces one field of one row and leaves the rest. *)
Lemma rows_at_in_field gid aid i j body d rows row f :
  rows_at gid aid d = Some rows -> rows !! i = Some row -> row !! j = Some f ->
  rows_at gid aid (fst (in_field gid aid i j body d))
  = Some (<[i := <[j := fst (body f)]> row]> rows)
  /\ snd (in_field gid aid i j body d) = snd (body f).
Proof.
  intros Hrows Hrow Hf. unfold in_field.
  match goal with
  | |- context [in_attribute gid aid ?b d] =>
      destruct (rows_at_in_attribute gid aid b d rows Hrows) as (a & Ha & <- & -> & ->)
  end.
  { intros a. now destruct (update_at i (update_at j body) (children a)). }
  rewrite (update_at_lookup i _ _ row Hrow), (update_at_lookup j _ _ f Hf).
  cbn [fst snd children set_children]. auto.
Qed.

Lemma field_at_in_field gid aid i j body d f :
  field_at gid aid i j d = Some f ->
  field_at gid aid i j (fst (in_field gid aid i j body d)) = Some (fst (body f))
  /\ snd (in_field gid aid i j body d) = snd (body f).
Proof.
  unfold field_at, row_at. intros H.
  destruct (rows_at gid aid d) as [rows|] eqn:Hrows; [|discriminate].
  destruct (rows !! i) as [row|] eqn:Hrow; [|discriminate].
  destruct (rows_at_in_field gid aid i j body d rows row f Hrows Hrow H) as (-> & ->).
  split; [|reflexivity].
  rewrite list_lookup_insert_eq by (eapply lookup_lt_Some; eassumption).
  rewrite list_lookup_insert_eq by (eapply lookup_lt_Some; eassumption). reflexivity.
Qed.

Lemma in_field_same gid aid i j body d f :
  field_at gid aid i j d = Some f -> fst (body f) = f ->
  fst (in_field gid aid i j body d) = d.
Proof.
  unfold field_at, row_at, rows_at. intros H Hsame.
  destruct (attribute_at gid aid d) as [a|] eqn:Ha; [|discriminate]. cbn [option_map] in H.
  destruct (children a !! i) as [row|] eqn:Hrow; [|discriminate].
  unfold in_field. eapply in_attribute_same; [exact Ha|].
  rewrite (update_at_lookup i _ _ row Hrow), (update_at_lookup j _ _ f H).
  cbn [fst]. rewrite Hsame, (list_insert_id row j f H), (list_insert_id _ i row Hrow).
  apply set_children_same.
Qed.

Lemma active_truthy st gid :
  activeGroupId st = Some gid -> gid <> "" ->
  falsy (activeGroupId st) = false /\ default "" (activeGroupId st) = gid.
Proof.
  intros -> H. split; [|reflexivity]. now apply String.eqb_neq.
Qed.

(** ** Deleting a group *)

Lemma has_group_id_refl g : has_group_id (group_id g) g = true.
Proof. apply String.eqb_refl. Qed.

(** After a confirmed delete the active id is the id of the first group of
    the array the handler closed over, whichever group was deleted. *)
Lemma handleDeleteGroup_active groupId st g gs :
  groupSelected st = g :: gs ->
  activeGroupId (fst (handleDeleteGroup true groupId st)) = Some (group_id g).
Proof.
  intros H. unfold handleDeleteGroup, produce. cbn [negb]. rewrite H.
  now destruct (findIndex (has_group_id groupId) (g :: gs)).
Qed.

(** Deleting the only group leaves no group active. *)
Lemma deleteGroup_last memoriez st g :
  groupSelected st = [g] ->
  activeGroup (fst (run memoriez (deleteGroup true (group_id g)) st)) = None
  /\ falsy (activeGroupId (fst (run memoriez (deleteGroup true (group_id g)) st))) = true.
Proof.
  intros H. unfold run, settled, handler, handleDeleteGroup, produce. cbn [negb].
  rewrite H. cbn [findIndex]. rewrite has_group_id_refl.
  cbn. destruct (String.eqb (group_id g) "") eqn:E; cbn; rewrite ?E; split; reflexivity.
Qed.

(** Deleting the active group when it is not the first one activates the
    first of the groups that remain. *)
Lemma deleteGroup_not_first memoriez st g gs groupId :
  groupSelected st = g :: gs -> group_id g <> groupId -> group_id g <> "" ->
  activeGroup (fst (run memoriez (deleteGroup true groupId) st)) = Some g
  /\ hd_error (groupSelected (fst (run memoriez (deleteGroup true groupId) st))) = Some g.
Proof.
  intros H Hne Hne'. unfold run, settled, handler, handleDeleteGroup, produce. cbn [negb].
  rewrite H. cbn [findIndex].
  replace (has_group_id groupId g) with false
    by (symmetry; now apply String.eqb_neq).
  apply String.eqb_neq in Hne'.
  destruct (findIndex (has_group_id groupId) gs) as [n|]; cbn;
    rewrite Hne'; cbn; rewrite has_group_id_refl; split; reflexivity.
Qed.

(** Deleting the first group while it is the active one and another group
    follows: the active id stays the id of the deleted group, which no
    remaining group has, so no group is active. *)
Lemma deleteGroup_first_active memoriez st g g' gs :
  groupSelected st = g :: g' :: gs ->
  activeGroupId st = Some (group_id g) -> group_id g <> "" ->
  Forall (fun x => group_id x <> group_id g) (g' :: gs) ->
  groupSelected (fst (run memoriez (deleteGroup true (group_id g)) st)) = g' :: gs
  /\ activeGroupId (fst (run memoriez (deleteGroup true (group_id g)) st))
     = Some (group_id g)
  /\ activeGroup (fst (run memoriez (deleteGroup true (group_id g)) st)) = None.
Proof.
  intros H Hact Hne Hothers.
  unfold run, settled, handler, handleDeleteGroup, produce. cbn [negb].
  rewrite H. cbn [findIndex]. rewrite has_group_id_refl.
  apply String.eqb_neq in Hne. cbn. rewrite Hne. cbn.
  repeat split. change (find (has_group_id (group_id g)) (g' :: gs) = None).
  destruct (find (has_group_id (group_id g)) (g' :: gs)) as [x|] eqn:E; [|reflexivity].
  destruct (find_split _ _ _ E) as (pre & post & Hsplit & _ & Hx).
  apply has_group_id_eq in Hx. rewrite Forall_forall in Hothers.
  destruct (Hothers x); [|exact Hx]. rewrite Hsplit. apply list_elem_of_In.
  apply in_elt.
Qed.

(** C3.  The code at two groups with the first one active: deleting the
    active group leaves its id as the active id, an id no remaining group
    has, so no group is active although one remains. *)
Theorem deleteGroup_active_first_stale :
  run [] (deleteGroup true "g1") two_groups
  = ({| groupSelected := [other_group]; activeGroupId := Some "g1";
        savedGroupData := [sample_group; other_group] |}, [])
  /\ activeGroup two_groups = Some sample_group
  /\ activeGroup (fst (run [] (deleteGroup true "g1") two_groups)) = None
  /\ hd_error (groupSelected (fst (run [] (deleteGroup true "g1") two_groups)))
     = Some other_group.
Proof. repeat split. Qed.

(** ** Duplicating a row *)

Lemma produce_activeGroupId recipe st :
  activeGroupId (fst (produce recipe st)) = activeGroupId st.
Proof. unfold produce. now destruct (recipe (groupSelected st)). Qed.

Lemma produce_savedGroupData recipe st :
  savedGroupData (fst (produce recipe st)) = savedGroupData st.
Proof. unfold produce. now destruct (recipe (groupSelected st)). Qed.

Lemma produce_groupSelected recipe st :
  groupSelected (fst (produce recipe st)) = fst (recipe (groupSelected st)).
Proof. unfold produce. now destruct (recipe (groupSelected st)). Qed.

Lemma produce_toasts recipe st :
  snd (produce recipe st) = snd (recipe (groupSelected st)).
Proof. unfold produce. now destruct (recipe (groupSelected st)). Qed.

Lemma update_at_other {A : Type} i k f (l : list A) :
  k <> i -> fst (update_at i f l) !! k = l !! k.
Proof.
  intros Hne. destruct (l !! i) as [x|] eqn:E.
  - rewrite (update_at_lookup i f l x E). cbn [fst]. now apply list_lookup_insert_ne.
  - now rewrite (update_at_none i f l E).
Qed.

Lemma row_at_in_field_other gid aid i j body d k :
  k <> i -> row_at gid aid k (fst (in_field gid aid i j body d)) = row_at gid aid k d.
Proof.
  intros Hne. unfold row_at.
  destruct (rows_at gid aid d) as [rows|] eqn:Hrows.
  - unfold in_field.
    match goal with
    | |- context [in_attribute gid aid ?b d] =>
        destruct (rows_at_in_attribute gid aid b d rows Hrows) as (a & Ha & <- & -> & _)
    end.
    { intros a. now destruct (update_at i (update_at j body) (children a)). }
    destruct (update_at i (update_at j body) (children a)) as [rows' t] eqn:E.
    cbn [fst children set_children].
    change rows' with (fst (rows', t)). rewrite <- E. now apply update_at_other.
  - unfold rows_at, attribute_at, in_field, in_attribute in *.
    destruct (find (has_group_id gid) d) as [g|] eqn:Hg.
    + destruct (find_split _ _ _ Hg) as (pre & post & -> & Hpre & Hgid).
      rewrite (update_first_split _ _ pre g post Hpre Hgid).
      destruct (find (has_attr_id aid) (attributes g)) eqn:Ha; [discriminate|].
      rewrite (update_first_none _ _ _ Ha). cbn [fst].
      rewrite find_first by assumption. cbn [attributes set_attributes]. now rewrite Ha.
    + rewrite (update_first_none _ _ _ Hg). cbn [fst]. now rewrite Hg.
Qed.

Lemma handler_row_other st gid aid i j body k :
  activeGroupId st = Some gid -> gid <> "" -> k <> i ->
  row_at gid aid k (groupSelected (fst (produce (in_field gid aid i j body) st)))
  = row_at gid aid k (groupSelected st).
Proof.
  intros _ _ Hne. unfold produce.
  destruct (in_field gid aid i j body (groupSelected st)) as [d t] eqn:E. cbn [fst groupSelected set_groupSelected].
  change d with (fst (d, t)). rewrite <- E. now apply row_at_in_field_other.
Qed.

(** C7.  Duplicating row [i] of an [n]-row attribute gives [n + 1] rows;
    the row at [i + 1] equals the row at [i], which is the original row;
    the rows before keep their places and the rows after move down by one;
    and an edit of a field (a value set, a checkbox entry added or removed)
    in one of the two rows leaves the other as it was.  The copy is the
    value [JSON.parse] builds from the text of the row: values carry no
    identity here, and that the two rows do not share is stated as their
    independence under later edits. *)
Theorem duplicate_row_copies aid i st gid rows row :
  activeGroupId st = Some gid -> gid <> "" ->
  rows_at gid aid (groupSelected st) = Some rows ->
  rows !! i = Some row ->
  Forall well_formed_item row ->
  let st' := fst (handleDuplicateAttributeRow aid i st) in
  let rows' := take (S i) rows ++ row :: drop (S i) rows in
  rows_at gid aid (groupSelected st') = Some rows'
  /\ length rows' = S (length rows)
  /\ rows' !! i = Some row
  /\ rows' !! S i = Some row
  /\ (forall j, j < i -> rows' !! j = rows !! j)
  /\ (forall j, i < j -> rows' !! S j = rows !! j)
  /\ (forall j v,
        row_at gid aid i (groupSelected (fst (handleUpdateFieldValue aid (S i) j v st')))
        = Some row
        /\ row_at gid aid (S i) (groupSelected (fst (handleUpdateFieldValue aid i j v st')))
           = Some row)
  /\ (forall j item add,
        row_at gid aid i
          (groupSelected (fst (handleUpdateCheckboxValue aid (S i) j item add st')))
        = Some row
        /\ row_at gid aid (S i)
             (groupSelected (fst (handleUpdateCheckboxValue aid i j item add st')))
           = Some row).
Proof.
  intros Hact Hgid Hrows Hrow Hwf st' rows'.
  destruct (active_truthy st gid Hact Hgid) as (Hf & Hd).
  assert (Hlen : i < length rows) by (eapply lookup_lt_Some; eassumption).
  assert (Hst' : rows_at gid aid (groupSelected st') = Some rows').
  { subst st' rows'. unfold handleDuplicateAttributeRow, produce. rewrite Hf, Hd.
    match goal with
    | |- context [in_attribute gid aid ?b (groupSelected st)] =>
        destruct (rows_at_in_attribute gid aid b (groupSelected st) rows Hrows)
          as (a & Ha & Hch & Hr & _)
    end.
    { intros a. destruct (children a !! i); [destruct (deep_copy _)|]; reflexivity. }
    destruct (in_attribute gid aid _ (groupSelected st)) as [d t].
    cbn [fst groupSelected set_groupSelected] in *. rewrite Hr, Hch, Hrow.
    rewrite (deep_copy_id row Hwf). cbn [fst children set_children].
    unfold splice_in. now rewrite Nat.add_1_r. }
  assert (Hact' : activeGroupId st' = Some gid).
  { subst st'. unfold handleDuplicateAttributeRow. rewrite Hf.
    now rewrite produce_activeGroupId. }
  assert (Hi : rows' !! i = Some row).
  { subst rows'. rewrite lookup_app_l by (rewrite length_take; lia).
    rewrite lookup_take_lt by lia. exact Hrow. }
  assert (HSi : rows' !! S i = Some row).
  { subst rows'. rewrite lookup_app_r by (rewrite length_take; lia).
    rewrite length_take. replace (S i - S i `min` length rows) with 0 by lia. reflexivity. }
  destruct (active_truthy st' gid Hact' Hgid) as (Hf' & Hd').
  split; [exact Hst'|]. split.
  { subst rows'. rewrite length_app, length_take. cbn [length]. rewrite length_drop. lia. }
  split; [exact Hi|]. split; [exact HSi|]. split.
  { intros j Hj. subst rows'. rewrite lookup_app_l by (rewrite length_take; lia).
    now rewrite lookup_take_lt by lia. }
  split.
  { intros j Hj. subst rows'. rewrite lookup_app_r by (rewrite length_take; lia).
    rewrite length_take. replace (S j - S i `min` length rows) with (S (j - S i)) by lia.
    change ((row :: drop (S i) rows) !! S (j - S i)) with (drop (S i) rows !! (j - S i)).
    rewrite lookup_drop. f_equal. lia. }
  split.
  - intros j v. unfold handleUpdateFieldValue. rewrite Hf', Hd'.
    rewrite !handler_row_other by (auto; lia). unfold row_at. rewrite Hst'. auto.
  - intros j item add. unfold handleUpdateCheckboxValue. rewrite Hf', Hd'.
    rewrite !handler_row_other by (auto; lia). unfold row_at. rewrite Hst'. auto.
Qed.

Lemma set_groupSelected_same st : set_groupSelected (groupSelected st) st = st.
Proof. now destruct st. Qed.

(** ** Checkbox values *)

Lemma findIndex_none {A : Type} (p : A -> bool) l :
  findIndex p l = None <-> Forall (fun x => p x = false) l.
Proof.
  induction l as [|x l IH]; cbn [findIndex].
  - split; [constructor | reflexivity].
  - rewrite Forall_cons. destruct (p x).
    + split; [discriminate | intros [H _]; discriminate].
    + split.
      * intros H. split; [reflexivity|]. apply IH.
        destruct (findIndex p l); [discriminate | reflexivity].
      * intros [_ H]. apply IH in H. now rewrite H.
Qed.

Lemma findIndex_exists {A : Type} (p : A -> bool) l x :
  In x l -> p x = true -> exists n, findIndex p l = Some n.
Proof.
  intros Hin Hp. destruct (findIndex p l) as [n|] eqn:E; [eauto|].
  apply findIndex_none in E. rewrite Forall_forall in E.
  apply list_elem_of_In in Hin. rewrite (E x Hin) in Hp. discriminate.
Qed.

Lemma distinct_ids_snoc vs item :
  distinct_ids vs -> Forall (fun v => same_id v item = false) vs ->
  distinct_ids (vs ++ [item]).
Proof.
  induction vs as [|v vs IH]; cbn [app distinct_ids].
  - intros _ _. split; [constructor | exact I].
  - intros [Hv Hvs] Hall. apply Forall_cons in Hall as [Hvi Hall]. split.
    + apply Forall_app. split; [exact Hv | now constructor].
    + now apply IH.
Qed.

Lemma distinct_ids_splice_out i vs : distinct_ids vs -> distinct_ids (splice_out i vs).
Proof.
  revert i. induction vs as [|v vs IH]; intros i; [now destruct i|].
  cbn [distinct_ids]. intros [Hv Hvs]. destruct i as [|i].
  - exact Hvs.
  - change (splice_out (S i) (v :: vs)) with (v :: splice_out i vs).
    cbn [distinct_ids]. split; [|now apply IH].
    unfold splice_out. apply Forall_app. split; [now apply Forall_take | now apply Forall_drop].
Qed.

Lemma Forall_splice_out {A : Type} (P : A -> Prop) i l :
  Forall P l -> Forall P (splice_out i l).
Proof.
  intros H. unfold splice_out. apply Forall_app.
  split; [now apply Forall_take | now apply Forall_drop].
Qed.

Lemma Forall_splice_in {A : Type} (P : A -> Prop) i x l :
  Forall P l -> P x -> Forall P (splice_in i x l).
Proof.
  intros H Hx. unfold splice_in. apply Forall_app.
  split; [now apply Forall_take | constructor; [exact Hx | now apply Forall_drop]].
Qed.

Lemma update_checkbox_invariant item add f :
  (add = true -> well_formed item) ->
  well_formed_item f /\ checkbox_unique f ->
  well_formed_item (fst (update_checkbox item add f))
  /\ checkbox_unique (fst (update_checkbox item add f)).
Proof.
  intros Hitem [Hwf Hu].
  assert (Hvs : Forall well_formed (checkbox_array f) /\ distinct_ids (checkbox_array f)).
  { unfold checkbox_array, well_formed_item, checkbox_unique, duplicate_free in *.
    destruct (item_value f) as [[| | | |vs|]|];
      try (split; [constructor | exact I]). split; [now apply well_formed_arr | exact Hu]. }
  destruct Hvs as [Hw Hd]. unfold update_checkbox. fold (checkbox_array f).
  fold (same_id) in *.
  destruct add;
    destruct (findIndex (fun v => strict_equals (opt_prop "id" v) (opt_prop "id" item))
                (checkbox_array f)) as [n|] eqn:E;
    unfold well_formed_item, checkbox_unique, duplicate_free;
    cbn [fst set_value item_value]; (split; [apply well_formed_arr|]); auto.
  - apply Forall_app. split; [exact Hw | constructor; [now apply Hitem | constructor]].
  - apply distinct_ids_snoc; [exact Hd|]. now apply findIndex_none in E.
  - now apply Forall_splice_out.
  - now apply distinct_ids_splice_out.
Qed.


Lemma checkbox_add_existing aid i j item st gid field vs v :
  activeGroupId st = Some gid -> gid <> "" ->
  field_at gid aid i j (groupSelected st) = Some field ->
  item_value field = Some (JArr vs) ->
  In v vs -> same_id v item = true ->
  handleUpdateCheckboxValue aid i j item true st = (st, [toast_error "Already selected."]).
Proof.
  intros Hact Hgid Hfield Hval Hin Hsame.
  destruct (active_truthy st gid Hact Hgid) as (Hf & Hd).
  assert (Hbody : update_checkbox item true field = (field, [toast_error "Already selected."])).
  { unfold update_checkbox. rewrite Hval.
    destruct (findIndex_exists (fun v => same_id v item) vs v Hin Hsame) as [n Hn].
    unfold same_id in Hn. rewrite Hn. rewrite <- Hval. now rewrite set_value_same. }
  unfold handleUpdateCheckboxValue. rewrite Hf, Hd.
  apply injective_projections.
  - unfold produce.
    pose proof (in_field_same gid aid i j (update_checkbox item true) _ field Hfield) as Hs.
    rewrite Hbody in Hs. specialize (Hs eq_refl).
    destruct (in_field gid aid i j (update_checkbox item true) (groupSelected st)) as [d t].
    cbn [fst] in *. subst d. apply set_groupSelected_same.
  - rewrite produce_toasts.
    destruct (field_at_in_field gid aid i j (update_checkbox item true) _ field Hfield)
      as (_ & ->). now rewrite Hbody.
Qed.

(** ** Selecting an attribute for the active group *)

Lemma existsb_has_attr_id x l :
  existsb (has_attr_id x) l = true <-> In x (map attr_id l).
Proof.
  rewrite existsb_exists, in_map_iff. split.
  - intros (a & Hin & Ha). exists a. split; [now apply has_attr_id_eq | exact Hin].
  - intros (a & Ha & Hin). exists a. split; [exact Hin | now apply has_attr_id_eq].
Qed.

Lemma update_first_map {A B : Type} (h : A -> B) p f (l : list A) :
  (forall x, h (fst (f x)) = h x) -> map h (fst (update_first p f l)) = map h l.
Proof.
  intros Hf. induction l as [|x l IH]; cbn [update_first]; [reflexivity|].
  destruct (p x).
  - specialize (Hf x). destruct (f x). cbn [fst map] in *. now rewrite Hf.
  - destruct (update_first p f l). cbn [fst map] in *. now rewrite IH.
Qed.



Lemma groupSelected_sync_active st : groupSelected (sync_active st) = groupSelected st.
Proof.
  unfold sync_active. destruct (groupSelected st) eqn:E;
    destruct (falsy (activeGroupId st)); cbn; auto.
Qed.

Lemma groupSelected_run memoriez op st :
  groupSelected (fst (run memoriez op st)) = groupSelected (fst (handler memoriez op st)).
Proof.
  unfold run, settled. destruct (handler memoriez op st). apply groupSelected_sync_active.
Qed.


Ltac split_ifs :=
  repeat match goal with
         | |- context [if ?b then _ else _] => destruct b eqn:?
         end.



(** ** The checkbox invariant under every operation *)

Section all_fields_preserved.
Variable P : AttributeItem -> Prop.

Lemma in_attribute_all_fields gid aid body d :
  (forall a, Forall (Forall P) (children a) ->
             Forall (Forall P) (children (fst (body a)))) ->
  all_fields P d -> all_fields P (fst (in_attribute gid aid body d)).
Proof.
  intros Hbody Hd. unfold in_attribute, all_fields in *.
  apply update_first_Forall; [exact Hd|]. intros g Hg.
  pose proof (update_first_Forall (fun a => Forall (Forall P) (children a))
                (has_attr_id aid) body (attributes g) Hg Hbody) as H.
  now destruct (update_first (has_attr_id aid) body (attributes g)).
Qed.

Lemma in_field_all_fields gid aid i j body d :
  (forall f, P f -> P (fst (body f))) ->
  all_fields P d -> all_fields P (fst (in_field gid aid i j body d)).
Proof.
  intros Hbody. unfold in_field. apply in_attribute_all_fields. intros a Ha.
  pose proof (update_at_Forall (Forall P) i (update_at j body) (children a) Ha) as H.
  destruct (update_at i (update_at j body) (children a)) as [rows t].
  cbn [fst children set_children] in *. apply H.
  intros row Hrow. now apply update_at_Forall.
Qed.
End all_fields_preserved.

Lemma Forall_list_filter {A : Type} (P : A -> Prop) q (l : list A) :
  Forall P l -> Forall P (List.filter q l).
Proof.
  induction 1 as [|x l Hx _ IH]; cbn [List.filter]; [constructor|].
  destruct (q x); [now constructor | exact IH].
Qed.

Lemma newRow_invariant fields :
  Forall (fun f => well_formed_item f /\ checkbox_unique f) (newRow fields).
Proof.
  unfold newRow. apply Forall_map, Forall_forall. intros child _.
  unfold well_formed_item, checkbox_unique, duplicate_free. cbn [item_value].
  destruct (String.eqb (field_type child) "checkbox"); split; exact I.
Qed.

Lemma handler_checkbox_invariant memoriez op st :
  admissible op ->
  checkbox_invariant (groupSelected st) ->
  checkbox_invariant (groupSelected (fst (handler memoriez op st))).
Proof.
  unfold checkbox_invariant. intros Hop H. destruct op; cbn [handler admissible] in *.
  - unfold handleAddGroup. split_ifs; [exact H|]. cbn.
    apply Forall_app. split; [exact H|]. repeat constructor.
  - unfold renameGroup. split_ifs; [exact H|]. rewrite produce_groupSelected.
    apply update_first_Forall; auto.
  - unfold handleDeleteGroup. split_ifs; [exact H|]. cbn [negb].
    match goal with
    | |- context [produce ?r st] =>
        assert (Hp : all_fields (fun f => well_formed_item f /\ checkbox_unique f)
                       (groupSelected (fst (produce r st))))
    end.
    { rewrite produce_groupSelected.
      destruct (findIndex (has_group_id groupId) (groupSelected st)); cbn [fst];
        [now apply Forall_splice_out | exact H]. }
    destruct (produce _ st) as [st' t]. cbn [fst] in *. now destruct (groupSelected st).
  - exact H.
  - unfold handleSelectAttributeForGroup. split_ifs; [exact H|].
    rewrite produce_groupSelected. apply update_first_Forall; [exact H|].
    intros g Hg.
    destruct (existsb _ (attributes g)); cbn [negb fst]; [exact Hg|].
    cbn [attributes set_attributes]. apply Forall_app. split; [exact Hg|].
    repeat constructor.
  - unfold handleAddAttributeRow. split_ifs; [exact H|].
    destruct (find _ (atts memoriez)) as [[? ? ? [fields|]]|]; try exact H.
    rewrite produce_groupSelected. apply in_attribute_all_fields; [|exact H].
    intros a Ha. cbn [fst children set_children]. apply Forall_app.
    split; [exact Ha|]. constructor; [apply newRow_invariant | constructor].
  - unfold handleDuplicateAttributeRow. split_ifs; [exact H|].
    rewrite produce_groupSelected. apply in_attribute_all_fields; [|exact H].
    intros a Ha. destruct (children a !! rowIndex) as [row|] eqn:Hrow; [|exact Ha].
    pose proof (Forall_lookup_1 _ _ _ _ Ha Hrow) as Hr.
    rewrite deep_copy_id by (eapply Forall_impl; [exact Hr | now intros f [Hw _]]).
    cbn [fst children set_children]. now apply Forall_splice_in.
  - unfold handleDeleteAttributeRow. split_ifs; try exact H.
    rewrite produce_groupSelected. apply in_attribute_all_fields; [|exact H].
    intros a Ha. cbn [fst children set_children]. now apply Forall_splice_out.
  - unfold handleDeleteAttributeInstance. split_ifs; try exact H.
    rewrite produce_groupSelected. apply update_first_Forall; [exact H|].
    intros g Hg. cbn [fst attributes set_attributes]. now apply Forall_list_filter.
  - unfold handleUpdateFieldValue. split_ifs; [exact H|].
    rewrite produce_groupSelected. apply in_field_all_fields; [|exact H].
    intros f _. cbn [fst]. unfold well_formed_item, checkbox_unique.
    cbn [item_value set_value]. destruct Hop as [Hw Hu]. split; [|exact Hu].
    now destruct value.
  - unfold handleUpdateCheckboxValue. split_ifs; [exact H|].
    rewrite produce_groupSelected. apply in_field_all_fields; [|exact H].
    intros f Hf. now apply update_checkbox_invariant.
  - unfold handleDeleteCheckboxSingleValue, handleUpdateCheckboxValue.
    split_ifs; try exact H.
    rewrite produce_groupSelected. apply in_field_all_fields; [|exact H].
    intros f Hf. apply update_checkbox_invariant; [discriminate | exact Hf].
Qed.

Lemma sync_active_same st gid g gs :
  activeGroupId st = Some gid -> gid <> "" -> groupSelected st = g :: gs ->
  sync_active st = st.
Proof.
  intros Hact Hgid Hgs. unfold sync_active. rewrite Hgs.
  now destruct (active_truthy st gid Hact Hgid) as (-> & _).
Qed.

Lemma field_at_nonempty gid aid i j d f :
  field_at gid aid i j d = Some f -> exists g gs, d = g :: gs.
Proof.
  unfold field_at, row_at, rows_at, attribute_at.
  destruct d as [|g gs]; [discriminate | eauto].
Qed.

Lemma two_groups_invariant : checkbox_invariant (groupSelected two_groups).
Proof. repeat constructor. Qed.

Lemma red_entry_well_formed : well_formed red_entry.
Proof. repeat split. Qed.

(** ** The theorems at the sample data *)

Lemma sample_dirty_well_formed : well_formed_doc (groupSelected sample_dirty).
Proof. repeat constructor. Qed.

Lemma dirty_iff_serializations_differ_witness : hasChanges sample_dirty = true.
Proof.
  apply (proj2 (proj2 dirty_iff_serializations_differ) sample_dirty).
  - exact sample_dirty_well_formed.
  - constructor.
  - discriminate.
Defined.

Lemma parse_data_cases_witness :
  parse_data (Some "[1,2]") "group_1"
  = Some ([JObj [("id", JStr "group_1"); ("title", JStr "Default Group");
                 ("attributes", JArr [JNum 1; JNum 2])]], [])
  /\ parse_data (Some "{oops") "group_1"
     = Some ([], [toast_error "Failed to load order attributes."]).
Proof.
  destruct (parse_data_cases "group_1") as (_ & _ & Hthrows & _ & _ & _ & Hlegacy & _).
  split.
  - apply (Hlegacy "[1,2]" (JNum 1) [JNum 2]).
    + reflexivity.
    + intros (ps & H & _). discriminate H.
  - apply (Hthrows "{oops").
    + discriminate.
    + reflexivity.
Defined.

Lemma duplicate_row_copies_witness :
  rows_at "g1" "7" (groupSelected (fst (handleDuplicateAttributeRow "7" 0 two_groups)))
  = Some [[sample_item]; [sample_item]].
Proof.
  apply (duplicate_row_copies "7" 0 two_groups "g1" [[sample_item]] [sample_item]).
  - reflexivity.
  - discriminate.
  - reflexivity.
  - reflexivity.
  - repeat constructor.
Defined.



(** ** The model at work *)

Example stringify_sample :
  JSON_stringify (JArr [JNum 1; JArr []; JNull; JBool true; JNum (-20)])
  = "[1,[],null,true,-20]".
Proof. reflexivity. Qed.

Example parse_sample :
  JSON_parse " [ 1 , [ ] ,null,true, -20 ] "
  = read (JArr [JNum 1; JArr []; JNull; JBool true; JNum (-20)]).
Proof. reflexivity. Qed.

Example parse_rejects :
  JSON_parse "[1,]" = throws /\ JSON_parse "[01]" = throws /\ JSON_parse "nul" = throws
  /\ JSON_parse "[1] x" = throws /\ JSON_parse " " = throws
  /\ JSON_parse "[-]" = throws /\ JSON_parse "[.5]" = throws.
Proof. repeat split. Qed.

(** Texts that are JSON but hold what the values do not cover: nothing is
    said of them, and the load of one has no outcome in the model. *)
Example parse_outside :
  JSON_parse "[1e2]" = outside /\ JSON_parse "[1.5]" = outside
  /\ JSON_parse "[9007199254740993]" = outside
  /\ JSON_parse (String dquote (String backslash ("u0100" ++ String dquote "")))
     = outside
  /\ parse_data (Some "[1e2]") "group_1" = None.
Proof. repeat split. Qed.

Example parse_largest :
  JSON_parse "[9007199254740991,-9007199254740991]"
  = read (JArr [JNum 9007199254740991; JNum (-9007199254740991)]).
Proof. reflexivity. Qed.

(** Property order of a parsed object: array indices first, a repeated key
    keeps its first place and its last value. *)
Example parse_object_order :
  JSON_parse (JSON_stringify (JObj [("b", JNum 1); ("2", JNum 2); ("1", JNum 3); ("b", JNum 4)]))
  = read (JObj [("1", JNum 3); ("2", JNum 2); ("b", JNum 4)]).
Proof. reflexivity. Qed.

Example stringify_group :
  JSON_parse (JSON_stringify (js_of_groups [sample_group]))
  = read (JArr [JObj [("id", JStr "g1"); ("title", JStr "Shipping");
                      ("attributes",
                       JArr [JObj [("title", JStr "Box"); ("id", JStr "7");
                                   ("children",
                                    JArr [JArr [JObj [("id", JStr "f1");
                                                      ("title", JStr "Size");
                                                      ("value", JStr "XL")]]])]])]]).
Proof. reflexivity. Qed.

Example scenario_document :
  groupSelected (run_all [box_template] scenario empty_state)
  = [ {| group_id := "group_1"; group_title := "Shipping";
         attributes :=
           [ {| attr_id := "7"; attr_title := "Box";
                children := [[ {| item_id := "f1"; item_title := "Size";
                                  item_value := Some (JStr "XL") |} ]] |} ] |} ]
  /\ activeGroupId (run_all [box_template] scenario empty_state) = Some "group_1".
Proof. split; reflexivity. Qed.

Example scenario_save :
  let edited := run_all [box_template] scenario empty_state in
  let saved :=
    fst (saveAttributeMeta (Some (JNum 12)) (resolved (JObj [("success", JStr "success")]))
           edited) in
  hasChanges edited = true
  /\ hasChanges saved = false
  /\ savedGroupData saved = groupSelected edited
  /\ hasChanges (fst (run [box_template] (addRow "7") saved)) = true.
Proof. repeat split. Qed.

(** ** Creating and renaming a group *)

Lemma trimStart_blank s : blank s = true -> trimStart s = "".
Proof.
  induction s as [|c s IH]; cbn [blank trimStart]; [reflexivity|].
  intros H. apply andb_true_iff in H as [-> H]. now apply IH.
Qed.

Lemma trimStart_empty s : trimStart s = "" -> blank s = true.
Proof.
  induction s as [|c s IH]; cbn [blank trimStart]; [reflexivity|].
  destruct (is_ws_trim c); [exact IH | discriminate].
Qed.

Lemma blank_rev_string s acc : blank (rev_string s acc) = blank s && blank acc.
Proof.
  revert acc. induction s as [|c s IH]; intros acc; cbn [rev_string blank]; [reflexivity|].
  rewrite IH. cbn [blank]. destruct (is_ws_trim c), (blank s), (blank acc); reflexivity.
Qed.

Lemma rev_string_empty s acc : rev_string s acc = "" -> s = "" /\ acc = "".
Proof.
  revert acc. induction s as [|c s IH]; intros acc; cbn [rev_string]; [auto|].
  intros H. apply IH in H as [_ H]. discriminate H.
Qed.

(** [trim] gives the empty string exactly on the strings of whitespace. *)
Lemma trim_empty_iff s : trim s = "" <-> blank s = true.
Proof.
  unfold trim. split.
  - intros H. apply rev_string_empty in H as [H _]. apply trimStart_empty in H.
    rewrite blank_rev_string, andb_true_r in H. apply trimStart_empty.
    destruct (trimStart s) as [|c r] eqn:E; [reflexivity|].
    exfalso. cbn [blank] in H. apply andb_true_iff in H as [Hc _].
    clear -E Hc. induction s as [|d s IH]; cbn [trimStart] in E; [discriminate|].
    destruct (is_ws_trim d) eqn:Ed; [now apply IH|]. injection E as -> _. congruence.
  - intros H. now rewrite (trimStart_blank s H).
Qed.

Lemma not_group_id pre gid :
  Forall (fun x => group_id x <> gid) pre -> Forall (fun y => has_group_id gid y = false) pre.
Proof.
  intros H. eapply Forall_impl; [exact H|]. intros g Hg.
  destruct (has_group_id gid g) eqn:E; [|reflexivity]. now apply has_group_id_eq in E.
Qed.

(** X1.  [handleAddGroup] rejects a name of whitespace only (the empty name
    included) with an error toast and no change; any other name appends a
    group with the generated id, the trimmed name as a title that is not
    empty, and no attribute, keeps the groups there were and the baseline,
    and makes the generated id the active one; when the id is fresh the
    active group is then the new group. *)
Theorem handleAddGroup_outcome memoriez generated groupName st :
  (blank groupName = true ->
   handleAddGroup generated groupName st
   = (st, [toast_error "Group name cannot be empty."]))
  /\ (blank groupName = false ->
      let newGroup :=
        {| group_id := generated; group_title := trim groupName; attributes := [] |} in
      handleAddGroup generated groupName st
      = ({| groupSelected := groupSelected st ++ [newGroup];
            activeGroupId := Some generated;
            savedGroupData := savedGroupData st |}, [])
      /\ group_title newGroup <> ""
      /\ (generated <> "" ->
          Forall (fun g => group_id g <> generated) (groupSelected st) ->
          activeGroup (fst (run memoriez (createGroup generated groupName) st))
          = Some newGroup)).
Proof.
  split.
  - intros H. unfold handleAddGroup. apply trim_empty_iff in H. now rewrite H.
  - intros H newGroup.
    assert (Ht : trim groupName <> "").
    { intros E. apply trim_empty_iff in E. congruence. }
    assert (Hh : handleAddGroup generated groupName st
                 = ({| groupSelected := groupSelected st ++ [newGroup];
                       activeGroupId := Some generated;
                       savedGroupData := savedGroupData st |}, [])).
    { unfold handleAddGroup. apply String.eqb_neq in Ht. now rewrite Ht. }
    split; [exact Hh|]. split; [exact Ht|].
    intros Hgen Hfresh. unfold run, settled. cbn [handler]. rewrite Hh. cbn [fst].
    unfold sync_active. cbn [groupSelected activeGroupId].
    assert (Hf : falsy (Some generated) = false) by now apply String.eqb_neq.
    destruct (groupSelected st ++ [newGroup]) as [|g gs] eqn:E.
    { now destruct (groupSelected st). }
    rewrite Hf. unfold activeGroup. cbn [activeGroupId groupSelected]. rewrite <- E.
    apply find_first; [now apply not_group_id | apply String.eqb_refl].
Qed.

Lemma handleAddGroup_outcome_witness :
  handleAddGroup "group_1" (String "009" " ") two_groups
  = (two_groups, [toast_error "Group name cannot be empty."]).
Proof.
  apply (proj1 (handleAddGroup_outcome [] "group_1" (String "009" " ") two_groups)).
  reflexivity.
Defined.

(** X2.  The rename of a tab: a cancelled or empty answer changes nothing;
    any other answer becomes, trimmed, the title of the first group with
    that id, whose id and attributes stay, as do the other groups, without
    a toast; an answer of whitespace only therefore leaves the group with
    the empty title; and an id no group has changes nothing. *)
Theorem renameGroup_outcome groupId newName st :
  (falsy newName = true -> renameGroup groupId newName st = (st, []))
  /\ (forall name pre g post,
        newName = Some name -> name <> "" ->
        groupSelected st = pre ++ g :: post ->
        Forall (fun x => group_id x <> groupId) pre -> group_id g = groupId ->
        renameGroup groupId newName st
        = (set_groupSelected
             (pre ++ {| group_id := group_id g; group_title := trim name;
                        attributes := attributes g |} :: post) st, [])
        /\ (blank name = true -> trim name = ""))
  /\ (forall name,
        newName = Some name -> name <> "" ->
        Forall (fun x => group_id x <> groupId) (groupSelected st) ->
        renameGroup groupId newName st = (st, [])).
Proof.
  split; [|split].
  - intros H. unfold renameGroup. now rewrite H.
  - intros name pre g post -> Hname Hsplit Hpre Hg.
    split; [|apply trim_empty_iff].
    unfold renameGroup, produce. cbn [falsy]. apply String.eqb_neq in Hname.
    rewrite Hname, Hsplit.
    rewrite (update_first_split (has_group_id groupId) _ pre g post);
      [reflexivity | now apply not_group_id | now apply has_group_id_eq].
  - intros name -> Hname Hnone.
    unfold renameGroup, produce. cbn [falsy]. apply String.eqb_neq in Hname. rewrite Hname.
    rewrite update_first_none.
    + now rewrite set_groupSelected_same.
    + apply not_group_id in Hnone. clear -Hnone.
      induction Hnone as [|g l Hg _ IH]; cbn [find]; [reflexivity|]. now rewrite Hg.
Qed.

Lemma renameGroup_outcome_witness :
  renameGroup "g2" (Some "  ") two_groups
  = (set_groupSelected
       [sample_group; {| group_id := "g2"; group_title := ""; attributes := [] |}]
       two_groups, []).
Proof.
  apply (proj1 (proj2 (renameGroup_outcome "g2" (Some "  ") two_groups))
           "  " [sample_group] other_group []).
  - reflexivity.
  - discriminate.
  - reflexivity.
  - repeat constructor. discriminate.
  - reflexivity.
Defined.

(** ** Handlers that find nothing to work on *)

Lemma in_attribute_missing gid aid body d :
  attribute_at gid aid d = None -> in_attribute gid aid body d = (d, []).
Proof.
  unfold attribute_at, in_attribute. intros H.
  destruct (find (has_group_id gid) d) as [g|] eqn:Hg.
  - destruct (find_split _ _ _ Hg) as (pre & post & -> & Hpre & Hgid).
    rewrite (update_first_split _ _ pre g post Hpre Hgid).
    rewrite (update_first_none _ _ _ H). cbn [fst snd].
    now rewrite set_attributes_same.
  - now apply update_first_none.
Qed.

Lemma in_attribute_unchanged gid aid body d :
  (forall a, attribute_at gid aid d = Some a -> body a = (a, [])) ->
  in_attribute gid aid body d = (d, []).
Proof.
  intros Hbody. destruct (attribute_at gid aid d) as [a|] eqn:Ha.
  - apply injective_projections.
    + apply (in_attribute_same gid aid body d a Ha). now rewrite (Hbody a).
    + destruct (in_attribute_found gid aid body d a Ha) as (_ & ->);
        now rewrite (Hbody a).
  - now apply in_attribute_missing.
Qed.

Lemma in_field_missing gid aid i j body d :
  field_at gid aid i j d = None -> in_field gid aid i j body d = (d, []).
Proof.
  intros H. unfold in_field. apply in_attribute_unchanged. intros a Ha.
  unfold field_at, row_at, rows_at in H. rewrite Ha in H. cbn [option_map] in H.
  destruct (children a !! i) as [row|] eqn:Hrow.
  - rewrite (update_at_lookup i _ _ row Hrow), (update_at_none j _ _ H). cbn [fst snd].
    rewrite list_insert_id by exact Hrow. now rewrite set_children_same.
  - rewrite (update_at_none i _ _ Hrow). now rewrite set_children_same.
Qed.

Lemma produce_unchanged recipe st :
  recipe (groupSelected st) = (groupSelected st, []) -> produce recipe st = (st, []).
Proof.
  intros H. unfold produce. rewrite H. now rewrite set_groupSelected_same.
Qed.

Lemma row_at_lookup gid aid d rows i :
  rows_at gid aid d = Some rows -> row_at gid aid i d = rows !! i.
Proof. unfold row_at. now intros ->. Qed.

(** ** Adding a row *)

Lemma newRow_lookup fields j d :
  fields !! j = Some d ->
  newRow fields !! j
  = Some {| item_id := field_id d; item_title := field_title d;
            item_value := Some (if String.eqb (field_type d) "checkbox"
                                then JArr [] else JStr "") |}.
Proof.
  intros H. unfold newRow. rewrite list_lookup_fmap. now rewrite H.
Qed.

Lemma newRow_labels fields : map field_label (newRow fields) = map definition_label fields.
Proof. unfold newRow. rewrite map_map. reflexivity. Qed.

(** X3.  [handleAddAttributeRow] on an instance of the active group whose
    template is among the order templates and has fields: one row is
    appended after the rows there were, without a toast; the row has one
    field per field definition, in order, with the definition's id and
    title, holding the empty array when the type is ["checkbox"] and the
    empty string otherwise. *)
Theorem handleAddAttributeRow_appends memoriez aid st gid rows def fields :
  activeGroupId st = Some gid -> gid <> "" ->
  find (fun att => String.eqb (def_id att) aid) (atts memoriez) = Some def ->
  def_children def = Some fields ->
  rows_at gid aid (groupSelected st) = Some rows ->
  rows_at gid aid (groupSelected (fst (handleAddAttributeRow (atts memoriez) aid st)))
  = Some (rows ++ [newRow fields])
  /\ snd (handleAddAttributeRow (atts memoriez) aid st) = []
  /\ length (newRow fields) = length fields
  /\ (forall j d,
        fields !! j = Some d ->
        newRow fields !! j
        = Some {| item_id := field_id d; item_title := field_title d;
                  item_value := Some (if String.eqb (field_type d) "checkbox"
                                      then JArr [] else JStr "") |}).
Proof.
  intros Hact Hgid Hfind Hch Hrows.
  destruct (active_truthy st gid Hact Hgid) as (Hf & Hd).
  unfold handleAddAttributeRow. rewrite Hf, Hd, Hfind.
  destruct def as [i t m ch]. cbn [def_children] in Hch. subst ch.
  rewrite produce_groupSelected, produce_toasts.
  match goal with
  | |- context [in_attribute gid aid ?b _] =>
      destruct (rows_at_in_attribute gid aid b (groupSelected st) rows Hrows)
        as (a & Ha & <- & -> & ->)
  end; [reflexivity|].
  cbn [fst snd children set_children]. repeat split.
  - unfold newRow. now rewrite length_map.
  - apply newRow_lookup.
Qed.

Lemma handleAddAttributeRow_appends_witness :
  rows_at "g1" "7"
    (groupSelected (fst (handleAddAttributeRow (atts [box_template]) "7" two_groups)))
  = Some ([[sample_item]]
            ++ [newRow [ {| field_id := "f1"; field_title := "Size"; field_type := "text" |} ]]).
Proof.
  apply (handleAddAttributeRow_appends [box_template] "7" two_groups "g1" [[sample_item]]
           box_template).
  - reflexivity.
  - discriminate.
  - reflexivity.
  - reflexivity.
  - reflexivity.
Defined.

Lemma find_atts_none memoriez aid :
  (forall att, In att memoriez -> def_id att = aid -> def_mapto att <> Some "order") ->
  find (fun att => String.eqb (def_id att) aid) (atts memoriez) = None.
Proof.
  intros H. unfold atts. induction memoriez as [|att l IH]; [reflexivity|].
  cbn [List.filter].
  assert (IH' : find (fun att => String.eqb (def_id att) aid)
                  (List.filter (fun item => match def_mapto item with
                                            | Some m => String.eqb m "order"
                                            | None => false
                                            end) l) = None).
  { apply IH. intros x Hx. apply H. now right. }
  destruct (def_mapto att) as [m|] eqn:Em; [|exact IH'].
  destruct (String.eqb_spec m "order") as [->|Hm]; [|exact IH'].
  cbn [find]. destruct (String.eqb_spec (def_id att) aid) as [E|E]; [|exact IH'].
  destruct (H att (or_introl eq_refl) E). exact Em.
Qed.

(** X4.  [handleAddAttributeRow] without a usable template: when every
    definition with that id is mapped elsewhere than to ["order"] (none at
    all, or only user templates), or when the order template found has no
    [children], the state stays as it is and the error toast is raised;
    when the template is usable but the active group has no instance with
    that id, nothing changes and nothing is raised. *)
Theorem handleAddAttributeRow_unresolved memoriez aid st gid :
  activeGroupId st = Some gid -> gid <> "" ->
  ((forall att, In att memoriez -> def_id att = aid -> def_mapto att <> Some "order") ->
   handleAddAttributeRow (atts memoriez) aid st
   = (st, [toast_error "Attribute definition not found or has no fields."]))
  /\ (forall def,
        find (fun att => String.eqb (def_id att) aid) (atts memoriez) = Some def ->
        def_children def = None ->
        handleAddAttributeRow (atts memoriez) aid st
        = (st, [toast_error "Attribute definition not found or has no fields."]))
  /\ (forall def fields,
        find (fun att => String.eqb (def_id att) aid) (atts memoriez) = Some def ->
        def_children def = Some fields ->
        attribute_at gid aid (groupSelected st) = None ->
        handleAddAttributeRow (atts memoriez) aid st = (st, [])).
Proof.
  intros Hact Hgid. destruct (active_truthy st gid Hact Hgid) as (Hf & Hd).
  split; [|split].
  - intros H. unfold handleAddAttributeRow. now rewrite Hf, (find_atts_none _ _ H).
  - intros def Hfind Hch. unfold handleAddAttributeRow. rewrite Hf, Hfind.
    destruct def as [i t m ch]. cbn [def_children] in Hch. now subst ch.
  - intros def fields Hfind Hch Hnone. unfold handleAddAttributeRow. rewrite Hf, Hd, Hfind.
    destruct def as [i t m ch]. cbn [def_children] in Hch. subst ch.
    apply produce_unchanged. now apply in_attribute_missing.
Qed.

Lemma handleAddAttributeRow_unresolved_witness :
  handleAddAttributeRow (atts [user_template]) "7" two_groups
  = (two_groups, [toast_error "Attribute definition not found or has no fields."]).
Proof.
  apply (proj1 (handleAddAttributeRow_unresolved [user_template] "7" two_groups "g1"
                  eq_refl ltac:(discriminate))).
  intros att [<-|[]] _. discriminate.
Defined.

(** ** Deleting a row *)

Lemma splice_out_ge {A : Type} i (l : list A) : length l <= i -> splice_out i l = l.
Proof.
  intros H. unfold splice_out. rewrite take_ge by exact H.
  rewrite drop_ge by lia. apply app_nil_r.
Qed.

Lemma splice_out_lookup_lt {A : Type} i j (l : list A) :
  j < i -> splice_out i l !! j = l !! j.
Proof.
  intros H. unfold splice_out. destruct (decide (j < length l)) as [Hj|Hj].
  - rewrite lookup_app_l by (rewrite length_take; lia). now apply lookup_take_lt.
  - rewrite (lookup_ge_None_2 l j) by lia. apply lookup_ge_None_2.
    rewrite length_app, length_take, length_drop. lia.
Qed.

Lemma splice_out_lookup_ge {A : Type} i j (l : list A) :
  i <= j -> splice_out i l !! j = l !! S j.
Proof.
  intros H. unfold splice_out. destruct (decide (i <= length l)) as [Hi|Hi].
  - rewrite lookup_app_r by (rewrite length_take; lia).
    rewrite length_take, lookup_drop. f_equal. lia.
  - rewrite take_ge, drop_ge, app_nil_r by lia.
    rewrite (lookup_ge_None_2 l (S j)) by lia. apply lookup_ge_None_2. lia.
Qed.

Lemma splice_out_length {A : Type} i (l : list A) :
  i < length l -> length (splice_out i l) = length l - 1.
Proof.
  intros H. unfold splice_out. rewrite length_app, length_take, length_drop. lia.
Qed.

(** X5.  [handleDeleteAttributeRow] on an instance of the active group:
    when the dialog is declined nothing changes; when it is accepted the
    row at the index is taken out, the rows before keep their index, the
    rows after move up by one and the count drops by one, without a toast;
    an index past the last row leaves the state as it is. *)
Theorem handleDeleteAttributeRow_outcome confirmed aid i st gid rows :
  activeGroupId st = Some gid -> gid <> "" ->
  rows_at gid aid (groupSelected st) = Some rows ->
  (confirmed = false -> handleDeleteAttributeRow confirmed aid i st = (st, []))
  /\ (confirmed = true ->
      snd (handleDeleteAttributeRow confirmed aid i st) = []
      /\ exists rows',
          rows_at gid aid (groupSelected (fst (handleDeleteAttributeRow confirmed aid i st)))
          = Some rows'
          /\ (forall j, j < i -> rows' !! j = rows !! j)
          /\ (forall j, i <= j -> rows' !! j = rows !! S j)
          /\ (i < length rows -> length rows' = length rows - 1)
          /\ (length rows <= i ->
              handleDeleteAttributeRow confirmed aid i st = (st, []))).
Proof.
  intros Hact Hgid Hrows. destruct (active_truthy st gid Hact Hgid) as (Hf & Hd).
  split.
  - intros ->. unfold handleDeleteAttributeRow. now rewrite Hf.
  - intros ->. unfold handleDeleteAttributeRow. rewrite Hf, Hd. cbn [negb].
    rewrite produce_groupSelected, produce_toasts.
    match goal with
    | |- context [in_attribute gid aid ?b _] =>
        destruct (rows_at_in_attribute gid aid b (groupSelected st) rows Hrows)
          as (a & Ha & <- & Hr & Ht); [reflexivity|]
    end.
    split; [exact Ht|]. exists (splice_out i (children a)). split; [exact Hr|].
    split; [intros j; apply splice_out_lookup_lt|].
    split; [intros j; apply splice_out_lookup_ge|].
    split; [apply splice_out_length|].
    intros Hge. apply produce_unchanged. apply in_attribute_unchanged.
    intros a' Ha'. rewrite Ha in Ha'. injection Ha' as <-.
    rewrite splice_out_ge by exact Hge. now rewrite set_children_same.
Qed.

Lemma handleDeleteAttributeRow_outcome_witness :
  snd (handleDeleteAttributeRow true "7" 0 two_groups) = []
  /\ exists rows',
      rows_at "g1" "7" (groupSelected (fst (handleDeleteAttributeRow true "7" 0 two_groups)))
      = Some rows'
      /\ (forall j, j < 0 -> rows' !! j = [[sample_item]] !! j)
      /\ (forall j, 0 <= j -> rows' !! j = [[sample_item]] !! S j)
      /\ (0 < length [[sample_item]] -> length rows' = length [[sample_item]] - 1)
      /\ (length [[sample_item]] <= 0 ->
          handleDeleteAttributeRow true "7" 0 two_groups = (two_groups, [])).
Proof.
  apply (proj2 (handleDeleteAttributeRow_outcome true "7" 0 two_groups "g1" [[sample_item]]
                  eq_refl ltac:(discriminate) eq_refl)).
  reflexivity.
Defined.

(** ** Deleting an instance *)

Lemma find_filter_none {A : Type} (p : A -> bool) (l : list A) :
  find p (List.filter (fun x => negb (p x)) l) = None.
Proof.
  induction l as [|x l IH]; cbn [List.filter]; [reflexivity|].
  destruct (p x) eqn:E; cbn [negb]; [exact IH|]. cbn [find]. now rewrite E.
Qed.

Lemma find_filter_other {A : Type} (p q : A -> bool) (l : list A) :
  (forall x, p x = true -> q x = true) -> find p (List.filter q l) = find p l.
Proof.
  intros H. induction l as [|x l IH]; cbn [List.filter find]; [reflexivity|].
  destruct (q x) eqn:Eq; cbn [find].
  - now rewrite IH.
  - destruct (p x) eqn:Ep; [|exact IH]. rewrite (H x Ep) in Eq. discriminate.
Qed.

(** X6.  [handleDeleteAttributeInstance] in the active group: declined, it
    changes nothing; accepted, it removes from that group every instance
    with the id, rows and all, so that the id resolves to nothing
    afterwards, while every other instance of the group is found as before
    and the other groups are untouched; no toast is raised. *)
Theorem handleDeleteAttributeInstance_outcome confirmed aid st gid pre g post :
  activeGroupId st = Some gid -> gid <> "" ->
  groupSelected st = pre ++ g :: post ->
  Forall (fun x => group_id x <> gid) pre -> group_id g = gid ->
  (confirmed = false -> handleDeleteAttributeInstance confirmed aid st = (st, []))
  /\ (confirmed = true ->
      handleDeleteAttributeInstance confirmed aid st
      = (set_groupSelected
           (pre ++ {| group_id := group_id g; group_title := group_title g;
                      attributes :=
                        List.filter (fun attr => negb (has_attr_id aid attr)) (attributes g) |}
                :: post) st, [])
      /\ attribute_at gid aid
           (groupSelected (fst (handleDeleteAttributeInstance confirmed aid st))) = None
      /\ (forall other,
            other <> aid ->
            attribute_at gid other
              (groupSelected (fst (handleDeleteAttributeInstance confirmed aid st)))
            = attribute_at gid other (groupSelected st))).
Proof.
  intros Hact Hgid Hsplit Hpre Hg. destruct (active_truthy st gid Hact Hgid) as (Hf & Hd).
  apply not_group_id in Hpre. apply has_group_id_eq in Hg.
  split.
  - intros ->. unfold handleDeleteAttributeInstance. now rewrite Hf.
  - intros ->.
    assert (Hh : handleDeleteAttributeInstance true aid st
                 = (set_groupSelected
                      (pre ++ {| group_id := group_id g; group_title := group_title g;
                                 attributes :=
                                   List.filter (fun attr => negb (has_attr_id aid attr))
                                     (attributes g) |} :: post) st, [])).
    { unfold handleDeleteAttributeInstance, produce. rewrite Hf, Hd, Hsplit. cbn [negb].
      now rewrite (update_first_split _ _ pre g post Hpre Hg). }
    rewrite Hh. cbn [fst groupSelected set_groupSelected]. split; [reflexivity|].
    unfold attribute_at. rewrite Hsplit.
    rewrite !find_first by assumption. cbn [attributes]. split.
    + apply find_filter_none.
    + intros other Hne. apply find_filter_other. intros a Ha.
      apply has_attr_id_eq in Ha. apply negb_true_iff.
      destruct (has_attr_id aid a) eqn:E; [|reflexivity].
      apply has_attr_id_eq in E. congruence.
Qed.

Lemma handleDeleteAttributeInstance_outcome_witness :
  attribute_at "g1" "7"
    (groupSelected (fst (handleDeleteAttributeInstance true "7" two_groups))) = None.
Proof.
  apply (proj2 (handleDeleteAttributeInstance_outcome true "7" two_groups "g1" []
                  sample_group [other_group] eq_refl ltac:(discriminate) eq_refl
                  ltac:(constructor) eq_refl)).
  reflexivity.
Defined.

(** ** Setting a field *)

(** X7.  [handleUpdateFieldValue] on a field that exists in the active
    group replaces its value and nothing else: the field keeps its id and
    title, the other fields of the row and the other rows of the instance
    are as before, the row count stays, and no toast is raised; when the
    row or the field does not exist the state is left as it is, silently. *)
Theorem handleUpdateFieldValue_outcome aid i j newValue st gid :
  activeGroupId st = Some gid -> gid <> "" ->
  (forall field,
     field_at gid aid i j (groupSelected st) = Some field ->
     let st' := fst (handleUpdateFieldValue aid i j newValue st) in
     field_at gid aid i j (groupSelected st')
     = Some {| item_id := item_id field; item_title := item_title field;
               item_value := newValue |}
     /\ (forall j', j' <> j ->
           field_at gid aid i j' (groupSelected st') = field_at gid aid i j' (groupSelected st))
     /\ (forall i', i' <> i ->
           row_at gid aid i' (groupSelected st') = row_at gid aid i' (groupSelected st))
     /\ option_map (@length _) (rows_at gid aid (groupSelected st'))
        = option_map (@length _) (rows_at gid aid (groupSelected st))
     /\ snd (handleUpdateFieldValue aid i j newValue st) = [])
  /\ (field_at gid aid i j (groupSelected st) = None ->
      handleUpdateFieldValue aid i j newValue st = (st, [])).
Proof.
  intros Hact Hgid. destruct (active_truthy st gid Hact Hgid) as (Hf & Hd).
  split.
  - intros field Hfield st'. subst st'. unfold handleUpdateFieldValue. rewrite Hf, Hd.
    rewrite produce_groupSelected, produce_toasts.
    pose proof Hfield as Hfield'. unfold field_at, row_at in Hfield'.
    destruct (rows_at gid aid (groupSelected st)) as [rows|] eqn:Hrows; [|discriminate].
    destruct (rows !! i) as [row|] eqn:Hrow; [|discriminate].
    set (body := fun field0 : AttributeItem => (set_value newValue field0, @nil Toast)).
    destruct (rows_at_in_field gid aid i j body _ rows row field Hrows Hrow Hfield')
      as (Hr & Ht).
    split; [|split; [|split; [|split]]].
    + now destruct (field_at_in_field gid aid i j body _ field Hfield) as (-> & _).
    + intros j' Hne. unfold field_at, row_at. rewrite Hr, Hrows.
      rewrite list_lookup_insert_eq by (eapply lookup_lt_Some; eassumption).
      rewrite Hrow. now apply list_lookup_insert_ne.
    + intros i' Hne. now apply row_at_in_field_other.
    + rewrite Hr. cbn [option_map]. now rewrite length_insert.
    + exact Ht.
  - intros Hnone. unfold handleUpdateFieldValue. rewrite Hf, Hd.
    apply produce_unchanged. now apply in_field_missing.
Qed.

Lemma handleUpdateFieldValue_outcome_witness :
  field_at "g1" "7" 0 0
    (groupSelected (fst (handleUpdateFieldValue "7" 0 0 (Some (JStr "M")) two_groups)))
  = Some {| item_id := "f1"; item_title := "Size"; item_value := Some (JStr "M") |}.
Proof.
  apply (proj1 (handleUpdateFieldValue_outcome "7" 0 0 (Some (JStr "M")) two_groups "g1"
                  eq_refl ltac:(discriminate)) sample_item).
  reflexivity.
Defined.

(** ** One recipe after another *)

Lemma update_first_ext {A : Type} (p : A -> bool) f g (l : list A) :
  (forall x, f x = g x) -> update_first p f l = update_first p g l.
Proof.
  intros H. induction l as [|x l IH]; cbn [update_first]; [reflexivity|].
  now rewrite H, IH.
Qed.

Lemma update_at_ext {A : Type} i f g (l : list A) :
  (forall x, f x = g x) -> update_at i f l = update_at i g l.
Proof.
  intros H. revert i. induction l as [|x l IH]; intros [|i]; cbn [update_at];
    try reflexivity; [now rewrite H | now rewrite IH].
Qed.

Lemma update_first_compose {A : Type} (p : A -> bool) f g (l : list A) :
  (forall x, p (fst (f x)) = p x) ->
  fst (update_first p g (fst (update_first p f l)))
  = fst (update_first p (fun x => g (fst (f x))) l).
Proof.
  intros Hp. induction l as [|x l IH]; cbn [update_first]; [reflexivity|].
  destruct (p x) eqn:E.
  - specialize (Hp x). destruct (f x) as [y t]. cbn [fst update_first] in *.
    rewrite Hp, E. now destruct (g y).
  - destruct (update_first p f l) as [l1 t1]. cbn [fst update_first] in *.
    rewrite E. destruct (update_first p g l1) as [l2 t2].
    destruct (update_first p (fun x => g (fst (f x))) l) as [l3 t3].
    cbn [fst] in *. now subst.
Qed.

Lemma update_at_compose {A : Type} i f g (l : list A) :
  fst (update_at i g (fst (update_at i f l)))
  = fst (update_at i (fun x => g (fst (f x))) l).
Proof.
  revert i. induction l as [|x l IH]; intros [|i]; cbn [update_at]; try reflexivity.
  - destruct (f x) as [y t]. cbn [fst update_at]. now destruct (g y).
  - specialize (IH i). destruct (update_at i f l) as [l1 t1]. cbn [fst update_at] in *.
    destruct (update_at i g l1) as [l2 t2].
    destruct (update_at i (fun x => g (fst (f x))) l) as [l3 t3]. cbn [fst] in *.
    now subst.
Qed.

Lemma update_first_fst_ext {A : Type} (p : A -> bool) f g (l : list A) :
  (forall x, fst (f x) = fst (g x)) ->
  fst (update_first p f l) = fst (update_first p g l).
Proof.
  intros H. induction l as [|x l IH]; cbn [update_first]; [reflexivity|].
  destruct (p x).
  - specialize (H x). destruct (f x), (g x). cbn [fst] in *. now subst.
  - destruct (update_first p f l), (update_first p g l). cbn [fst] in *. now subst.
Qed.

Lemma in_attribute_compose gid aid b1 b2 d :
  (forall a, attr_id (fst (b1 a)) = attr_id a) ->
  fst (in_attribute gid aid b2 (fst (in_attribute gid aid b1 d)))
  = fst (in_attribute gid aid (fun a => b2 (fst (b1 a))) d).
Proof.
  intros Hid. unfold in_attribute. rewrite update_first_compose.
  - apply update_first_fst_ext. intros g.
    pose proof (update_first_compose (has_attr_id aid) b1 b2 (attributes g)) as H.
    destruct (update_first (has_attr_id aid) b1 (attributes g)) as [l1 t1].
    cbn [fst attributes set_attributes] in *.
    destruct (update_first (has_attr_id aid) b2 l1) as [l2 t2].
    destruct (update_first (has_attr_id aid) (fun a => b2 (fst (b1 a))) (attributes g))
      as [l3 t3].
    cbn [fst] in *. rewrite <- H; [reflexivity|].
    intros a. unfold has_attr_id. now rewrite Hid.
  - intros g. now destruct (update_first (has_attr_id aid) b1 (attributes g)).
Qed.

(** Two recipes that agree on what they leave of the draft. *)
Lemma in_attribute_fst_ext gid aid b1 b2 d :
  (forall a, fst (b1 a) = fst (b2 a)) ->
  fst (in_attribute gid aid b1 d) = fst (in_attribute gid aid b2 d).
Proof.
  intros H. unfold in_attribute. apply update_first_fst_ext. intros g.
  pose proof (update_first_fst_ext (has_attr_id aid) b1 b2 (attributes g) H) as E.
  destruct (update_first (has_attr_id aid) b1 (attributes g)),
    (update_first (has_attr_id aid) b2 (attributes g)). cbn [fst] in *. now subst.
Qed.

Lemma update_at_fst_ext {A : Type} i f g (l : list A) :
  (forall x, fst (f x) = fst (g x)) -> fst (update_at i f l) = fst (update_at i g l).
Proof.
  intros H. revert i. induction l as [|x l IH]; intros [|i]; cbn [update_at];
    try reflexivity.
  - specialize (H x). destruct (f x), (g x). cbn [fst] in *. now subst.
  - specialize (IH i). destruct (update_at i f l), (update_at i g l).
    cbn [fst] in *. now subst.
Qed.

Lemma in_field_compose gid aid i j b1 b2 d :
  fst (in_field gid aid i j b2 (fst (in_field gid aid i j b1 d)))
  = fst (in_field gid aid i j (fun f => b2 (fst (b1 f))) d).
Proof.
  unfold in_field. rewrite in_attribute_compose.
  - apply in_attribute_fst_ext. intros a.
    pose proof (update_at_compose i (update_at j b1) (update_at j b2) (children a)) as H.
    pose proof (update_at_fst_ext i
                  (fun x => update_at j b2 (fst (update_at j b1 x)))
                  (update_at j (fun f => b2 (fst (b1 f)))) (children a)
                  (fun x => update_at_compose j b1 b2 x)) as E.
    destruct (update_at i (update_at j b1) (children a)) as [r1 t1].
    cbn [fst children set_children] in *.
    destruct (update_at i (update_at j b2) r1) as [r2 t2].
    destruct (update_at i (fun x => update_at j b2 (fst (update_at j b1 x))) (children a)).
    destruct (update_at i (update_at j (fun f => b2 (fst (b1 f)))) (children a)).
    cbn [fst] in *. now subst.
  - intros a. now destruct (update_at i (update_at j b1) (children a)).
Qed.

(** A recipe that gives every attribute, or every field, back as it was. *)
Lemma in_attribute_fst_id gid aid body d :
  (forall a, attribute_at gid aid d = Some a -> fst (body a) = a) ->
  fst (in_attribute gid aid body d) = d.
Proof.
  intros H. destruct (attribute_at gid aid d) as [a|] eqn:Ha.
  - apply (in_attribute_same gid aid body d a Ha), H. reflexivity.
  - now rewrite in_attribute_missing.
Qed.

Lemma in_field_fst_id gid aid i j body d :
  (forall f, field_at gid aid i j d = Some f -> fst (body f) = f) ->
  fst (in_field gid aid i j body d) = d.
Proof.
  intros H. destruct (field_at gid aid i j d) as [f|] eqn:Hf.
  - apply (in_field_same gid aid i j body d f Hf), H. reflexivity.
  - now rewrite in_field_missing.
Qed.

Lemma handler_state_eq (st st' : State) :
  groupSelected st' = groupSelected st -> activeGroupId st' = activeGroupId st ->
  savedGroupData st' = savedGroupData st -> st' = st.
Proof. destruct st, st'. cbn. now intros -> -> ->. Qed.

(** ** Edits that undo each other *)

Lemma produce_twice r1 r2 st :
  fst (produce r2 (fst (produce r1 st)))
  = set_groupSelected (fst (r2 (fst (r1 (groupSelected st))))) st.
Proof.
  unfold produce. destruct (r1 (groupSelected st)) as [d1 t1].
  cbn [fst groupSelected set_groupSelected].
  now destruct (r2 d1).
Qed.

Lemma produce_fst recipe st :
  fst (produce recipe st) = set_groupSelected (fst (recipe (groupSelected st))) st.
Proof. unfold produce. now destruct (recipe (groupSelected st)). Qed.

(** X8.  Of two values set in the same field one after the other only the
    second is left, whatever the state; and setting a value and then the
    value the field had before gives back the state as it was, so a
    document that was clean is clean again. *)
Theorem handleUpdateFieldValue_last_wins aid i j v1 v2 st :
  fst (handleUpdateFieldValue aid i j v2 (fst (handleUpdateFieldValue aid i j v1 st)))
  = fst (handleUpdateFieldValue aid i j v2 st)
  /\ (forall gid field,
        activeGroupId st = Some gid ->
        field_at gid aid i j (groupSelected st) = Some field ->
        v2 = item_value field ->
        fst (handleUpdateFieldValue aid i j v2 (fst (handleUpdateFieldValue aid i j v1 st)))
        = st).
Proof.
  assert (Hfirst :
    fst (handleUpdateFieldValue aid i j v2 (fst (handleUpdateFieldValue aid i j v1 st)))
    = fst (handleUpdateFieldValue aid i j v2 st)).
  { unfold handleUpdateFieldValue at 2 3.
    destruct (falsy (activeGroupId st)) eqn:Hf.
    - cbn [fst]. unfold handleUpdateFieldValue. now rewrite Hf.
    - unfold handleUpdateFieldValue. rewrite produce_activeGroupId, Hf.
      rewrite produce_twice, produce_fst. f_equal.
      rewrite in_field_compose. reflexivity. }
  split; [exact Hfirst|].
  intros gid field Hact Hfield ->. rewrite Hfirst.
  unfold handleUpdateFieldValue. destruct (falsy (activeGroupId st)); [reflexivity|].
  rewrite Hact. cbn [default from_option id]. rewrite produce_fst.
  rewrite in_field_fst_id; [apply set_groupSelected_same|].
  intros f Hf. rewrite Hfield in Hf. injection Hf as <-. cbn [fst].
  apply set_value_same.
Qed.

Lemma handleUpdateFieldValue_last_wins_witness :
  fst (handleUpdateFieldValue "7" 0 0 (Some (JStr "XL"))
         (fst (handleUpdateFieldValue "7" 0 0 (Some (JStr "XLL")) two_groups)))
  = two_groups.
Proof.
  apply (proj2 (handleUpdateFieldValue_last_wins "7" 0 0 (Some (JStr "XLL"))
                  (Some (JStr "XL")) two_groups) "g1" sample_item);
    reflexivity.
Defined.

Lemma splice_out_snoc {A : Type} (l : list A) x : splice_out (length l) (l ++ [x]) = l.
Proof.
  unfold splice_out. rewrite take_app_length.
  rewrite drop_ge by (rewrite length_app; cbn [length]; lia). apply app_nil_r.
Qed.

(** X9.  A row added to an instance of the active group and then deleted
    (the row past the rows there were, the dialog accepted) leaves the state
    as it was before the two, whether the template was found or not. *)
Theorem addRow_then_deleteRow memoriez aid st gid rows :
  activeGroupId st = Some gid -> gid <> "" ->
  rows_at gid aid (groupSelected st) = Some rows ->
  fst (handleDeleteAttributeRow true aid (length rows)
         (fst (handleAddAttributeRow (atts memoriez) aid st)))
  = st.
Proof.
  intros Hact Hgid Hrows. destruct (active_truthy st gid Hact Hgid) as (Hf & Hd).
  assert (Hnoop : fst (handleDeleteAttributeRow true aid (length rows) st) = st).
  { unfold handleDeleteAttributeRow. rewrite Hf, Hd. cbn [negb]. rewrite produce_fst.
    rewrite in_attribute_fst_id; [apply set_groupSelected_same|].
    intros a Ha. cbn [fst]. unfold rows_at in Hrows. rewrite Ha in Hrows.
    injection Hrows as <-. rewrite splice_out_ge by lia. apply set_children_same. }
  unfold handleAddAttributeRow. rewrite Hf, Hd.
  destruct (find _ (atts memoriez)) as [[i t m [fields|]]|]; try exact Hnoop.
  unfold handleDeleteAttributeRow. rewrite produce_activeGroupId, Hf, Hact. cbn [negb default from_option id].
  rewrite produce_twice, in_attribute_compose by reflexivity.
  rewrite in_attribute_fst_id; [apply set_groupSelected_same|].
  intros a Ha. unfold rows_at in Hrows. rewrite Ha in Hrows.
  injection Hrows as <-. destruct a as [ai ati ach].
  cbn [fst children set_children attr_id attr_title]. now rewrite splice_out_snoc.
Qed.

Lemma addRow_then_deleteRow_witness :
  fst (handleDeleteAttributeRow true "7" (length [[sample_item]])
         (fst (handleAddAttributeRow (atts [box_template]) "7" two_groups)))
  = two_groups.
Proof.
  apply (addRow_then_deleteRow [box_template] "7" two_groups "g1" [[sample_item]]).
  - reflexivity.
  - discriminate.
  - reflexivity.
Defined.

Lemma splice_out_splice_in {A : Type} i x (l : list A) :
  i <= length l -> splice_out i (splice_in i x l) = l.
Proof.
  intros H. unfold splice_out, splice_in.
  rewrite take_app_length' by (rewrite length_take; lia).
  rewrite drop_app_ge by (rewrite length_take; lia).
  rewrite length_take. replace (S i - i `min` length l) with 1 by lia.
  cbn [drop]. rewrite drop_0. apply take_drop.
Qed.

(** X10.  A row duplicated and its copy deleted (the row after it, the
    dialog accepted) leaves the state as it was; so does the pair when the
    index names no row. *)
Theorem duplicateRow_then_deleteRow aid i st gid rows :
  activeGroupId st = Some gid -> gid <> "" ->
  rows_at gid aid (groupSelected st) = Some rows ->
  (forall row, rows !! i = Some row -> Forall well_formed_item row) ->
  fst (handleDeleteAttributeRow true aid (i + 1) (fst (handleDuplicateAttributeRow aid i st)))
  = st.
Proof.
  intros Hact Hgid Hrows Hwf. destruct (active_truthy st gid Hact Hgid) as (Hf & Hd).
  unfold handleDuplicateAttributeRow. rewrite Hf, Hd.
  unfold handleDeleteAttributeRow. rewrite produce_activeGroupId, Hf, Hact. cbn [negb default from_option id].
  rewrite produce_twice, in_attribute_compose.
  - rewrite in_attribute_fst_id; [apply set_groupSelected_same|].
    intros a Ha. unfold rows_at in Hrows. rewrite Ha in Hrows. injection Hrows as <-.
    destruct (children a !! i) as [row|] eqn:Hrow.
    + rewrite (deep_copy_id row (Hwf row eq_refl)). apply lookup_lt_Some in Hrow.
      destruct a as [ai ati ach].
      cbn [fst children set_children attr_id attr_title] in *.
      rewrite splice_out_splice_in by lia. reflexivity.
    + cbn [fst]. rewrite splice_out_ge; [apply set_children_same|].
      apply lookup_ge_None in Hrow. lia.
  - intros a. destruct (children a !! i); [destruct (deep_copy _)|]; reflexivity.
Qed.

Lemma duplicateRow_then_deleteRow_witness :
  fst (handleDeleteAttributeRow true "7" (0 + 1)
         (fst (handleDuplicateAttributeRow "7" 0 two_groups)))
  = two_groups.
Proof.
  apply (duplicateRow_then_deleteRow "7" 0 two_groups "g1" [[sample_item]]).
  - reflexivity.
  - discriminate.
  - reflexivity.
  - intros row [= <-]. repeat constructor.
Defined.

(** ** Removing a checkbox value *)

Lemma strict_equals_euclid a b c :
  strict_equals a c = true -> strict_equals b c = true -> strict_equals a b = true.
Proof.
  destruct a as [[| | | | |]|], c as [[| | | | |]|]; cbn; try discriminate;
    destruct b as [[| | | | |]|]; cbn; try discriminate; try reflexivity.
  - intros H1 H2. apply Bool.eqb_prop in H1, H2. subst. apply Bool.eqb_reflx.
  - intros H1 H2. apply Z.eqb_eq in H1, H2. subst. apply Z.eqb_refl.
  - intros H1 H2. apply String.eqb_eq in H1, H2. subst. apply String.eqb_refl.
Qed.

Lemma findIndex_some {A : Type} (p : A -> bool) l n :
  findIndex p l = Some n ->
  exists x, l !! n = Some x /\ p x = true /\ Forall (fun y => p y = false) (take n l).
Proof.
  revert n. induction l as [|y l IH]; intros n; cbn [findIndex]; [discriminate|].
  destruct (p y) eqn:E.
  - intros [= <-]. exists y. repeat split; [exact E | constructor].
  - destruct (findIndex p l) as [m|]; [|discriminate]. cbn [option_map].
    intros [= <-]. destruct (IH m eq_refl) as (x & Hx & Hp & Hall).
    exists x. repeat split; [exact Hx | exact Hp |]. cbn [take]. now constructor.
Qed.

Lemma findIndex_snoc {A : Type} (p : A -> bool) l x :
  Forall (fun y => p y = false) l -> p x = true -> findIndex p (l ++ [x]) = Some (length l).
Proof.
  induction 1 as [|y l Hy _ IH]; intros Hx; cbn [app findIndex length].
  - now rewrite Hx.
  - rewrite Hy, (IH Hx). reflexivity.
Qed.

Lemma distinct_ids_lookup vs a b va vb :
  distinct_ids vs -> a < b -> vs !! a = Some va -> vs !! b = Some vb ->
  same_id va vb = false.
Proof.
  revert a b. induction vs as [|v vs IH]; intros a b Hd Hab Ha Hb; [discriminate|].
  cbn [distinct_ids] in Hd. destruct Hd as [Hv Hd].
  destruct b as [|b]; [lia|]. cbn in Hb. destruct a as [|a].
  - cbn in Ha. injection Ha as <-. rewrite Forall_forall in Hv. apply Hv.
    eapply list_elem_of_lookup_2. exact Hb.
  - cbn in Ha. apply (IH a b); auto. lia.
Qed.

Lemma removed_id_gone vs item n :
  distinct_ids vs ->
  findIndex (fun v => same_id v item) vs = Some n ->
  Forall (fun w => same_id w item = false) (splice_out n vs).
Proof.
  intros Hd Hn. destruct (findIndex_some _ _ _ Hn) as (v & Hv & Hp & Hbefore).
  unfold splice_out. apply Forall_app. split; [exact Hbefore|].
  apply Forall_lookup. intros k w Hw. rewrite lookup_drop in Hw.
  destruct (same_id w item) eqn:E; [|reflexivity].
  assert (Hvw : same_id v w = true) by (unfold same_id in *; eapply strict_equals_euclid; eauto).
  rewrite (distinct_ids_lookup vs n (S n + k) v w Hd ltac:(lia) Hv Hw) in Hvw. discriminate.
Qed.

(** X11.  Removing an entry of a checkbox array in the active group, as the
    remove button does: declined, nothing changes; accepted with no entry of
    that id, the state stays as it is and the not-found toast is raised;
    accepted with such an entry, the first of them is taken out, the others
    keep their order, no toast is raised, and when the ids were distinct no
    entry with that id is left. *)
Theorem handleDeleteCheckboxSingleValue_outcome confirmed aid i j valueToRemove st gid
    field vs :
  activeGroupId st = Some gid -> gid <> "" ->
  field_at gid aid i j (groupSelected st) = Some field ->
  item_value field = Some (JArr vs) ->
  (confirmed = false ->
   handleDeleteCheckboxSingleValue confirmed aid i j valueToRemove st = (st, []))
  /\ (confirmed = true ->
      Forall (fun v => same_id v valueToRemove = false) vs ->
      handleDeleteCheckboxSingleValue confirmed aid i j valueToRemove st
      = (st, [toast_error "Item not found to remove."]))
  /\ (forall n,
        confirmed = true ->
        findIndex (fun v => same_id v valueToRemove) vs = Some n ->
        field_at gid aid i j
          (groupSelected
             (fst (handleDeleteCheckboxSingleValue confirmed aid i j valueToRemove st)))
        = Some {| item_id := item_id field; item_title := item_title field;
                  item_value := Some (JArr (take n vs ++ drop (S n) vs)) |}
        /\ snd (handleDeleteCheckboxSingleValue confirmed aid i j valueToRemove st) = []
        /\ (distinct_ids vs ->
            Forall (fun w => same_id w valueToRemove = false)
              (take n vs ++ drop (S n) vs))).
Proof.
  intros Hact Hgid Hfield Hval. destruct (active_truthy st gid Hact Hgid) as (Hf & Hd).
  split; [|split].
  - intros ->. unfold handleDeleteCheckboxSingleValue. now rewrite Hf.
  - intros -> Hnone. unfold handleDeleteCheckboxSingleValue, handleUpdateCheckboxValue.
    rewrite Hf, Hd. cbn [negb].
    assert (Hbody : update_checkbox valueToRemove false field
                    = (field, [toast_error "Item not found to remove."])).
    { unfold update_checkbox. rewrite Hval.
      apply findIndex_none in Hnone. unfold same_id in Hnone. rewrite Hnone.
      rewrite <- Hval. now rewrite set_value_same. }
    apply injective_projections.
    + rewrite produce_fst. rewrite in_field_fst_id; [apply set_groupSelected_same|].
      intros f Hf'. rewrite Hfield in Hf'. injection Hf' as <-. now rewrite Hbody.
    + rewrite produce_toasts.
      destruct (field_at_in_field gid aid i j (update_checkbox valueToRemove false) _ field
                  Hfield) as (_ & ->). now rewrite Hbody.
  - intros n -> Hn. unfold handleDeleteCheckboxSingleValue, handleUpdateCheckboxValue.
    rewrite Hf, Hd. cbn [negb]. rewrite produce_groupSelected, produce_toasts.
    assert (Hbody : update_checkbox valueToRemove false field
                    = (set_value (Some (JArr (splice_out n vs))) field, [])).
    { unfold update_checkbox. rewrite Hval. unfold same_id in Hn. now rewrite Hn. }
    destruct (field_at_in_field gid aid i j (update_checkbox valueToRemove false) _ field
                Hfield) as (-> & ->).
    rewrite Hbody. repeat split. intros Hdist. now apply removed_id_gone.
Qed.

Lemma handleDeleteCheckboxSingleValue_outcome_witness :
  field_at "g1" "7" 0 0
    (groupSelected (fst (handleDeleteCheckboxSingleValue true "7" 0 0 red_entry two_entries)))
  = Some {| item_id := "f1"; item_title := "Size";
            item_value := Some (JArr [blue_entry]) |}.
Proof.
  apply (proj2 (proj2 (handleDeleteCheckboxSingleValue_outcome true "7" 0 0 red_entry
                         two_entries "g1"
                         {| item_id := "f1"; item_title := "Size";
                            item_value := Some (JArr [red_entry; blue_entry]) |}
                         [red_entry; blue_entry]
                         eq_refl ltac:(discriminate) eq_refl eq_refl)) 0);
    reflexivity.
Defined.

(** X12.  An entry added to a checkbox array that has none of its id, and
    then removed, leaves the state as it was before the two; the id of the
    entry is one [===] recognises again (a string, a number, a boolean,
    [null] or no id at all). *)
Theorem add_then_remove_checkbox aid i j item st gid field vs :
  activeGroupId st = Some gid -> gid <> "" ->
  field_at gid aid i j (groupSelected st) = Some field ->
  item_value field = Some (JArr vs) ->
  Forall (fun v => same_id v item = false) vs ->
  same_id item item = true ->
  fst (handleUpdateCheckboxValue aid i j item false
         (fst (handleUpdateCheckboxValue aid i j item true st)))
  = st.
Proof.
  intros Hact Hgid Hfield Hval Hnone Hself.
  destruct (active_truthy st gid Hact Hgid) as (Hf & Hd).
  unfold handleUpdateCheckboxValue at 2. rewrite Hf, Hd.
  unfold handleUpdateCheckboxValue. rewrite produce_activeGroupId, Hf, Hd.
  rewrite produce_twice, in_field_compose.
  rewrite in_field_fst_id; [apply set_groupSelected_same|].
  intros f Hf'. rewrite Hfield in Hf'. injection Hf' as <-.
  unfold update_checkbox at 2. rewrite Hval.
  pose proof Hnone as Hnone'. apply findIndex_none in Hnone'. unfold same_id in Hnone'.
  rewrite Hnone'. cbn [fst]. unfold update_checkbox. cbn [item_value set_value].
  pose proof (findIndex_snoc (fun v => same_id v item) vs item Hnone Hself) as Hlast.
  unfold same_id in Hlast. rewrite Hlast. cbn [fst].
  rewrite splice_out_snoc. destruct field as [fi ft fv]. cbn in *. now subst.
Qed.

Lemma add_then_remove_checkbox_witness :
  fst (handleUpdateCheckboxValue "7" 0 0 green_entry false
         (fst (handleUpdateCheckboxValue "7" 0 0 green_entry true two_entries)))
  = two_entries.
Proof.
  apply (add_then_remove_checkbox "7" 0 0 green_entry two_entries "g1"
           {| item_id := "f1"; item_title := "Size";
              item_value := Some (JArr [red_entry; blue_entry]) |}
           [red_entry; blue_entry]).
  - reflexivity.
  - discriminate.
  - reflexivity.
  - reflexivity.
  - repeat constructor.
  - reflexivity.
Defined.

(** ** Deleting a group: the document *)

Lemma findIndex_split {A : Type} (p : A -> bool) pre x post :
  Forall (fun y => p y = false) pre -> p x = true ->
  findIndex p (pre ++ x :: post) = Some (length pre).
Proof.
  induction 1 as [|y pre Hy _ IH]; intros Hx; cbn [app findIndex length].
  - now rewrite Hx.
  - rewrite Hy, (IH Hx). reflexivity.
Qed.

Lemma splice_out_middle {A : Type} (pre : list A) x post :
  splice_out (length pre) (pre ++ x :: post) = pre ++ post.
Proof.
  unfold splice_out. rewrite take_app_length. f_equal.
  rewrite drop_app_ge by lia. replace (S (length pre) - length pre) with 1 by lia.
  reflexivity.
Qed.

Lemma find_none_not_group_id gid l :
  Forall (fun x => group_id x <> gid) l -> find (has_group_id gid) l = None.
Proof.
  intros H. apply not_group_id in H.
  induction H as [|g l Hg _ IH]; cbn [find]; [reflexivity|]. now rewrite Hg.
Qed.

Lemma findIndex_find_none {A : Type} (p : A -> bool) l :
  find p l = None -> findIndex p l = None.
Proof.
  induction l as [|x l IH]; cbn [find findIndex]; [reflexivity|].
  destruct (p x); [discriminate|]. intros H. now rewrite (IH H).
Qed.

(** X13.  What [handleDeleteGroup] does to the document: declined, nothing
    at all; accepted, the first group with the id is taken out and the
    groups before and after it keep their order and content, with no toast
    and the baseline as it was; accepted with an id no group has, the
    groups stay as they are. *)
Theorem handleDeleteGroup_document confirmed groupId st :
  (confirmed = false -> handleDeleteGroup confirmed groupId st = (st, []))
  /\ (forall pre g post,
        confirmed = true ->
        groupSelected st = pre ++ g :: post ->
        Forall (fun x => group_id x <> groupId) pre -> group_id g = groupId ->
        groupSelected (fst (handleDeleteGroup confirmed groupId st)) = pre ++ post
        /\ snd (handleDeleteGroup confirmed groupId st) = []
        /\ savedGroupData (fst (handleDeleteGroup confirmed groupId st))
           = savedGroupData st)
  /\ (confirmed = true ->
      Forall (fun x => group_id x <> groupId) (groupSelected st) ->
      groupSelected (fst (handleDeleteGroup confirmed groupId st)) = groupSelected st).
Proof.
  split; [|split].
  - now intros ->.
  - intros pre g post -> Hsplit Hpre Hg. unfold handleDeleteGroup, produce. cbn [negb].
    rewrite Hsplit.
    rewrite findIndex_split; [| now apply not_group_id | now apply has_group_id_eq].
    rewrite splice_out_middle. now destruct pre.
  - intros -> Hnone. unfold handleDeleteGroup, produce. cbn [negb].
    rewrite (findIndex_find_none _ _ (find_none_not_group_id _ _ Hnone)).
    now destruct (groupSelected st).
Qed.

Lemma handleDeleteGroup_document_witness :
  groupSelected (fst (handleDeleteGroup true "g2" two_groups)) = [sample_group] ++ [].
Proof.
  apply (proj1 (proj2 (handleDeleteGroup_document true "g2" two_groups))
           [sample_group] other_group []).
  - reflexivity.
  - reflexivity.
  - repeat constructor. discriminate.
  - reflexivity.
Defined.

Lemma handleAddGroup_appends generated groupName st :
  blank groupName = false ->
  handleAddGroup generated groupName st
  = ({| groupSelected :=
          groupSelected st
            ++ [ {| group_id := generated; group_title := trim groupName;
                    attributes := [] |} ];
        activeGroupId := Some generated;
        savedGroupData := savedGroupData st |}, []).
Proof.
  intros Hname.
  assert (Ht : String.eqb (trim groupName) "" = false).
  { apply String.eqb_neq. intros E. apply trim_empty_iff in E. congruence. }
  unfold handleAddGroup. now rewrite Ht.
Qed.

(** X14.  A group created under a fresh id and then deleted (the dialog
    accepted) leaves the groups and the baseline as they were, so the
    document is as dirty or as clean as before. *)
Theorem createGroup_then_deleteGroup generated groupName st :
  blank groupName = false ->
  Forall (fun g => group_id g <> generated) (groupSelected st) ->
  groupSelected (fst (handleDeleteGroup true generated
                        (fst (handleAddGroup generated groupName st))))
  = groupSelected st
  /\ savedGroupData (fst (handleDeleteGroup true generated
                            (fst (handleAddGroup generated groupName st))))
     = savedGroupData st
  /\ hasChanges (fst (handleDeleteGroup true generated
                        (fst (handleAddGroup generated groupName st))))
     = hasChanges st.
Proof.
  intros Hname Hfresh. rewrite (handleAddGroup_appends generated groupName st Hname).
  cbn [fst]. unfold handleDeleteGroup, produce. cbn [negb groupSelected].
  rewrite findIndex_split; [| now apply not_group_id | apply String.eqb_refl].
  rewrite splice_out_middle, app_nil_r.
  destruct (groupSelected st ++ _); cbn [fst]; repeat split; reflexivity.
Qed.

Lemma createGroup_then_deleteGroup_witness :
  groupSelected (fst (handleDeleteGroup true "group_9"
                        (fst (handleAddGroup "group_9" "Extras" two_groups))))
  = groupSelected two_groups
  /\ savedGroupData (fst (handleDeleteGroup true "group_9"
                            (fst (handleAddGroup "group_9" "Extras" two_groups))))
     = savedGroupData two_groups.
Proof.
  destruct (createGroup_then_deleteGroup "group_9" "Extras" two_groups)
    as (Hdoc & Hsaved & _).
  - reflexivity.
  - repeat constructor; discriminate.
  - split; [exact Hdoc | exact Hsaved].
Defined.

(** ** What an edit of the active group leaves alone *)

Lemma update_first_same {A : Type} (p : A -> bool) (l : list A) :
  update_first p (fun x => (x, [])) l = (l, []).
Proof.
  induction l as [|x l IH]; cbn [update_first]; [reflexivity|].
  destruct (p x); [reflexivity | now rewrite IH].
Qed.

Lemma update_first_lookup_other {A : Type} (p : A -> bool) f (l : list A) k x :
  l !! k = Some x -> p x = false -> fst (update_first p f l) !! k = Some x.
Proof.
  revert k. induction l as [|y l IH]; intros k Hk Hp; [discriminate|].
  cbn [update_first]. destruct (p y) eqn:E.
  - destruct (f y) as [z t]. cbn [fst]. destruct k as [|k]; [|exact Hk].
    cbn in Hk. injection Hk as ->. congruence.
  - specialize (IH (pred k)). destruct (update_first p f l) as [l' t]. cbn [fst] in *.
    destruct k as [|k]; [exact Hk | now apply IH].
Qed.

(** Every row and field handler is one [draft.find] on the active id
    followed by a change of the group found, which keeps its id and
    title; the active id and the baseline are not written. *)
Lemma edit_is_update_first memoriez op st :
  edits_active_group op = true ->
  exists F,
    (forall g, group_id (fst (F g)) = group_id g /\ group_title (fst (F g)) = group_title g)
    /\ fst (handler memoriez op st)
       = set_groupSelected
           (fst (update_first (has_group_id (default "" (activeGroupId st))) F
                   (groupSelected st))) st
    /\ (falsy (activeGroupId st) = true -> handler memoriez op st = (st, [])).
Proof.
  intros Hop.
  assert (Hsame : exists F : AttributeGroup -> AttributeGroup * list Toast,
             (forall g, group_id (fst (F g)) = group_id g
                        /\ group_title (fst (F g)) = group_title g)
             /\ st = set_groupSelected
                       (fst (update_first (has_group_id (default "" (activeGroupId st))) F
                               (groupSelected st))) st).
  { exists (fun g => (g, [])). split; [now split|].
    rewrite update_first_same. cbn [fst]. now rewrite set_groupSelected_same. }
  assert (Hin : forall aid body,
             exists F : AttributeGroup -> AttributeGroup * list Toast,
               (forall g, group_id (fst (F g)) = group_id g
                          /\ group_title (fst (F g)) = group_title g)
               /\ fst (produce (in_attribute (default "" (activeGroupId st)) aid body) st)
                  = set_groupSelected
                      (fst (update_first (has_group_id (default "" (activeGroupId st))) F
                              (groupSelected st))) st).
  { intros aid body. eexists. split; [|rewrite produce_fst; unfold in_attribute; reflexivity].
    intros g. cbn beta. now destruct (update_first (has_attr_id aid) body (attributes g)). }
  destruct op; try discriminate Hop; cbn [handler].
  - unfold handleSelectAttributeForGroup. destruct (falsy (activeGroupId st)) eqn:Hf.
    + destruct Hsame as (F & HF & E). exists F. cbn [fst]. auto.
    + eexists. split; [|split; [rewrite produce_fst; reflexivity | discriminate]].
      intros g. cbn beta. now destruct (negb _).
  - unfold handleAddAttributeRow. destruct (falsy (activeGroupId st)) eqn:Hf.
    + destruct Hsame as (F & HF & E). exists F. cbn [fst]. auto.
    + destruct (find _ (atts memoriez)) as [[i t m [fields|]]|].
      * destruct (Hin attributeId
                    (fun attribute =>
                       (set_children (children attribute ++ [newRow fields]) attribute, [])))
          as (F & HF & E).
        exists F. split; [exact HF|]. split; [exact E | discriminate].
      * destruct Hsame as (F & HF & E). exists F. cbn [fst]. split; [exact HF|].
        split; [exact E | discriminate].
      * destruct Hsame as (F & HF & E). exists F. cbn [fst]. split; [exact HF|].
        split; [exact E | discriminate].
  - unfold handleDuplicateAttributeRow. destruct (falsy (activeGroupId st)) eqn:Hf.
    + destruct Hsame as (F & HF & E). exists F. cbn [fst]. auto.
    + match goal with
      | |- context [in_attribute _ attributeId ?b] => destruct (Hin attributeId b) as (F & HF & E)
      end. exists F. split; [exact HF|]. split; [exact E | discriminate].
  - unfold handleDeleteAttributeRow. destruct (falsy (activeGroupId st)) eqn:Hf.
    + destruct Hsame as (F & HF & E). exists F. cbn [fst]. auto.
    + destruct confirmed; cbn [negb].
      * match goal with
        | |- context [in_attribute _ attributeId ?b] =>
            destruct (Hin attributeId b) as (F & HF & E)
        end. exists F. split; [exact HF|]. split; [exact E | discriminate].
      * destruct Hsame as (F & HF & E). exists F. cbn [fst]. split; [exact HF|].
        split; [exact E | discriminate].
  - unfold handleDeleteAttributeInstance. destruct (falsy (activeGroupId st)) eqn:Hf.
    + destruct Hsame as (F & HF & E). exists F. cbn [fst]. auto.
    + destruct confirmed; cbn [negb].
      * eexists. split; [|split; [rewrite produce_fst; reflexivity | discriminate]].
        intros g. now split.
      * destruct Hsame as (F & HF & E). exists F. cbn [fst]. split; [exact HF|].
        split; [exact E | discriminate].
  - unfold handleUpdateFieldValue. destruct (falsy (activeGroupId st)) eqn:Hf.
    + destruct Hsame as (F & HF & E). exists F. cbn [fst]. auto.
    + unfold in_field.
      match goal with
      | |- context [in_attribute _ attributeId ?b] => destruct (Hin attributeId b) as (F & HF & E)
      end. exists F. split; [exact HF|]. split; [exact E | discriminate].
  - unfold handleUpdateCheckboxValue. destruct (falsy (activeGroupId st)) eqn:Hf.
    + destruct Hsame as (F & HF & E). exists F. cbn [fst]. auto.
    + unfold in_field.
      match goal with
      | |- context [in_attribute _ attributeId ?b] => destruct (Hin attributeId b) as (F & HF & E)
      end. exists F. split; [exact HF|]. split; [exact E | discriminate].
  - unfold handleDeleteCheckboxSingleValue, handleUpdateCheckboxValue.
    destruct (falsy (activeGroupId st)) eqn:Hf.
    + destruct Hsame as (F & HF & E). exists F. cbn [fst]. auto.
    + destruct confirmed; cbn [negb].
      * unfold in_field.
        match goal with
        | |- context [in_attribute _ attributeId ?b] =>
            destruct (Hin attributeId b) as (F & HF & E)
        end. exists F. split; [exact HF|]. split; [exact E | discriminate].
      * destruct Hsame as (F & HF & E). exists F. cbn [fst]. split; [exact HF|].
        split; [exact E | discriminate].
Qed.

Lemma savedGroupData_sync_active st : savedGroupData (sync_active st) = savedGroupData st.
Proof.
  unfold sync_active. destruct (groupSelected st);
    destruct (falsy (activeGroupId st)); reflexivity.
Qed.

Lemma savedGroupData_handler memoriez op st :
  savedGroupData (fst (handler memoriez op st)) = savedGroupData st.
Proof.
  destruct (edits_active_group op) eqn:Hop.
  - destruct (edit_is_update_first memoriez op st Hop) as (F & _ & -> & _). reflexivity.
  - destruct op; try discriminate Hop; cbn [handler].
    + unfold handleAddGroup. destruct (String.eqb _ _); [reflexivity|].
      unfold produce. reflexivity.
    + unfold renameGroup. destruct (falsy newName); [reflexivity|].
      apply produce_savedGroupData.
    + unfold handleDeleteGroup. destruct confirmed; [|reflexivity]. cbn [negb].
      pose proof (produce_savedGroupData
                    (fun draft => match findIndex (has_group_id groupId) draft with
                                  | Some index => (splice_out index draft, [])
                                  | None => (draft, [])
                                  end) st) as H.
      destruct (produce _ st) as [st' t]. cbn [fst] in *. now destruct (groupSelected st).
    + reflexivity.
Qed.

(** X15.  No operation writes the baseline; and a row or field operation
    reaches one group only: every group keeps its id and title, in the
    same order, and a group whose id is not the active id is afterwards
    exactly what it was. *)
Theorem edits_leave_the_rest memoriez op st :
  savedGroupData (fst (run memoriez op st)) = savedGroupData st
  /\ (edits_active_group op = true ->
      map group_id (groupSelected (fst (run memoriez op st)))
      = map group_id (groupSelected st)
      /\ map group_title (groupSelected (fst (run memoriez op st)))
         = map group_title (groupSelected st)
      /\ (forall k g,
            groupSelected st !! k = Some g ->
            activeGroupId st <> Some (group_id g) ->
            groupSelected (fst (run memoriez op st)) !! k = Some g)).
Proof.
  split.
  - unfold run, settled.
    pose proof (savedGroupData_handler memoriez op st) as H.
    destruct (handler memoriez op st). cbn [fst] in *.
    now rewrite savedGroupData_sync_active.
  - intros Hop. rewrite groupSelected_run.
    destruct (edit_is_update_first memoriez op st Hop) as (F & HF & Heq & Hnull).
    split; [|split].
    + rewrite Heq. apply update_first_map. intros g. apply HF.
    + rewrite Heq. apply update_first_map. intros g. apply HF.
    + intros k g Hk Hne. destruct (falsy (activeGroupId st)) eqn:Hf.
      * now rewrite (Hnull eq_refl).
      * rewrite Heq. cbn [groupSelected set_groupSelected].
        apply update_first_lookup_other; [exact Hk|].
        destruct (has_group_id _ g) eqn:E; [|reflexivity].
        apply has_group_id_eq in E.
        destruct (activeGroupId st) as [gid|]; [|discriminate Hf].
        cbn in E. congruence.
Qed.

Lemma edits_leave_the_rest_witness :
  groupSelected
    (fst (run [] (setFieldValue "7" 0 0 (Some (JStr "M"))) two_groups)) !! 1
  = Some other_group.
Proof.
  apply (proj2 (edits_leave_the_rest [] (setFieldValue "7" 0 0 (Some (JStr "M"))) two_groups)
           eq_refl).
  - reflexivity.
  - discriminate.
Defined.

(** X16.  With a group active, or no group at all, every operation other
    than an accepted group deletion leaves it so: afterwards the active id
    is again the non-empty id of a group of the document, or falsy when the
    document has no group. *)
Theorem active_id_kept memoriez op st :
  keeps_tab op st -> active_names_group st ->
  active_names_group (fst (run memoriez op st)).
Proof.
  intros Hop Hst.
  assert (Hkeep : forall st',
             map group_id (groupSelected st') = map group_id (groupSelected st) ->
             activeGroupId st' = activeGroupId st ->
             active_names_group (sync_active st')).
  { intros st' Hmap Hact. unfold active_names_group in *.
    rewrite groupSelected_sync_active. unfold sync_active.
    destruct (groupSelected st') as [|g' gs'] eqn:E'.
    - destruct (groupSelected st); [|discriminate Hmap]. rewrite Hact, Hst. cbn [negb].
      now rewrite Hact.
    - destruct (groupSelected st) as [|g gs]; [discriminate Hmap|].
      destruct Hst as (gid & Ha & Hne & Hin). rewrite Hact, Ha.
      assert (Hf : falsy (Some gid) = false) by now apply String.eqb_neq.
      rewrite Hf. exists gid. rewrite Hact. repeat split; auto.
      rewrite Hmap. exact Hin. }
  unfold run, settled.
  destruct (edits_active_group op) eqn:He.
  - destruct (edit_is_update_first memoriez op st He) as (F & HF & Heq & _).
    destruct (handler memoriez op st) as [st' t]. cbn [fst] in *. subst st'.
    apply Hkeep; [|reflexivity]. cbn [groupSelected set_groupSelected].
    apply update_first_map. intros g. apply HF.
  - destruct op; try discriminate He; cbn [handler keeps_tab] in *.
    + (* createGroup *)
      destruct (blank groupName) eqn:Hb.
      * unfold handleAddGroup. apply trim_empty_iff in Hb. rewrite Hb.
        now apply Hkeep.
      * rewrite (handleAddGroup_appends generated groupName st Hb).
        cbv beta iota zeta. cbn [fst]. unfold active_names_group. rewrite groupSelected_sync_active.
        unfold sync_active. cbn [groupSelected activeGroupId].
        assert (Hf : falsy (Some generated) = false) by now apply String.eqb_neq.
        destruct (groupSelected st ++ _) as [|g gs] eqn:E.
        { now destruct (groupSelected st). }
        rewrite Hf. exists generated. cbn [activeGroupId]. repeat split; auto.
        rewrite <- E, map_app. apply in_or_app. right. now left.
    + (* rename *)
      unfold renameGroup. destruct (falsy newName); [now apply Hkeep|].
      pose proof (produce_groupSelected
                    (update_first (has_group_id groupId)
                       (fun g => (set_title (trim (default "" newName)) g, []))) st) as Hg.
      pose proof (produce_activeGroupId
                    (update_first (has_group_id groupId)
                       (fun g => (set_title (trim (default "" newName)) g, []))) st) as Ha.
      destruct (produce _ st) as [st' t]. cbn [fst] in *.
      apply Hkeep; [|exact Ha]. rewrite Hg. now apply update_first_map.
    + (* a declined deletion *)
      subst confirmed. now apply Hkeep.
    + (* a tab *)
      destruct Hop as [Hne Hin]. cbv beta iota zeta. cbn [fst]. unfold active_names_group.
      rewrite groupSelected_sync_active. unfold sync_active.
      cbn [groupSelected activeGroupId set_activeGroupId].
      assert (Hf : falsy (Some groupId) = false) by now apply String.eqb_neq.
      destruct (groupSelected st) as [|g gs]; [destruct Hin|].
      rewrite Hf. exists groupId. cbn [activeGroupId set_activeGroupId]. auto.
Qed.

Lemma active_id_kept_witness :
  active_names_group (fst (run [box_template] (addRow "7") two_groups)).
Proof.
  apply (active_id_kept [box_template] (addRow "7") two_groups).
  - exact I.
  - exists "g1". repeat split; [discriminate | now left].
Defined.

(** X17.  A row or field operation that has no group to work on changes
    nothing: with no active id (null or the empty string) the handler
    returns at once, without a toast; with an active id that no group
    has, as after the deletion of the first group while it was active,
    the state is left as it is. *)
Theorem edits_without_target memoriez op st :
  edits_active_group op = true ->
  (falsy (activeGroupId st) = true -> handler memoriez op st = (st, []))
  /\ (forall gid,
        activeGroupId st = Some gid ->
        Forall (fun g => group_id g <> gid) (groupSelected st) ->
        fst (handler memoriez op st) = st).
Proof.
  intros Hop. destruct (edit_is_update_first memoriez op st Hop) as (F & _ & Heq & Hnull).
  split; [exact Hnull|].
  intros gid Hact Hnone. rewrite Heq, Hact. cbn [default from_option id].
  rewrite update_first_none by now apply find_none_not_group_id.
  apply set_groupSelected_same.
Qed.

Lemma edits_without_target_witness :
  fst (handler [box_template] (selectAttributeForGroup box_template) stale_state)
  = stale_state.
Proof.
  apply (proj2 (edits_without_target [box_template] (selectAttributeForGroup box_template)
                  stale_state eq_refl) "g1").
  - reflexivity.
  - repeat constructor. discriminate.
Defined.

(** ** The guards of the save *)

(** X18.  [saveAttributeMeta] calls the server only for a dirty document
    with a truthy order id: a clean document returns at once, without a
    toast, whatever the id; a dirty one whose id is missing or falsy (the
    number 0, the empty string, [null]) raises the error toast and keeps
    its state; and after a save that succeeded a second save makes no
    call. *)
Theorem save_is_gated data_id r st :
  (hasChanges st = false ->
   saveAttributeMeta_call data_id st = save_returns []
   /\ saveAttributeMeta data_id r st = (st, []))
  /\ (hasChanges st = true ->
      (forall orderId, data_id = Some orderId -> truthy orderId = false) ->
      saveAttributeMeta_call data_id st = save_returns [toast_error "Order ID is missing."]
      /\ saveAttributeMeta data_id r st = (st, [toast_error "Order ID is missing."]))
  /\ (forall orderId res,
        hasChanges st = true -> data_id = Some orderId -> truthy orderId = true ->
        strict_equals (opt_prop "success" res) (Some (JStr "success")) = true ->
        saveAttributeMeta_call data_id (fst (saveAttributeMeta data_id (resolved res) st))
        = save_returns []).
Proof.
  split; [|split].
  - intros H. unfold saveAttributeMeta, saveAttributeMeta_call. now rewrite H.
  - intros H Hid. unfold saveAttributeMeta, saveAttributeMeta_call. rewrite H. cbn [negb].
    destruct data_id as [orderId|]; [|now split]. now rewrite (Hid orderId eq_refl).
  - intros orderId res H -> Hid Hok. unfold saveAttributeMeta.
    unfold saveAttributeMeta_call at 2. rewrite H, Hid. cbn [negb].
    assert (Hres : saveAttributeMeta_resume (groupSelected st) (resolved res) st
                   = (set_savedGroupData (groupSelected st) st,
                      [toast_success "Order attributes updated successfully"])).
    { cbn [saveAttributeMeta_resume]. rewrite Hok. destruct res; try reflexivity.
      discriminate Hok. }
    rewrite Hres. cbn [fst]. unfold saveAttributeMeta_call.
    assert (Hclean : hasChanges (set_savedGroupData (groupSelected st) st) = false)
      by now apply hasChanges_false_iff.
    now rewrite Hclean.
Qed.

Lemma save_is_gated_witness :
  saveAttributeMeta (Some (JNum 0)) rejected sample_dirty
  = (sample_dirty, [toast_error "Order ID is missing."]).
Proof.
  apply (proj1 (proj2 (save_is_gated (Some (JNum 0)) rejected sample_dirty))).
  - reflexivity.
  - now intros orderId [= <-].
Defined.

(** ** Loading *)



(** X20.  A stored document of the legacy shape, the serialized list of
    instances and not empty, loads as one group with the generated id, the
    title "Default Group" and these instances, unchanged and in order, as
    its attributes; it is the baseline too, so the migration by itself
    does not make the document dirty; no toast is raised. *)
Theorem legacy_load instances generated st :
  instances <> [] ->
  Forall (fun a => Forall (Forall well_formed_item) (children a)) instances ->
  let migrated :=
    [ {| group_id := generated; group_title := "Default Group";
         attributes := instances |} ] in
  effect_parse (Some (JSON_stringify (JArr (map js_of_instance instances)))) generated st
  = Some ({| groupSelected := migrated; activeGroupId := activeGroupId st;
             savedGroupData := migrated |}, []).
Proof.
  intros Hne Hwf migrated. unfold effect_parse, parse_data.
  assert (Htext : String.eqb (JSON_stringify (JArr (map js_of_instance instances))) ""
                  = false).
  { unfold JSON_stringify. now rewrite write_value_arr. }
  rewrite Htext, JSON_parse_stringify.
  - destruct instances as [|a l]; [contradiction|]. cbn [map].
    assert (Hno : opt_prop "attributes" (js_of_instance a) = None) by reflexivity.
    rewrite Hno.
    exact (f_equal (fun r => match r with
                             | Some gs => Some (set_savedGroupData gs (set_groupSelected gs st), [])
                             | None => None
                             end)
             (groups_of_js_of_groups
                [ {| group_id := generated; group_title := "Default Group";
                     attributes := a :: l |} ])).
  - apply well_formed_arr, Forall_map. eapply Forall_impl; [exact Hwf|].
    apply well_formed_js_of_instance.
Qed.

Lemma legacy_load_witness :
  effect_parse (Some (JSON_stringify (JArr (map js_of_instance (attributes sample_group)))))
    "group_1" two_groups
  = Some ({| groupSelected :=
               [ {| group_id := "group_1"; group_title := "Default Group";
                    attributes := attributes sample_group |} ];
             activeGroupId := Some "g1";
             savedGroupData :=
               [ {| group_id := "group_1"; group_title := "Default Group";
                    attributes := attributes sample_group |} ] |}, []).
Proof.
  apply (legacy_load (attributes sample_group) "group_1" two_groups).
  - discriminate.
  - repeat constructor.
Defined.

(** ** The events of the component *)

Lemma get_property_well_formed k ps v :
  Forall (fun kv => well_formed (snd kv)) ps -> get_property k ps = Some v -> well_formed v.
Proof.
  induction 1 as [|[k' v'] ps Hv _ IH]; cbn [get_property]; [discriminate|].
  destruct (String.eqb k k'); [now intros [= <-] | exact IH].
Qed.

Lemma opt_prop_well_formed k item v :
  well_formed item -> opt_prop k item = Some v -> well_formed v.
Proof.
  destruct item; try discriminate. cbn [opt_prop]. intros H.
  apply well_formed_obj in H as [_ H]. now apply get_property_well_formed.
Qed.

Lemma selectedMetaItem_well_formed item :
  well_formed item -> well_formed (selectedMetaItem item).
Proof.
  intros H. unfold selectedMetaItem.
  pose proof (opt_prop_well_formed "id" item) as Hi.
  pose proof (opt_prop_well_formed "key" item) as Hk.
  pose proof (opt_prop_well_formed "value" item) as Hv.
  destruct (opt_prop "id" item) as [i|], (opt_prop "key" item) as [k|],
    (opt_prop "value" item) as [v|];
    cbn [literal_property app]; apply well_formed_obj; (split; [reflexivity|]);
    repeat constructor; cbn [snd]; auto.
Qed.

Lemma op_of_event_admissible e : event_values_well_formed e -> admissible (op_of_event e).
Proof.
  destruct e; cbn [op_of_event event_values_well_formed admissible]; try exact (fun _ => I).
  - intros _. split; exact I.
  - intros H. destruct (String.eqb (target_fieldType target) "checkbox");
      cbn [admissible duplicate_free].
    + now apply selectedMetaItem_well_formed.
    + split; [now apply selectedMetaItem_well_formed | exact I].
Qed.

(** X21.  Through the component no checkbox array gets two entries of one
    id: every event of the rendered component (typing in a text field,
    picking a search result for a select or a checkbox field, removing a
    value, and the group, instance and row buttons) keeps the stored values
    well formed and the checkbox arrays free of repeated ids; picking a
    result stores [{id, title: key, value}] of the result, added to the
    array of a checkbox field and put in place of the value of any other
    field. *)
Theorem events_keep_checkbox_invariant memoriez e st :
  event_values_well_formed e ->
  checkbox_invariant (groupSelected st) ->
  checkbox_invariant (groupSelected (fst (run memoriez (op_of_event e) st)))
  /\ (forall target item,
        e = selectResult target item ->
        handler memoriez (op_of_event e) st = onSelect target item st).
Proof.
  intros He Hst. split.
  - rewrite groupSelected_run. apply handler_checkbox_invariant; [|exact Hst].
    now apply op_of_event_admissible.
  - intros target item ->. cbn [op_of_event]. unfold onSelect.
    now destruct (String.eqb (target_fieldType target) "checkbox").
Qed.

Lemma events_keep_checkbox_invariant_witness :
  checkbox_invariant
    (groupSelected (fst (run [] (op_of_event (selectResult checkbox_target color_result))
                           two_groups))).
Proof.
  apply (events_keep_checkbox_invariant [] (selectResult checkbox_target color_result)
           two_groups).
  - repeat split.
  - exact two_groups_invariant.
Defined.

(** C8.  No stored array holds two entries with the same id, and every
    operation of the component keeps it so: each event of the rendered
    component, whatever the state it meets, leaves the checkbox arrays free
    of repeated ids (and the stored values well formed), hence so does
    every sequence of events, from the empty document or from any document
    that has the property; and adding an item whose id an entry of the
    array already has changes nothing and raises only the error notice. *)
Theorem checkbox_ids_stay_unique :
  (forall memoriez e st,
     event_values_well_formed e ->
     checkbox_invariant (groupSelected st) ->
     checkbox_invariant (groupSelected (fst (run memoriez (op_of_event e) st))))
  /\ (forall memoriez es st,
        Forall event_values_well_formed es ->
        checkbox_invariant (groupSelected st) ->
        checkbox_invariant (groupSelected (run_all memoriez (map op_of_event es) st)))
  /\ (forall memoriez es,
        Forall event_values_well_formed es ->
        checkbox_invariant
          (groupSelected (run_all memoriez (map op_of_event es) empty_state)))
  /\ (forall memoriez aid i j item st gid field vs v,
        activeGroupId st = Some gid -> gid <> "" ->
        field_at gid aid i j (groupSelected st) = Some field ->
        item_value field = Some (JArr vs) ->
        In v vs -> same_id v item = true ->
        run memoriez (addCheckboxValue aid i j item) st
        = (st, [toast_error "Already selected."])).
Proof.
  assert (Hone : forall memoriez e st,
             event_values_well_formed e ->
             checkbox_invariant (groupSelected st) ->
             checkbox_invariant (groupSelected (fst (run memoriez (op_of_event e) st)))).
  { intros memoriez e st He H. rewrite groupSelected_run.
    apply handler_checkbox_invariant; [now apply op_of_event_admissible | exact H]. }
  assert (Hall : forall memoriez es st,
             Forall event_values_well_formed es ->
             checkbox_invariant (groupSelected st) ->
             checkbox_invariant
               (groupSelected (run_all memoriez (map op_of_event es) st))).
  { intros memoriez es st Hes. revert st. unfold run_all.
    induction Hes as [|e es He Hes IH]; intros st H; cbn [map fold_left]; [exact H|].
    apply IH. now apply Hone. }
  split; [exact Hone|]. split; [exact Hall|]. split.
  - intros memoriez es Hes. apply Hall; [exact Hes | constructor].
  - intros memoriez aid i j item st gid field vs v Hact Hgid Hfield Hval Hin Hsame.
    unfold run, settled. cbn [handler].
    rewrite (checkbox_add_existing aid i j item st gid field vs v) by assumption.
    destruct (field_at_nonempty _ _ _ _ _ _ Hfield) as (g & gs & Hgs).
    now rewrite (sync_active_same st gid g gs).
Qed.

Lemma checkbox_ids_stay_unique_witness :
  checkbox_invariant
    (groupSelected
       (run_all [lid_template]
          (map op_of_event
             [clickAddAttribute lid_template; clickAddRow "8";
              selectResult {| target_attributeId := "8"; target_rowIndex := 0;
                              target_fieldIndex := 0; target_fieldType := "checkbox" |}
                color_result;
              selectResult {| target_attributeId := "8"; target_rowIndex := 0;
                              target_fieldIndex := 0; target_fieldType := "checkbox" |}
                color_result])
          two_groups)).
Proof.
  apply (proj1 (proj2 checkbox_ids_stay_unique)).
  - repeat constructor.
  - exact two_groups_invariant.
Defined.

(** ** The templates on offer *)

Lemma existsb_eqb_in x l : existsb (String.eqb x) l = true <-> In x l.
Proof.
  rewrite existsb_exists. split.
  - intros (y & Hy & E). apply String.eqb_eq in E. now subst.
  - intros H. exists x. split; [exact H | apply String.eqb_refl].
Qed.

Lemma activeGroup_find st gid :
  activeGroupId st = Some gid -> activeGroup st = find (has_group_id gid) (groupSelected st).
Proof. unfold activeGroup. now intros ->. Qed.

Lemma find_attr_none aid l :
  ~ In aid (map attr_id l) -> Forall (fun a => has_attr_id aid a = false) l.
Proof.
  intros H. apply Forall_forall. intros a Ha.
  destruct (has_attr_id aid a) eqn:E; [|reflexivity].
  apply has_attr_id_eq in E. destruct H. apply in_map_iff. exists a.
  split; [exact E | now apply list_elem_of_In].
Qed.

(** X22.  The dialog offers the order templates the active group has no
    instance of, and only those; adding an offered template never meets
    the "already added" case: it raises no toast, the instance is found in
    the group afterwards with the template's id and title and no row, and
    the template is no longer on offer. *)
Theorem offered_template_is_added memoriez st gid group item :
  activeGroupId st = Some gid -> gid <> "" ->
  find (has_group_id gid) (groupSelected st) = Some group ->
  (In item (availableAttsForActiveGroup memoriez st) <->
   In item (atts memoriez) /\ ~ In (def_id item) (map attr_id (attributes group)))
  /\ (In item (availableAttsForActiveGroup memoriez st) ->
      def_mapto item = Some "order"
      /\ snd (handleSelectAttributeForGroup item st) = []
      /\ attribute_at gid (def_id item)
           (groupSelected (fst (handleSelectAttributeForGroup item st)))
         = Some {| attr_id := def_id item; attr_title := def_title item; children := [] |}
      /\ ~ In item (availableAttsForActiveGroup memoriez
                      (fst (handleSelectAttributeForGroup item st)))).
Proof.
  intros Hact Hgid Hfind.
  destruct (active_truthy st gid Hact Hgid) as (Hf & Hd).
  assert (Hiff : In item (availableAttsForActiveGroup memoriez st) <->
                 In item (atts memoriez)
                 /\ ~ In (def_id item) (map attr_id (attributes group))).
  { unfold availableAttsForActiveGroup. rewrite (activeGroup_find st gid Hact), Hfind.
    rewrite filter_In, negb_true_iff. apply and_iff_compat_l.
    rewrite <- existsb_eqb_in. now destruct (existsb _ _). }
  split; [exact Hiff|]. intros Hin. apply Hiff in Hin as [Hatts Hnot].
  destruct (find_split _ _ _ Hfind) as (pre & post & Hsplit & Hpre & Hg).
  set (instance := {| attr_id := def_id item; attr_title := def_title item;
                      children := [] |}).
  assert (Hh : handleSelectAttributeForGroup item st
               = (set_groupSelected
                    (pre ++ set_attributes (attributes group ++ [instance]) group :: post) st,
                  [])).
  { unfold handleSelectAttributeForGroup, produce. rewrite Hf, Hd, Hsplit.
    rewrite (update_first_split _ _ pre group post Hpre Hg). cbn [attr_id attr_title].
    destruct (existsb (has_attr_id (def_id item)) (attributes group)) eqn:E;
      [|reflexivity].
    apply existsb_has_attr_id in E. contradiction. }
  rewrite Hh. cbn [fst snd groupSelected set_groupSelected].
  assert (Hg' : has_group_id gid (set_attributes (attributes group ++ [instance]) group)
                = true) by exact Hg.
  split; [|split; [reflexivity|split]].
  - unfold atts in Hatts. apply filter_In in Hatts as [_ Hm].
    destruct (def_mapto item) as [m|]; [|discriminate]. apply String.eqb_eq in Hm. now subst.
  - unfold attribute_at. rewrite (find_first _ pre _ post Hpre Hg').
    cbn [attributes set_attributes]. rewrite <- (app_nil_r (attributes group ++ [instance])).
    rewrite <- app_assoc. cbn [app].
    apply find_first; [now apply find_attr_none | apply String.eqb_refl].
  - unfold availableAttsForActiveGroup, activeGroup.
    cbn [activeGroupId groupSelected set_groupSelected]. rewrite Hact.
    rewrite (find_first _ pre _ post Hpre Hg'). cbn [attributes set_attributes].
    rewrite filter_In. intros [_ Hneg]. apply negb_true_iff in Hneg.
    assert (Hyes : existsb (String.eqb (def_id item))
                     (map attr_id (attributes group ++ [instance])) = true).
    { apply existsb_eqb_in. rewrite map_app. apply in_or_app. right. now left. }
    congruence.
Qed.

Lemma offered_template_is_added_witness :
  attribute_at "g1" "8"
    (groupSelected (fst (handleSelectAttributeForGroup lid_template two_groups)))
  = Some {| attr_id := "8"; attr_title := "Lid"; children := [] |}.
Proof.
  apply (proj2 (offered_template_is_added [box_template; lid_template] two_groups "g1"
                  sample_group lid_template eq_refl ltac:(discriminate) eq_refl)).
  cbn. now left.
Defined.

(** ** Effect 2 *)

(** X23.  Effect 2 writes the active id only: with no group it ends with a
    falsy active id; with groups and a falsy active id it activates the
    first group; a truthy active id is left alone when there are groups,
    also when no group has it; and running it again changes nothing. *)
Theorem sync_active_settles st :
  groupSelected (sync_active st) = groupSelected st
  /\ savedGroupData (sync_active st) = savedGroupData st
  /\ (groupSelected st = [] -> falsy (activeGroupId (sync_active st)) = true)
  /\ (forall g gs,
        groupSelected st = g :: gs -> falsy (activeGroupId st) = true ->
        activeGroupId (sync_active st) = Some (group_id g))
  /\ (forall g gs,
        groupSelected st = g :: gs -> falsy (activeGroupId st) = false ->
        sync_active st = st)
  /\ sync_active (sync_active st) = sync_active st.
Proof.
  split; [apply groupSelected_sync_active|]. split; [apply savedGroupData_sync_active|].
  unfold sync_active. repeat split.
  - intros ->. destruct (falsy (activeGroupId st)) eqn:E; cbn [negb]; [exact E|reflexivity].
  - intros g gs -> ->. reflexivity.
  - intros g gs -> ->. reflexivity.
  - destruct (groupSelected st) as [|g gs] eqn:Eg;
      destruct (falsy (activeGroupId st)) eqn:E; cbn [negb];
      cbn [groupSelected activeGroupId set_activeGroupId]; rewrite ?Eg, ?E; cbn [negb];
      try reflexivity.
    cbn [falsy]. now destruct (String.eqb (group_id g) "").
Qed.

Lemma sync_active_settles_witness :
  activeGroupId
    (sync_active {| groupSelected := [sample_group; other_group]; activeGroupId := None;
                    savedGroupData := [] |})
  = Some "g1".
Proof.
  apply (proj1 (proj2 (proj2 (proj2 (sync_active_settles
           {| groupSelected := [sample_group; other_group]; activeGroupId := None;
              savedGroupData := [] |})))) sample_group [other_group]);
    reflexivity.
Defined.

(** ** Rows stay aligned with their template *)

Lemma update_first_Forall_found {A : Type} (Q : A -> Prop) p f (l : list A) :
  Forall Q l -> (forall x, Q x -> p x = true -> Q (fst (f x))) ->
  Forall Q (fst (update_first p f l)).
Proof.
  intros Hl Hf. induction Hl as [|y l Hy Hl IH]; cbn [update_first]; [constructor|].
  destruct (p y) eqn:E.
  - specialize (Hf y Hy E). destruct (f y). cbn [fst] in *. now constructor.
  - destruct (update_first p f l). cbn [fst] in *. now constructor.
Qed.

Lemma update_first_fst_ext_in {A : Type} (p : A -> bool) f g (l : list A) :
  (forall x, In x l -> fst (f x) = fst (g x)) ->
  fst (update_first p f l) = fst (update_first p g l).
Proof.
  induction l as [|x l IH]; intros H; cbn [update_first]; [reflexivity|].
  destruct (p x).
  - specialize (H x (or_introl eq_refl)). destruct (f x), (g x). cbn [fst] in *. now subst.
  - assert (E : fst (update_first p f l) = fst (update_first p g l)).
    { apply IH. intros y Hy. apply H. now right. }
    destruct (update_first p f l), (update_first p g l). cbn [fst] in *. now subst.
Qed.

Lemma in_attribute_fst_ext_in gid aid b1 b2 d :
  (forall g a, In g d -> In a (attributes g) -> fst (b1 a) = fst (b2 a)) ->
  fst (in_attribute gid aid b1 d) = fst (in_attribute gid aid b2 d).
Proof.
  intros H. unfold in_attribute. apply update_first_fst_ext_in. intros g Hg.
  pose proof (update_first_fst_ext_in (has_attr_id aid) b1 b2 (attributes g)
                (fun a Ha => H g a Hg Ha)) as E.
  destruct (update_first (has_attr_id aid) b1 (attributes g)),
    (update_first (has_attr_id aid) b2 (attributes g)). cbn [fst] in *. now subst.
Qed.

Lemma aligned_in_attribute memoriez gid aid body d :
  (forall a, attr_id (fst (body a)) = attr_id a) ->
  (forall a,
     attr_id a = aid ->
     Forall (row_aligned memoriez (attr_id a)) (children a) ->
     Forall (row_aligned memoriez (attr_id a)) (children (fst (body a)))) ->
  aligned memoriez d -> aligned memoriez (fst (in_attribute gid aid body d)).
Proof.
  intros Hid Hbody Hd. unfold in_attribute, aligned in *.
  apply update_first_Forall; [exact Hd|]. intros g Hg.
  pose proof (update_first_Forall_found
                (fun a => Forall (row_aligned memoriez (attr_id a)) (children a))
                (has_attr_id aid) body (attributes g) Hg) as H.
  destruct (update_first (has_attr_id aid) body (attributes g)) as [l t].
  cbn [fst attributes set_attributes] in *. apply H.
  intros a Ha Hp. rewrite Hid. apply Hbody; [now apply has_attr_id_eq | exact Ha].
Qed.

Lemma update_at_labels j body (row : list AttributeItem) :
  (forall f, field_label (fst (body f)) = field_label f) ->
  map field_label (fst (update_at j body row)) = map field_label row.
Proof.
  intros H. revert j. induction row as [|f row IH]; intros [|j]; cbn [update_at];
    try reflexivity.
  - specialize (H f). destruct (body f). cbn [fst map] in *. now rewrite H.
  - specialize (IH j). destruct (update_at j body row). cbn [fst map] in *. now rewrite IH.
Qed.

Lemma aligned_in_field memoriez gid aid i j body d :
  (forall f, field_label (fst (body f)) = field_label f) ->
  aligned memoriez d -> aligned memoriez (fst (in_field gid aid i j body d)).
Proof.
  intros Hbody. unfold in_field. apply aligned_in_attribute.
  - intros a. now destruct (update_at i (update_at j body) (children a)).
  - intros a _ Ha.
    pose proof (update_at_Forall (row_aligned memoriez (attr_id a)) i (update_at j body)
                  (children a) Ha) as H.
    destruct (update_at i (update_at j body) (children a)) as [rows t].
    cbn [fst children set_children] in *. apply H. intros row Hrow.
    unfold row_aligned in *.
    destruct (find _ (atts memoriez)) as [[? ? ? [fields|]]|]; try exact I.
    now rewrite update_at_labels.
Qed.

Lemma update_checkbox_label item add f :
  field_label (fst (update_checkbox item add f)) = field_label f.
Proof.
  unfold update_checkbox. destruct add; destruct (findIndex _ _); reflexivity.
Qed.

Lemma duplicate_recipe_in_place gid aid i d :
  well_formed_doc d ->
  fst (in_attribute gid aid
         (fun attribute =>
            match children attribute !! i with
            | Some row =>
                match deep_copy row with
                | Some rowToDuplicate =>
                    (set_children (splice_in (i + 1) rowToDuplicate (children attribute))
                       attribute, [])
                | None => (attribute, [])
                end
            | None => (attribute, [])
            end) d)
  = fst (in_attribute gid aid (duplicate_in_place i) d).
Proof.
  intros Hwf. apply in_attribute_fst_ext_in. intros g a Hg Ha.
  unfold duplicate_in_place. destruct (children a !! i) as [row|] eqn:Hrow; [|reflexivity].
  rewrite deep_copy_id; [reflexivity|].
  unfold well_formed_doc, well_formed_group in Hwf. rewrite Forall_forall in Hwf.
  specialize (Hwf g ltac:(now apply list_elem_of_In)). rewrite Forall_forall in Hwf.
  specialize (Hwf a ltac:(now apply list_elem_of_In)).
  eapply Forall_lookup_1; eassumption.
Qed.

Lemma handler_aligned memoriez op st :
  well_formed_doc (groupSelected st) ->
  aligned memoriez (groupSelected st) ->
  aligned memoriez (groupSelected (fst (handler memoriez op st))).
Proof.
  intros Hwf H. destruct op; cbn [handler].
  - unfold handleAddGroup. split_ifs; [exact H|]. cbn.
    apply Forall_app. split; [exact H|]. repeat constructor.
  - unfold renameGroup. split_ifs; [exact H|]. rewrite produce_groupSelected.
    apply update_first_Forall; auto.
  - unfold handleDeleteGroup. split_ifs; [exact H|]. cbn [negb].
    match goal with
    | |- context [produce ?r st] =>
        assert (Hp : aligned memoriez (groupSelected (fst (produce r st))))
    end.
    { rewrite produce_groupSelected.
      destruct (findIndex (has_group_id groupId) (groupSelected st)); cbn [fst];
        [now apply Forall_splice_out | exact H]. }
    destruct (produce _ st) as [st' t]. cbn [fst] in *. now destruct (groupSelected st).
  - exact H.
  - unfold handleSelectAttributeForGroup. split_ifs; [exact H|].
    rewrite produce_groupSelected. apply update_first_Forall; [exact H|].
    intros g Hg. destruct (existsb _ (attributes g)); cbn [negb fst]; [exact Hg|].
    cbn [attributes set_attributes]. apply Forall_app. split; [exact Hg|].
    repeat constructor.
  - unfold handleAddAttributeRow. split_ifs; [exact H|].
    destruct (find _ (atts memoriez)) as [[di dt dm [fields|]]|] eqn:Hfind; try exact H.
    rewrite produce_groupSelected. apply aligned_in_attribute; [reflexivity | | exact H].
    intros a Haid Ha. cbn [fst children set_children]. apply Forall_app.
    split; [exact Ha|]. constructor; [|constructor].
    unfold row_aligned. rewrite Haid, Hfind. apply newRow_labels.
  - unfold handleDuplicateAttributeRow. split_ifs; [exact H|].
    rewrite produce_groupSelected, duplicate_recipe_in_place by exact Hwf.
    apply aligned_in_attribute; [ | | exact H].
    + intros a. unfold duplicate_in_place. now destruct (children a !! rowIndex).
    + intros a _ Ha. unfold duplicate_in_place.
      destruct (children a !! rowIndex) as [row|] eqn:Hrow; [|exact Ha].
      cbn [fst children set_children]. apply Forall_splice_in; [exact Ha|].
      eapply Forall_lookup_1; eassumption.
  - unfold handleDeleteAttributeRow. split_ifs; try exact H.
    rewrite produce_groupSelected. apply aligned_in_attribute; [reflexivity | | exact H].
    intros a _ Ha. cbn [fst children set_children]. now apply Forall_splice_out.
  - unfold handleDeleteAttributeInstance. split_ifs; try exact H.
    rewrite produce_groupSelected. apply update_first_Forall; [exact H|].
    intros g Hg. cbn [fst attributes set_attributes]. now apply Forall_list_filter.
  - unfold handleUpdateFieldValue. split_ifs; [exact H|].
    rewrite produce_groupSelected. now apply aligned_in_field.
  - unfold handleUpdateCheckboxValue. split_ifs; [exact H|].
    rewrite produce_groupSelected. apply aligned_in_field; [|exact H].
    intros f. apply update_checkbox_label.
  - unfold handleDeleteCheckboxSingleValue, handleUpdateCheckboxValue.
    split_ifs; try exact H.
    rewrite produce_groupSelected. apply aligned_in_field; [|exact H].
    intros f. apply update_checkbox_label.
Qed.

(** X24.  With the templates of the store fixed, rows stay aligned with
    the template of their instance under every operation: each row of an
    instance whose order template has fields keeps one field per field
    definition, with the definition's id and title, in order; no operation
    renames, reorders, drops or adds a field of a row. *)
Theorem rows_stay_aligned memoriez op st :
  well_formed_doc (groupSelected st) ->
  aligned memoriez (groupSelected st) ->
  aligned memoriez (groupSelected (fst (run memoriez op st))).
Proof.
  intros Hwf H. rewrite groupSelected_run. now apply handler_aligned.
Qed.

Lemma two_groups_aligned : aligned [box_template] (groupSelected two_groups).
Proof. repeat constructor. Qed.

Lemma rows_stay_aligned_witness :
  aligned [box_template]
    (groupSelected (fst (run [box_template] (duplicateRow "7" 0) two_groups))).
Proof.
  apply (rows_stay_aligned [box_template] (duplicateRow "7" 0) two_groups).
  - repeat constructor.
  - exact two_groups_aligned.
Defined.

(** ** The search dialog *)

(** X25.  A search never leaves the dialog loading, and shows results only
    from an answer whose [success] is ["success"]: then no toast is raised
    and the list is [res.data], or empty when [res.data] is missing or
    falsy; a call that throws, an answer [null] and an answer with any
    other [success] each raise exactly one error toast and leave the list
    empty. *)
Theorem search_outcome r :
  loading (fst (searchAttributeMeta_resume r)) = false
  /\ (forall res,
        r = resolved res ->
        strict_equals (opt_prop "success" res) (Some (JStr "success")) = true ->
        snd (searchAttributeMeta_resume r) = []
        /\ (forall data,
              opt_prop "data" res = Some data -> truthy data = true ->
              search (fst (searchAttributeMeta_resume r)) = data)
        /\ ((forall data, opt_prop "data" res = Some data -> truthy data = false) ->
            search (fst (searchAttributeMeta_resume r)) = JArr []))
  /\ ((forall res,
         r = resolved res ->
         strict_equals (opt_prop "success" res) (Some (JStr "success")) = false) ->
      search (fst (searchAttributeMeta_resume r)) = JArr []
      /\ exists message, snd (searchAttributeMeta_resume r) = [toast_error message]).
Proof.
  split; [|split].
  - destruct r as [|res]; [reflexivity|]. cbn [searchAttributeMeta_resume].
    destruct res; try reflexivity;
      now destruct (strict_equals _ (Some (JStr "success"))).
  - intros res -> Hok.
    assert (E : searchAttributeMeta_resume (resolved res)
                = ({| search := data_or_empty res; loading := false |}, [])).
    { cbn [searchAttributeMeta_resume]. rewrite Hok. destruct res; try reflexivity.
      discriminate Hok. }
    rewrite E. cbn [fst snd search]. split; [reflexivity|]. unfold data_or_empty. split.
    + intros data -> Hdata. now rewrite Hdata.
    + intros Hdata. destruct (opt_prop "data" res) as [data|]; [|reflexivity].
      now rewrite (Hdata data eq_refl).
  - intros Hfail. destruct r as [|res]; [cbn; eauto|].
    specialize (Hfail res eq_refl). cbn [searchAttributeMeta_resume]. rewrite Hfail.
    destruct res; cbn [fst snd search]; eauto.
Qed.

Lemma search_outcome_witness :
  snd (searchAttributeMeta_resume (resolved found_colors)) = []
  /\ search (fst (searchAttributeMeta_resume (resolved found_colors))) = JArr [color_result].
Proof.
  destruct (search_outcome (resolved found_colors)) as (_ & Hok & _).
  destruct (Hok found_colors eq_refl eq_refl) as (Ht & Hdata & _).
  split; [exact Ht|]. apply Hdata; reflexivity.
Defined.

(** ** Dirty tracking along a session *)

Lemma checkbox_invariant_well_formed d : checkbox_invariant d -> well_formed_doc d.
Proof.
  unfold checkbox_invariant, all_fields, well_formed_doc, well_formed_group.
  intros H. eapply Forall_impl; [exact H|]. intros g Hg. cbn beta in *.
  eapply Forall_impl; [exact Hg|]. intros a Ha. cbn beta in *.
  eapply Forall_impl; [exact Ha|]. intros row Hrow. cbn beta in *.
  eapply Forall_impl; [exact Hrow|]. now intros f [Hf _].
Qed.

Lemma savedGroupData_run memoriez op st :
  savedGroupData (fst (run memoriez op st)) = savedGroupData st.
Proof.
  unfold run, settled. rewrite <- (savedGroupData_handler memoriez op st).
  destruct (handler memoriez op st) as [st' t]. cbn [fst]. apply savedGroupData_sync_active.
Qed.

Lemma run_all_invariants memoriez ops st :
  Forall admissible ops ->
  checkbox_invariant (groupSelected st) ->
  savedGroupData (run_all memoriez ops st) = savedGroupData st
  /\ checkbox_invariant (groupSelected (run_all memoriez ops st)).
Proof.
  unfold run_all. intros Hops. revert st.
  induction Hops as [|op ops Hop Hops IH]; intros st Hst; cbn [fold_left]; [now split|].
  destruct (IH (fst (run memoriez op st))) as [Hs Hi].
  - rewrite groupSelected_run. now apply handler_checkbox_invariant.
  - split; [|exact Hi]. now rewrite Hs, savedGroupData_run.
Qed.

(** X26.  Whatever is done between a load and a save, the operations never
    touch the baseline, and Save is enabled exactly when the document
    differs from it: after any sequence of operations on a well-formed
    document, [hasChanges] holds if and only if the document is not the
    baseline, so a sequence that restores the document leaves it clean. *)
Theorem session_dirty_iff_changed memoriez ops st :
  Forall admissible ops ->
  checkbox_invariant (groupSelected st) ->
  well_formed_doc (savedGroupData st) ->
  savedGroupData (run_all memoriez ops st) = savedGroupData st
  /\ (hasChanges (run_all memoriez ops st) = true
      <-> groupSelected (run_all memoriez ops st) <> savedGroupData st).
Proof.
  intros Hops Hst Hsaved.
  destruct (run_all_invariants memoriez ops st Hops Hst) as [Hs Hi].
  split; [exact Hs|]. rewrite hasChanges_true_iff, Hs. split.
  - intros H E. apply H. now rewrite E.
  - intros H E. apply H. apply js_of_groups_inj.
    apply JSON_stringify_inj; [| |exact E]; apply well_formed_js_of_groups;
      [now apply checkbox_invariant_well_formed | exact Hsaved].
Qed.

Lemma session_dirty_iff_changed_witness :
  hasChanges (run_all [box_template] [addRow "7"; deleteRow true "7" 1] two_groups) = false
  /\ hasChanges (run_all [box_template] [addRow "7"] two_groups) = true.
Proof.
  assert (Hinv : checkbox_invariant (groupSelected two_groups))
    by (repeat constructor).
  assert (Hwf : well_formed_doc (savedGroupData two_groups))
    by (repeat constructor).
  split.
  - destruct (session_dirty_iff_changed [box_template] [addRow "7"; deleteRow true "7" 1]
                two_groups) as [_ H]; [repeat constructor | exact Hinv | exact Hwf |].
    destruct (hasChanges _) eqn:E; [|reflexivity].
    exfalso. now apply (proj1 H).
  - apply (session_dirty_iff_changed [box_template] [addRow "7"] two_groups);
      [repeat constructor | exact Hinv | exact Hwf |].
    vm_compute. discriminate.
Defined.

(** ** The tab after a delete *)

(** X27.  A confirmed delete of a group other than the first opens the
    first tab, whichever tab was open: the first group stays first and is
    the active group afterwards; and when the only group is deleted, no
    group is left and none is active. *)
Theorem deleteGroup_opens_first_tab memoriez st g gs groupId :
  groupSelected st = g :: gs ->
  (group_id g <> groupId -> group_id g <> "" ->
   activeGroup (fst (run memoriez (deleteGroup true groupId) st)) = Some g
   /\ hd_error (groupSelected (fst (run memoriez (deleteGroup true groupId) st))) = Some g)
  /\ (gs = [] -> groupId = group_id g ->
      groupSelected (fst (run memoriez (deleteGroup true groupId) st)) = []
      /\ activeGroup (fst (run memoriez (deleteGroup true groupId) st)) = None).
Proof.
  intros H. split.
  - intros Hne Hne'. now apply (deleteGroup_not_first memoriez st g gs groupId).
  - intros -> ->. split; [|now apply deleteGroup_last].
    rewrite groupSelected_run. cbn [handler]. unfold handleDeleteGroup, produce.
    cbn [negb]. rewrite H. cbn [findIndex]. now rewrite has_group_id_refl.
Qed.

Lemma deleteGroup_opens_first_tab_witness :
  activeGroup
    (fst (run [] (deleteGroup true "g2")
            {| groupSelected := [sample_group; other_group]; activeGroupId := Some "g2";
               savedGroupData := [] |}))
  = Some sample_group.
Proof.
  apply (deleteGroup_opens_first_tab []
           {| groupSelected := [sample_group; other_group]; activeGroupId := Some "g2";
              savedGroupData := [] |} sample_group [other_group] "g2" eq_refl);
    cbn; discriminate.
Defined.
